(** * Hierarchical architecture graph engine of the CodeBlocks extension

    A shallow embedding of the graph assembler ([GraphService.generateGraph]),
    the heuristic process flow ([ProcessInferenceService.generateHeuristicFlow]),
    the drill-down handler of the block manager and the webview controller
    (layout visibility, request tokens, navigation stack), followed by the
    properties established about them.

    Conventions.
    - A JavaScript string is a [string]; [s.length] is [String.length] and
      case folding and the whitespace class are the ASCII ones.
    - A [Map] that is only read with [get]/[has] and written with [set] is a
      [gmap]; a [Map] or [Set] that is iterated keeps its insertion order
      and is a list.
    - [x || d], [if (x)] and [!x] on a string or [undefined] follow
      JavaScript truthiness: [undefined] and the empty string are falsy.
    - A [Set] that is only tested and updated ([has], [add], [delete],
      [size]) is a [gset].
    - Promises: the synchronous prefix of an [async] call runs where the
      call is made; the rest runs when the awaited lookup completes, in an
      order the program does not control (see [GraphService.settle]).
    - The reverse index [_nodeIdMap] is a field of the one [GraphService]:
      [GraphService.generateGraph] is a call that runs from its entry to
      its return with no other call entered in between, and
      [GraphService.service_run] runs calls that overlap on the shared
      field.
    - Objects that are shared and written are kept in a store and named by
      their index: the node arrays of the webview, which [rawNodes] and the
      saved frames refer to and which the layout writes onto (see
      [Webview.State]).
    - React: a state variable named in a function is the one of the render
      that created the function; a ref is read through [.current] and is
      always the current one (see [Webview.handleMessage]). *)

From Stdlib Require Import Ascii.
From stdpp Require Import gmap strings list pretty.

Set Warnings "-register-all".

Open Scope string_scope.
Open Scope list_scope.

(* ===================================================================== *)
(** * JavaScript helpers *)
(* ===================================================================== *)

Module JS.

(** Truthiness of a [string | undefined] value. *)
Definition truthy (v : option string) : bool :=
  match v with
  | Some s => negb (String.eqb s "")
  | None => false
  end.

(** [v || d] for a string-or-undefined [v] and a string [d]. *)
Definition or_else (v : option string) (d : string) : string :=
  match v with
  | Some s => if String.eqb s "" then d else s
  | None => d
  end.

(** [s.split(sep)] for a one-character separator: the pieces between the
    occurrences of [sep]; never the empty list. *)
Fixpoint split (sep : ascii) (s : string) : list string :=
  match s with
  | EmptyString => [""]
  | String c r =>
      if Ascii.eqb c sep then "" :: split sep r
      else match split sep r with
           | p :: ps => String c p :: ps
           | [] => [String c ""]
           end
  end.

(** [arr.pop()] on a non-empty array of strings: its last element. *)
Definition pop (l : list string) : option string := last l.

Definition is_upper (c : ascii) : bool :=
  let n := nat_of_ascii c in (65 <=? n)%nat && (n <=? 90)%nat.

Definition lower_ascii (c : ascii) : ascii :=
  if is_upper c then ascii_of_nat (nat_of_ascii c + 32) else c.

(** [s.toLowerCase()]. *)
Fixpoint toLowerCase (s : string) : string :=
  match s with
  | EmptyString => EmptyString
  | String c r => String (lower_ascii c) (toLowerCase r)
  end.

(** The class [\s]: tab, line feed, vertical tab, form feed, carriage
    return and space. *)
Definition is_ws (c : ascii) : bool :=
  let n := nat_of_ascii c in
  ((9 <=? n)%nat && (n <=? 13)%nat) || (n =? 32)%nat.

(** [s.replace(/\s+/g, '-')]: every maximal run of whitespace becomes one
    dash.  [in_run] tells that the previous character was whitespace. *)
Fixpoint replace_ws_runs (in_run : bool) (s : string) : string :=
  match s with
  | EmptyString => EmptyString
  | String c r =>
      if is_ws c then
        if in_run then replace_ws_runs true r
        else String "-" (replace_ws_runs true r)
      else String c (replace_ws_runs false r)
  end.

(** [arr.includes(x)] on strings. *)
Definition includes (l : list string) (x : string) : bool :=
  existsb (String.eqb x) l.

(** [arr.slice(0, n)]. *)
Definition slice0 {A} (n : nat) (l : list A) : list A := take n l.

(** [arr.forEach((x, index) => ...)] visits the pairs of [indexed arr]. *)
Definition indexed {A} (l : list A) : list (nat * A) := imap pair l.

End JS.

(* ===================================================================== *)
(** * Graph payload exchanged with the webview (React Flow nodes and edges) *)
(* ===================================================================== *)

(** A source location, [{ file, line }]. *)
Record Location := mkLocation {
  loc_file : string;
  loc_line : N
}.

(** The [data] object of a node.  Fields that a producer does not write
    are [None] ([undefined]). *)
Record NodeData := mkData {
  d_label : option string;
  d_detail : option string;
  d_description : option string;
  d_files : option (list string);
  d_type : option string;
  d_kind : option string;
  d_location : option Location;
  d_isExpanded : option bool
}.

(** A node of the payload.  The purely presentational fields ([style],
    [extent], the initial [position]) carry no logic and are left out. *)
Record RFNode := mkNode {
  n_id : string;
  n_type : option string;
  n_parentNode : option string;
  n_data : NodeData
}.

(** An edge of the payload; [e_calls] is [data.calls]. *)
Record RFEdge := mkEdge {
  e_id : string;
  e_source : string;
  e_target : string;
  e_label : option string;
  e_calls : option (list string)
}.

Record GraphData := mkGraph {
  g_nodes : list RFNode;
  g_edges : list RFEdge
}.

Global Instance Location_eq_dec : EqDecision Location.
Proof. solve_decision. Defined.
Global Instance NodeData_eq_dec : EqDecision NodeData.
Proof. solve_decision. Defined.
Global Instance RFNode_eq_dec : EqDecision RFNode.
Proof. solve_decision. Defined.
Global Instance RFEdge_eq_dec : EqDecision RFEdge.
Proof. solve_decision. Defined.

Definition no_data : NodeData :=
  mkData None None None None None None None None.

(** The process graph of the inference service ([ProcessNode],
    [ProcessEdge], [ProcessGraphData]).  A graph parsed from a collaborator
    reply may miss any field but the ids. *)
Record ProcessNode := mkPNode {
  pn_id : string;
  pn_label : option string;
  pn_type : option string;
  pn_files : option (list string);
  pn_description : option string
}.

Record ProcessEdge := mkPEdge {
  pe_source : string;
  pe_target : string;
  pe_label : option string
}.

Record ProcessGraphData := mkPGraph {
  pg_nodes : list ProcessNode;
  pg_edges : list ProcessEdge
}.

(* ===================================================================== *)
(** * GraphService: the graph assembler *)
(* ===================================================================== *)

Module GraphService.

(** [vscode.SymbolKind], in the order of the enumeration. *)
Inductive SymbolKind :=
| SK_File | SK_Module | SK_Namespace | SK_Package | SK_Class | SK_Method
| SK_Property | SK_Field | SK_Constructor | SK_Enum | SK_Interface
| SK_Function | SK_Variable | SK_Constant | SK_String | SK_Number
| SK_Boolean | SK_Array | SK_Object | SK_Key | SK_Null | SK_EnumMember
| SK_Struct | SK_Event | SK_Operator | SK_TypeParameter.

Global Instance SymbolKind_eq_dec : EqDecision SymbolKind.
Proof. solve_decision. Defined.

(** [vscode.SymbolKind[k]]: the name of the enumeration member. *)
Definition kind_name (k : SymbolKind) : string :=
  match k with
  | SK_File => "File" | SK_Module => "Module" | SK_Namespace => "Namespace"
  | SK_Package => "Package" | SK_Class => "Class" | SK_Method => "Method"
  | SK_Property => "Property" | SK_Field => "Field"
  | SK_Constructor => "Constructor" | SK_Enum => "Enum"
  | SK_Interface => "Interface" | SK_Function => "Function"
  | SK_Variable => "Variable" | SK_Constant => "Constant"
  | SK_String => "String" | SK_Number => "Number" | SK_Boolean => "Boolean"
  | SK_Array => "Array" | SK_Object => "Object" | SK_Key => "Key"
  | SK_Null => "Null" | SK_EnumMember => "EnumMember" | SK_Struct => "Struct"
  | SK_Event => "Event" | SK_Operator => "Operator"
  | SK_TypeParameter => "TypeParameter"
  end.

(** [vscode.DocumentSymbol]: the fields the assembler reads.
    [sym_line] is [range.start.line]; [sym_selLine] and [sym_selChar] are
    [selectionRange.start]. *)
Inductive DocumentSymbol := mkSymbol {
  sym_name : string;
  sym_detail : string;
  sym_kind : SymbolKind;
  sym_line : N;
  sym_selLine : N;
  sym_selChar : N;
  sym_children : list DocumentSymbol
}.

(** [vscode.TextDocument]: [document.uri.toString()] and
    [document.uri.fsPath]. *)
Record TextDocument := mkDocument {
  doc_uri : string;
  doc_fsPath : string
}.

Record FileEntry := mkFile {
  f_document : TextDocument;
  f_symbols : list DocumentSymbol
}.

(** One entry of [provideOutgoingCalls]: [call.to.uri.toString()],
    [call.to.selectionRange.start.line] and [call.to.name]. *)
Record OutgoingCall := mkCall {
  to_uri : string;
  to_selLine : N;
  to_name : string
}.

(** The call-hierarchy collaborator, asked at [(uri, selectionRange.start)].
    [None] stands for every way a lookup ends without a list of calls: the
    command throws, [prepareCallHierarchy] gives no item, or
    [provideOutgoingCalls] gives nothing. *)
Definition CallOracle := string -> N -> N -> option (list OutgoingCall).

(** A pending [_aggregateOutgoingCalls]: what its continuation still needs
    once its synchronous prefix has passed both guards. *)
Record Probe := mkProbe {
  p_uri : string;
  p_name : string;
  p_selLine : N;
  p_selChar : N;
  p_sourceOwnerId : string
}.

(** The value of an [edgeMap] entry: [count] and the [calls] set in
    insertion order. *)
Record EdgeMeta := mkMeta {
  m_count : nat;
  m_calls : list string
}.

(** [edgeMap]: a [Map] in insertion order. *)
Definition EdgeMap := list (string * EdgeMeta).

(** The locals of [generateGraph], and in [b_nodeIdMap] what the call has
    written so far in the field [_nodeIdMap] of the service, which it has
    cleared on entry. *)
Record Builder := mkBuilder {
  b_nodes : list RFNode;
  b_nodeIdMap : gmap string string;
  b_fileMap : gmap string string;
  b_classMap : gmap string string;
  b_symbolOwnerMap : gmap string string;
  b_moduleGroups : gmap string string;
  b_hasChildren : bool;
  b_visitedSymbols : gset string;
  b_callsPromises : list Probe
}.

Definition push_node (n : RFNode) (b : Builder) : Builder :=
  mkBuilder (b_nodes b ++ [n]) (b_nodeIdMap b) (b_fileMap b) (b_classMap b)
    (b_symbolOwnerMap b) (b_moduleGroups b) (b_hasChildren b)
    (b_visitedSymbols b) (b_callsPromises b).

Definition with_nodes (ns : list RFNode) (b : Builder) : Builder :=
  mkBuilder ns (b_nodeIdMap b) (b_fileMap b) (b_classMap b)
    (b_symbolOwnerMap b) (b_moduleGroups b) (b_hasChildren b)
    (b_visitedSymbols b) (b_callsPromises b).

Definition set_nodeId (k v : string) (b : Builder) : Builder :=
  mkBuilder (b_nodes b) (<[k := v]> (b_nodeIdMap b)) (b_fileMap b)
    (b_classMap b) (b_symbolOwnerMap b) (b_moduleGroups b) (b_hasChildren b)
    (b_visitedSymbols b) (b_callsPromises b).

Definition set_file (k v : string) (b : Builder) : Builder :=
  mkBuilder (b_nodes b) (b_nodeIdMap b) (<[k := v]> (b_fileMap b))
    (b_classMap b) (b_symbolOwnerMap b) (b_moduleGroups b) (b_hasChildren b)
    (b_visitedSymbols b) (b_callsPromises b).

Definition set_class (k v : string) (b : Builder) : Builder :=
  mkBuilder (b_nodes b) (b_nodeIdMap b) (b_fileMap b)
    (<[k := v]> (b_classMap b)) (b_symbolOwnerMap b) (b_moduleGroups b)
    (b_hasChildren b) (b_visitedSymbols b) (b_callsPromises b).

Definition set_owner (k v : string) (b : Builder) : Builder :=
  mkBuilder (b_nodes b) (b_nodeIdMap b) (b_fileMap b) (b_classMap b)
    (<[k := v]> (b_symbolOwnerMap b)) (b_moduleGroups b) (b_hasChildren b)
    (b_visitedSymbols b) (b_callsPromises b).

Definition set_moduleGroup (k v : string) (b : Builder) : Builder :=
  mkBuilder (b_nodes b) (b_nodeIdMap b) (b_fileMap b) (b_classMap b)
    (b_symbolOwnerMap b) (<[k := v]> (b_moduleGroups b)) (b_hasChildren b)
    (b_visitedSymbols b) (b_callsPromises b).

Definition set_hasChildren (v : bool) (b : Builder) : Builder :=
  mkBuilder (b_nodes b) (b_nodeIdMap b) (b_fileMap b) (b_classMap b)
    (b_symbolOwnerMap b) (b_moduleGroups b) v
    (b_visitedSymbols b) (b_callsPromises b).

Definition add_visited (id : string) (b : Builder) : Builder :=
  mkBuilder (b_nodes b) (b_nodeIdMap b) (b_fileMap b) (b_classMap b)
    (b_symbolOwnerMap b) (b_moduleGroups b) (b_hasChildren b)
    ({[id]} ∪ b_visitedSymbols b) (b_callsPromises b).

Definition push_promise (p : Probe) (b : Builder) : Builder :=
  mkBuilder (b_nodes b) (b_nodeIdMap b) (b_fileMap b) (b_classMap b)
    (b_symbolOwnerMap b) (b_moduleGroups b) (b_hasChildren b)
    (b_visitedSymbols b) (b_callsPromises b ++ [p]).

(** The state on entry: fresh locals, and [this._nodeIdMap.clear()]. *)
Definition empty_builder : Builder :=
  mkBuilder [] ∅ ∅ ∅ ∅ ∅ false ∅ [].

Definition ROOT_ID : string := "root-system".

(** [_getNodeId]: the id [uri::name::line], recorded in the reverse index
    under [uri:selectionLine]. *)
Definition symbol_id (uri : string) (symbol : DocumentSymbol) : string :=
  uri +:+ "::" +:+ sym_name symbol +:+ "::" +:+ pretty (sym_line symbol).

Definition index_key (uri : string) (line : N) : string :=
  uri +:+ ":" +:+ pretty line.

Definition _getNodeId (uri : string) (symbol : DocumentSymbol) (b : Builder)
  : string * Builder :=
  let id := symbol_id uri symbol in
  let key := index_key uri (sym_selLine symbol) in
  (id, set_nodeId key id b).

(** The virtual root container pushed when [virtualRootLabel] is truthy. *)
Definition root_node (label : string) : RFNode :=
  mkNode ROOT_ID (Some "group") None
    (mkData (Some label) None None None (Some "system") None None None).

(** The id of a semantic module container:
    [`mod-${moduleName.replace(/\s+/g, '-').toLowerCase()}`]. *)
Definition module_group_id (moduleName : string) : string :=
  "mod-" +:+ JS.toLowerCase (JS.replace_ws_runs false moduleName).

Definition module_node (moduleName : string) : RFNode :=
  mkNode (module_group_id moduleName) (Some "group") None
    (mkData (Some moduleName) None None None (Some "system") None None None).

(** "Determine Parent": the virtual root if there is one, overridden by the
    file's semantic module, whose container is created on first use. *)
Definition file_parent (virtualRootLabel : option string)
    (semanticMap : option (gmap string string)) (fsPath : string)
    (b : Builder) : option string * Builder :=
  let parentId := if JS.truthy virtualRootLabel then Some ROOT_ID else None in
  match semanticMap with
  | Some sm =>
      match sm !! fsPath with
      | Some moduleName =>
          let b1 :=
            match b_moduleGroups b !! moduleName with
            | Some _ => b
            | None =>
                set_moduleGroup moduleName (module_group_id moduleName)
                  (push_node (module_node moduleName) b)
            end in
          (b_moduleGroups b1 !! moduleName, b1)
      | None => (parentId, b)
      end
  | None => (parentId, b)
  end.

Definition is_class_like (k : SymbolKind) : bool :=
  match k with SK_Class | SK_Interface => true | _ => false end.

Definition is_member_like (k : SymbolKind) : bool :=
  match k with
  | SK_Function | SK_Method | SK_Constant | SK_Variable => true
  | _ => false
  end.

(** The node of a class or interface. *)
Definition class_node (id activeParentId : string) (item : DocumentSymbol)
  : RFNode :=
  mkNode id (Some "component") (Some activeParentId)
    (mkData (Some (sym_name item)) (Some (sym_detail item)) None None
       (Some "component") (Some "Class") None None).

(** The node of a top-level function, method, constant or variable in the
    flattened view. *)
Definition function_node (id systemParentId : string) (item : DocumentSymbol)
  : RFNode :=
  mkNode id (Some "component") (Some systemParentId)
    (mkData (Some (sym_name item))
       (Some (JS.or_else (Some (sym_detail item)) "Function")) None None
       (Some "component") (Some (kind_name (sym_kind item))) None None).

(** The inner [assignOwner] closures: every descendant is given [owner]. *)
Fixpoint assignOwner_symbol (uri owner : string) (b : Builder)
    (sub : DocumentSymbol) {struct sub} : Builder :=
  let '(subId, b1) := _getNodeId uri sub b in
  let b2 := set_owner subId owner b1 in
  foldl (assignOwner_symbol uri owner) b2 (sym_children sub).

Definition assignOwner (uri owner : string) (subItems : list DocumentSymbol)
    (b : Builder) : Builder :=
  foldl (assignOwner_symbol uri owner) b subItems.

(** The class branch maps the direct children only
    ([item.children.forEach(child => symbolOwnerMap.set(childId, id))]). *)
Definition own_direct_child (uri owner : string) (b : Builder)
    (child : DocumentSymbol) : Builder :=
  let '(childId, b1) := _getNodeId uri child b in
  set_owner childId owner b1.

(** One iteration of the loop of [processSymbols]. *)
Definition processSymbol (uri fileId : string) (includeFiles : bool)
    (ownerId systemParentId : string) (b : Builder) (item : DocumentSymbol)
  : Builder :=
  let '(id, b) := _getNodeId uri item b in
  if is_class_like (sym_kind item) then
    let b := set_hasChildren true b in
    let activeParentId := if includeFiles then ownerId else systemParentId in
    let b := push_node (class_node id activeParentId item) b in
    let b := set_class (uri +:+ "::" +:+ sym_name item) id b in
    let b := set_owner id id b in
    foldl (own_direct_child uri id) b (sym_children item)
  else if is_member_like (sym_kind item) then
    let isTopLevel := String.eqb ownerId fileId in
    if isTopLevel && negb includeFiles then
      let b := push_node (function_node id systemParentId item) b in
      let b := set_owner id id b in
      assignOwner uri id (sym_children item) b
    else
      let activeParent := if includeFiles then ownerId else systemParentId in
      let b := set_owner id activeParent b in
      assignOwner uri activeParent (sym_children item) b
  else b.

Definition processSymbols (uri fileId : string) (includeFiles : bool)
    (items : list DocumentSymbol) (ownerId systemParentId : string)
    (b : Builder) : Builder :=
  foldl (processSymbol uri fileId includeFiles ownerId systemParentId) b items.

(** "CONVERT TO LEAF IF EMPTY": the file node object, already in [nodes],
    is changed in place. *)
Definition to_leaf (n : RFNode) : RFNode :=
  let d := n_data n in
  mkNode (n_id n) (Some "component") (n_parentNode n)
    (mkData (d_label d) (Some "Source File") (d_description d) (d_files d)
       (d_type d) (d_kind d) (d_location d) (d_isExpanded d)).

(** The synchronous prefix of [_aggregateOutgoingCalls]: the lookup is
    started only for a symbol that has a (truthy) owner and is a method or
    a function. *)
Definition is_callable (k : SymbolKind) : bool :=
  match k with SK_Method | SK_Function => true | _ => false end.

Definition start_aggregate (uri : string) (symbol : DocumentSymbol)
    (symbolId : string) (b : Builder) : Builder :=
  let sourceOwnerId := b_symbolOwnerMap b !! symbolId in
  if negb (JS.truthy sourceOwnerId) then b
  else if negb (is_callable (sym_kind symbol)) then b
  else push_promise
         (mkProbe uri (sym_name symbol) (sym_selLine symbol)
            (sym_selChar symbol) (JS.or_else sourceOwnerId "")) b.

(** The inner [processCalls]: every symbol of the tree, once per id. *)
Fixpoint processCalls_symbol (uri : string) (b : Builder)
    (item : DocumentSymbol) {struct item} : Builder :=
  let '(id, b1) := _getNodeId uri item b in
  if bool_decide (id ∈ b_visitedSymbols b1) then b1
  else
    let b2 := add_visited id b1 in
    let b3 := start_aggregate uri item id b2 in
    foldl (processCalls_symbol uri) b3 (sym_children item).

Definition processCalls (uri : string) (items : list DocumentSymbol)
    (b : Builder) : Builder :=
  foldl (processCalls_symbol uri) b items.

(** One iteration of the second loop over [files]. *)
Definition processFileCalls (b : Builder) (file : FileEntry) : Builder :=
  let uriStr := doc_uri (f_document file) in
  if negb (JS.truthy (b_fileMap b !! uriStr)) then b
  else processCalls uriStr (f_symbols file) b.

Definition startCalls (files : list FileEntry) (b : Builder) : Builder :=
  foldl processFileCalls b files.

(** [edgeMap.get(key)]. *)
Fixpoint em_get (key : string) (m : EdgeMap) : option EdgeMeta :=
  match m with
  | [] => None
  | (k, v) :: r => if String.eqb k key then Some v else em_get key r
  end.

(** [set.add(x)] on an insertion-ordered set. *)
Definition set_add (x : string) (s : list string) : list string :=
  if bool_decide (x ∈ s) then s else s ++ [x].

(** [existing.count++; existing.calls.add(callDesc)] on the entry of
    [key], which keeps its place. *)
Fixpoint em_bump (key callDesc : string) (m : EdgeMap) : EdgeMap :=
  match m with
  | [] => []
  | (k, v) :: r =>
      if String.eqb k key
      then (k, mkMeta (S (m_count v)) (set_add callDesc (m_calls v))) :: r
      else (k, v) :: em_bump key callDesc r
  end.

(** The body of the loop over [outgoing]. *)
Definition aggregate_call (nodeIdMap ownerMap : gmap string string)
    (p : Probe) (edgeMap : EdgeMap) (call : OutgoingCall) : EdgeMap :=
  let targetKey := index_key (to_uri call) (to_selLine call) in
  let targetNodeId := nodeIdMap !! targetKey in
  if JS.truthy targetNodeId then
    let targetOwnerId := ownerMap !! (JS.or_else targetNodeId "") in
    if JS.truthy targetOwnerId
       && negb (String.eqb (p_sourceOwnerId p) (JS.or_else targetOwnerId ""))
    then
      let edgeKey := p_sourceOwnerId p +:+ "|" +:+ JS.or_else targetOwnerId "" in
      let callDesc := p_name p +:+ " -> " +:+ to_name call in
      match em_get edgeKey edgeMap with
      | Some _ => em_bump edgeKey callDesc edgeMap
      | None => (edgeMap ++ [(edgeKey, mkMeta 1 [callDesc])])%list
      end
    else edgeMap
  else edgeMap.

(** The continuation of one [_aggregateOutgoingCalls] after both awaits. *)
Definition complete_probe (oracle : CallOracle)
    (nodeIdMap ownerMap : gmap string string) (edgeMap : EdgeMap) (p : Probe)
  : EdgeMap :=
  match oracle (p_uri p) (p_selLine p) (p_selChar p) with
  | Some outgoing =>
      foldl (aggregate_call nodeIdMap ownerMap p) edgeMap outgoing
  | None => edgeMap
  end.

(** [await Promise.all(callsPromises)]: the continuations run one at a
    time, in the order [completion] in which the lookups complete.  Every
    synchronous prefix has run before the first of them, so they all see
    the final owner map, and the reverse index as this call has left it in
    the field, as long as no other call is entered before they run (see
    [complete] for the continuation on the shared field). *)
Definition settle (oracle : CallOracle) (b : Builder)
    (completion : list Probe) : EdgeMap :=
  foldl (complete_probe oracle (b_nodeIdMap b) (b_symbolOwnerMap b)) []
    completion.

(** "Convert Edge Map to Edges": one iteration of [edgeMap.forEach].
    [const [source, target] = key.split('|')] takes the first two pieces;
    every key holds a bar, so both exist. *)
Definition edge_of_entry (entry : string * EdgeMeta) : list RFEdge :=
  let '(key, meta) := entry in
  let parts := JS.split "|" key in
  let source := nth 0 parts "" in
  let target := nth 1 parts "" in
  if negb (String.eqb source target) then
    [mkEdge ("e-" +:+ source +:+ "-" +:+ target) source target
       (if (1 <? m_count meta)%nat
        then Some (pretty (m_count meta) +:+ " calls") else None)
       (Some (m_calls meta))]
  else [].

Definition edges_of_map (edgeMap : EdgeMap) : list RFEdge :=
  flat_map edge_of_entry edgeMap.

(** ** Resolved calls

    The loop body of [_aggregateOutgoingCalls] does two things: it decides
    whether a call is resolved (its target is in the reverse index, has an
    owner, and that owner differs from the caller's), and it registers a
    resolved call in the edge map.  The two are named here; lemma
    [aggregate_call_register] relates them to [aggregate_call]. *)

Record ResolvedCall := mkResolved {
  rc_source : string;     (* owner of the calling symbol *)
  rc_target : string;     (* owner of the called symbol *)
  rc_desc : string        (* ["caller -> callee"] *)
}.

Definition rc_key (rc : ResolvedCall) : string :=
  rc_source rc +:+ "|" +:+ rc_target rc.

Definition resolve_call (nodeIdMap ownerMap : gmap string string)
    (p : Probe) (call : OutgoingCall) : option ResolvedCall :=
  let targetNodeId := nodeIdMap !! index_key (to_uri call) (to_selLine call) in
  if JS.truthy targetNodeId then
    let targetOwnerId := ownerMap !! (JS.or_else targetNodeId "") in
    if JS.truthy targetOwnerId
       && negb (String.eqb (p_sourceOwnerId p) (JS.or_else targetOwnerId ""))
    then Some (mkResolved (p_sourceOwnerId p) (JS.or_else targetOwnerId "")
                 (p_name p +:+ " -> " +:+ to_name call))
    else None
  else None.

Definition register (edgeMap : EdgeMap) (key callDesc : string) : EdgeMap :=
  match em_get key edgeMap with
  | Some _ => em_bump key callDesc edgeMap
  | None => edgeMap ++ [(key, mkMeta 1 [callDesc])]
  end.

Definition register_call (edgeMap : EdgeMap) (rc : ResolvedCall) : EdgeMap :=
  register edgeMap (rc_key rc) (rc_desc rc).

(** The entry of one key after one more call with description [d]. *)
Definition bump_entry (entry : option EdgeMeta) (d : string)
  : option EdgeMeta :=
  Some match entry with
       | Some v => mkMeta (S (m_count v)) (set_add d (m_calls v))
       | None => mkMeta 1 [d]
       end.

(** The descriptions of the calls registered under [key], in order. *)
Definition descs_of (key : string) (calls : list ResolvedCall) : list string :=
  map rc_desc (filter (fun rc => rc_key rc = key) calls).

(** The resolved calls of one lookup, and of all lookups in completion
    order. *)
Definition probe_calls (oracle : CallOracle)
    (nodeIdMap ownerMap : gmap string string) (p : Probe)
  : list ResolvedCall :=
  match oracle (p_uri p) (p_selLine p) (p_selChar p) with
  | Some outgoing => omap (resolve_call nodeIdMap ownerMap p) outgoing
  | None => []
  end.

Definition resolved_calls (oracle : CallOracle) (b : Builder)
    (completion : list Probe) : list ResolvedCall :=
  flat_map (probe_calls oracle (b_nodeIdMap b) (b_symbolOwnerMap b))
    completion.

(** The resolved calls between two owners. *)
Definition calls_between (source target : string)
    (calls : list ResolvedCall) : list ResolvedCall :=
  filter (fun rc => rc_source rc = source /\ rc_target rc = target) calls.

(** The weight view of an edge map and of an edge list: what stays when
    the order of the entries and of the call descriptions is forgotten. *)
Definition weights (edgeMap : EdgeMap) : list (string * nat) :=
  map (fun entry => (fst entry, m_count (snd entry))) edgeMap.

Definition edge_weight (e : RFEdge)
  : string * string * string * option string :=
  (e_id e, e_source e, e_target e, e_label e).

(** [s.includes('|')]. *)
Fixpoint has_bar (s : string) : bool :=
  match s with
  | EmptyString => false
  | String c r => Ascii.eqb c "|" || has_bar r
  end.

(** The edge emitted for the owners [source] and [target] and the entry
    [meta] of their key. *)
Definition edge_between (source target : string) (meta : EdgeMeta) : RFEdge :=
  mkEdge ("e-" +:+ source +:+ "-" +:+ target) source target
    (if (1 <? m_count meta)%nat
     then Some (pretty (m_count meta) +:+ " calls") else None)
    (Some (m_calls meta)).

(** A symbol and all the symbols below it. *)
Fixpoint all_symbols (s : DocumentSymbol) : list DocumentSymbol :=
  s :: flat_map all_symbols (sym_children s).

(** The symbol with id [id] has an owner. *)
Definition owned (b : Builder) (id : string) : Prop :=
  is_Some (b_symbolOwnerMap b !! id).

(** The owner map of [b'] has an entry wherever the one of [b] has. *)
Definition owners_grow (b b' : Builder) : Prop :=
  forall id, owned b id -> owned b' id.

(** What the first pass maps of a top-level symbol: the symbol itself when
    it is a class, an interface, a function, a method, a constant or a
    variable; the direct children of a class or interface; every symbol
    below a function, method, constant or variable. *)
Definition mapped_symbols (item : DocumentSymbol) : list DocumentSymbol :=
  if is_class_like (sym_kind item) then item :: sym_children item
  else if is_member_like (sym_kind item) then all_symbols item
  else [].

(** Every owner recorded in the owner map is the id of a node. *)
Definition owners_resolve (b : Builder) : Prop :=
  forall k o, b_symbolOwnerMap b !! k = Some o -> o ∈ map n_id (b_nodes b).

(** The weight view of the edges emitted for one entry. *)
Definition edges_of_weight (kc : string * nat)
  : list (string * string * string * option string) :=
  map edge_weight (edge_of_entry (fst kc, mkMeta (snd kc) [])).

(** The container that [processSymbols] is given for a file
    ([parentId || ROOT_ID]): the container of its semantic module, else the
    root id, whether or not a virtual root was created. *)
Definition container_id (semanticMap : option (gmap string string))
    (fsPath : string) : string :=
  match semanticMap with
  | Some sm =>
      match sm !! fsPath with
      | Some moduleName => module_group_id moduleName
      | None => ROOT_ID
      end
  | None => ROOT_ID
  end.

(** The container nodes created ahead of the nodes of a single file. *)
Definition container_nodes (semanticMap : option (gmap string string))
    (virtualRootLabel : option string) (fsPath : string) : list RFNode :=
  (if JS.truthy virtualRootLabel
   then [root_node (JS.or_else virtualRootLabel "")] else [])
  ++ match semanticMap with
     | Some sm =>
         match sm !! fsPath with
         | Some moduleName => [module_node moduleName]
         | None => []
         end
     | None => []
     end.

Section Assembler.

(** Node's [path.basename]. *)
Variable basename : string -> string.

Definition file_node (fileId : string) (parentId : option string)
    (fsPath : string) : RFNode :=
  mkNode fileId (Some "group") parentId
    (mkData (Some (basename fsPath)) None None None (Some "file") None None
       None).

(** One iteration of the first loop over [files]. *)
Definition processFile (virtualRootLabel : option string)
    (semanticMap : option (gmap string string)) (includeFiles : bool)
    (b : Builder) (file : FileEntry) : Builder :=
  let uriStr := doc_uri (f_document file) in
  let fsPath := doc_fsPath (f_document file) in
  let '(parentId, b) := file_parent virtualRootLabel semanticMap fsPath b in
  let fileId := "file-" +:+ uriStr in
  let b := set_file uriStr fileId b in
  let fileNode := file_node fileId parentId fsPath in
  let fileIndex := length (b_nodes b) in
  let b := if includeFiles then push_node fileNode b else b in
  let b := set_hasChildren false b in
  let b := processSymbols uriStr fileId includeFiles (f_symbols file) fileId
             (JS.or_else parentId ROOT_ID) b in
  if includeFiles && negb (b_hasChildren b)
  then with_nodes (alter to_leaf fileIndex (b_nodes b)) b
  else b.

(** "1. Create Nodes". *)
Definition createNodes (files : list FileEntry)
    (semanticMap : option (gmap string string))
    (virtualRootLabel : option string) (includeFiles : bool) : Builder :=
  let b :=
    match virtualRootLabel with
    | Some l => if JS.truthy virtualRootLabel
                then push_node (root_node l) empty_builder
                else empty_builder
    | None => empty_builder
    end in
  foldl (processFile virtualRootLabel semanticMap includeFiles) b files.

(** [generateGraph], run from its entry to its return with no other call
    of the service entered in between: the reverse index that the
    continuations of the lookups read is then the one that this call has
    written ([b_nodeIdMap]).  The index is a field of the service, though,
    and calls may overlap: [service_run] below is the general case, and
    lemma [isolated_call_returns_generateGraph] relates the two.
    [cachedSummaries] is not read by the function and is left out.
    [oracle] is the call-hierarchy collaborator and [schedule] the order in
    which the pending lookups complete. *)
Definition generateGraph (files : list FileEntry)
    (semanticMap : option (gmap string string))
    (virtualRootLabel : option string) (includeFiles : bool)
    (oracle : CallOracle) (schedule : list Probe -> list Probe) : GraphData :=
  let b := createNodes files semanticMap virtualRootLabel includeFiles in
  let b := startCalls files b in
  let edgeMap := settle oracle b (schedule (b_callsPromises b)) in
  mkGraph (b_nodes b) (edges_of_map edgeMap).

(** The owner map and the edge map on which [generateGraph] ends. *)
Definition final_builder (files : list FileEntry)
    (semanticMap : option (gmap string string))
    (virtualRootLabel : option string) (includeFiles : bool) : Builder :=
  startCalls files
    (createNodes files semanticMap virtualRootLabel includeFiles).

Definition final_edgeMap (files : list FileEntry)
    (semanticMap : option (gmap string string))
    (virtualRootLabel : option string) (includeFiles : bool)
    (oracle : CallOracle) (schedule : list Probe -> list Probe) : EdgeMap :=
  let b := final_builder files semanticMap virtualRootLabel includeFiles in
  settle oracle b (schedule (b_callsPromises b)).

(** ** The service and its calls in progress

    [_nodeIdMap] is a field of the [GraphService] object, of which the
    extension has one, used by the refresh (which is not awaited) and by
    the drill-down handler alike.  [generateGraph] clears the field on
    entry, fills it in its synchronous part (both loops over [files]) and
    then waits for the lookups; the continuation of each lookup reads the
    field when it runs, after its awaits.  A call entered in the meantime
    has cleared the field and filled it with the index of its own batch.
    The other maps ([symbolOwnerMap], [edgeMap]) are locals of the call,
    handed to [_aggregateOutgoingCalls] as arguments. *)

(** A call that has run its synchronous part: its nodes, its owner map,
    the lookups it still waits for, and its edge map so far. *)
Record Call := mkPending {
  c_nodes : list RFNode;
  c_ownerMap : gmap string string;
  c_pending : list Probe;
  c_edgeMap : EdgeMap
}.

(** The service: its field, and the calls entered so far, in order. *)
Record Service := mkService {
  sv_nodeIdMap : gmap string string;
  sv_calls : list Call
}.

Definition new_service : Service := mkService ∅ [].

(** What happens on the service, one JavaScript task at a time: a call of
    [generateGraph] is entered and runs up to its [await]; or the lookup
    number [lookup] among the pending ones of the call number [call]
    completes and its continuation runs. *)
Inductive ServiceEvent :=
| Enter (files : list FileEntry) (semanticMap : option (gmap string string))
    (virtualRootLabel : option string) (includeFiles : bool)
| Complete (call lookup : nat).

(** The synchronous part of [generateGraph]: the field is cleared and
    holds, at the [await], the index of this batch. *)
Definition enter (files : list FileEntry)
    (semanticMap : option (gmap string string))
    (virtualRootLabel : option string) (includeFiles : bool) (sv : Service)
  : Service :=
  let b := final_builder files semanticMap virtualRootLabel includeFiles in
  mkService (b_nodeIdMap b)
    (sv_calls sv
     ++ [mkPending (b_nodes b) (b_symbolOwnerMap b) (b_callsPromises b) []]).

(** The continuation of a lookup: it resolves the reported calls in the
    field as it is now, and in the owner map of its own call. *)
Definition complete (oracle : CallOracle) (call lookup : nat) (sv : Service)
  : Service :=
  match sv_calls sv !! call with
  | Some c =>
      match c_pending c !! lookup with
      | Some p =>
          let edgeMap :=
            complete_probe oracle (sv_nodeIdMap sv) (c_ownerMap c)
              (c_edgeMap c) p in
          mkService (sv_nodeIdMap sv)
            (<[call := mkPending (c_nodes c) (c_ownerMap c)
                         (delete lookup (c_pending c)) edgeMap]>
               (sv_calls sv))
      | None => sv
      end
  | None => sv
  end.

Definition service_step (oracle : CallOracle) (sv : Service)
    (ev : ServiceEvent) : Service :=
  match ev with
  | Enter files semanticMap virtualRootLabel includeFiles =>
      enter files semanticMap virtualRootLabel includeFiles sv
  | Complete call lookup => complete oracle call lookup sv
  end.

Definition service_run (oracle : CallOracle) (events : list ServiceEvent)
    (sv : Service) : Service :=
  foldl (service_step oracle) sv events.

(** What a call returns, once [Promise.all] has resolved: its nodes and
    the edges of its edge map. *)
Definition returned (sv : Service) (call : nat) : option GraphData :=
  match sv_calls sv !! call with
  | Some c =>
      match c_pending c with
      | [] => Some (mkGraph (c_nodes c) (edges_of_map (c_edgeMap c)))
      | _ :: _ => None
      end
  | None => None
  end.

Definition is_completion (ev : ServiceEvent) : Prop :=
  match ev with Complete _ _ => True | Enter _ _ _ _ => False end.

(** What holds of the call number [call], entered with the builder [b],
    as long as no other call is entered: the field is the index of [b],
    and the edge map is the settlement of the lookups completed so far,
    which with the pending ones make up the lookups of [b]. *)
Definition alone (oracle : CallOracle) (b : Builder) (call : nat)
    (sv : Service) : Prop :=
  sv_nodeIdMap sv = b_nodeIdMap b
  /\ exists completed pending,
       sv_calls sv !! call
       = Some (mkPending (b_nodes b) (b_symbolOwnerMap b) pending
                 (settle oracle b completed))
       /\ completed ++ pending ≡ₚ b_callsPromises b.

End Assembler.

(** [convertProcessToReactFlow]. *)
Definition convert_node (n : ProcessNode) : RFNode :=
  let ty := JS.or_else (pn_type n) "process" in
  mkNode (pn_id n) (Some ty) None
    (mkData (pn_label n) None (pn_description n) (pn_files n) (Some ty) None
       None None).

Definition convert_edge (e : ProcessEdge) : RFEdge :=
  mkEdge ("e-" +:+ pe_source e +:+ "-" +:+ pe_target e) (pe_source e)
    (pe_target e) (pe_label e) None.

Definition convertProcessToReactFlow (processData : ProcessGraphData)
  : GraphData :=
  mkGraph (map convert_node (pg_nodes processData))
    (map convert_edge (pg_edges processData)).

End GraphService.

(* ===================================================================== *)
(** * ProcessInferenceService: the deterministic heuristic flow *)
(* ===================================================================== *)

Module ProcessInferenceService.

(** The accumulators of [generateHeuristicFlow]. *)
Record FlowAcc := mkAcc {
  acc_nodes : list ProcessNode;
  acc_edges : list ProcessEdge;
  acc_previousId : string
}.

Definition start_node (label : string) : ProcessNode :=
  mkPNode "start" (Some ("Start " +:+ label)) (Some "start") (Some [])
    (Some "Process Initiation").

Definition end_node : ProcessNode :=
  mkPNode "end" (Some "End Process") (Some "end") (Some [])
    (Some "Completion").

Definition step_id (index : nat) : string := "step_" +:+ pretty index.

Section Heuristic.

(** [vscode.workspace.asRelativePath]. *)
Variable asRelativePath : string -> string.

(** [asRelativePath(fp).split('/').pop() || 'File']. *)
Definition file_name (fp : string) : string :=
  JS.or_else (JS.pop (JS.split "/" (asRelativePath fp))) "File".

Definition step_node (index : nat) (fp : string) : ProcessNode :=
  mkPNode (step_id index) (Some ("Execute " +:+ file_name fp))
    (Some "process") (Some [fp]) (Some "Process Logic Step").

(** The callback of [filePaths.slice(0, 5).forEach((fp, index) => ...)]. *)
Definition flow_step (acc : FlowAcc) (entry : nat * string) : FlowAcc :=
  let '(index, fp) := entry in
  let id := step_id index in
  mkAcc (acc_nodes acc ++ [step_node index fp])
    (acc_edges acc ++
       [mkPEdge (acc_previousId acc) id
          (Some (if (index =? 0)%nat then "init" else "next"))])
    id.

Definition generateHeuristicFlow (filePaths : list string) (label : string)
  : ProcessGraphData :=
  let acc0 := mkAcc [start_node label] [] "start" in
  let acc := foldl flow_step acc0 (JS.indexed (JS.slice0 5 filePaths)) in
  mkPGraph (acc_nodes acc ++ [end_node])
    (acc_edges acc ++ [mkPEdge (acc_previousId acc) "end" (Some "finish")]).

End Heuristic.

(** The edges link the ids in sequence: edge [i] goes from id [i] to id
    [i + 1], and there is one edge less than there are ids. *)
Definition linear_chain (ids : list string) (edges : list ProcessEdge)
  : Prop :=
  map pe_source edges = take (length ids - 1) ids
  /\ map pe_target edges = drop 1 ids.

(** What the accumulators satisfy after every step. *)
Definition chain_inv (acc : FlowAcc) : Prop :=
  linear_chain (map pn_id (acc_nodes acc)) (acc_edges acc)
  /\ last (map pn_id (acc_nodes acc)) = Some (acc_previousId acc).

End ProcessInferenceService.

(* ===================================================================== *)
(** * BlockManager: the drill-down handler *)
(* ===================================================================== *)

Module BlockManager.

(** A [drillDown] message of the webview. *)
Record DrillDownMessage := mkDrill {
  dm_filePaths : option (list string);
  dm_label : option string;
  dm_requestId : option string;
  dm_nodeType : option string
}.

(** The branch of the handler that ran. *)
Inductive DrillBranch :=
| NoFiles              (* [filePaths] missing or empty: nothing happens *)
| ComponentGraph       (* process node, files loaded *)
| ComponentNothing     (* process node, no file could be loaded *)
| ProcessFlow          (* the collaborator's flow, at least two nodes *)
| HeuristicFlow        (* "EMERGENCY FALLBACK" *)
| FinalFallback.       (* "FINAL FALLBACK to Component Structure" *)

(** What the handler did: its branch, and the arguments of
    [updateGraph(data, requestId)] if it called it. *)
Record DrillResult := mkResult {
  dr_branch : DrillBranch;
  dr_update : option (GraphData * option string)
}.

Section DrillDown.

Variable basename : string -> string.
Variable asRelativePath : string -> string.
(** [ProcessInferenceService.generateSubsystemFlow]: its result ([None]
    is [null]), and the array it was given as the call leaves it.  When an
    API key is set the function sorts that array in place
    ([filePaths.sort()]) before it does anything else, and the handler goes
    on with the same array. *)
Variable generateSubsystemFlow :
  list string -> option ProcessGraphData * list string.
(** [_loadSymbolsForFiles]. *)
Variable loadSymbolsForFiles : list string -> list GraphService.FileEntry.
Variable oracle : GraphService.CallOracle.
Variable schedule : list GraphService.Probe -> list GraphService.Probe.

(** [generateGraph(filesToAnalyze, undefined, undefined, label, false)]. *)
Definition componentGraph (filePaths : list string) (label : option string)
  : GraphData :=
  GraphService.generateGraph basename (loadSymbolsForFiles filePaths) None
    label false oracle schedule.

(** "STRICTER CHECK": [subsystemData && subsystemData.nodes &&
    subsystemData.nodes.length > 1]. *)
Definition nontrivial_flow (subsystemData : option ProcessGraphData)
  : option ProcessGraphData :=
  match subsystemData with
  | Some sd => if (1 <? length (pg_nodes sd))%nat then Some sd else None
  | None => None
  end.

(** The body of [CallGraphPanel.onMessage] for [command === 'drillDown']. *)
Definition onDrillDown (message : DrillDownMessage) : DrillResult :=
  let requestId := dm_requestId message in
  let label := dm_label message in
  match dm_filePaths message with
  | None => mkResult NoFiles None
  | Some filePaths =>
      if negb (0 <? length filePaths)%nat then mkResult NoFiles None
      else if bool_decide (dm_nodeType message = Some "process") then
        if (0 <? length (loadSymbolsForFiles filePaths))%nat
        then mkResult ComponentGraph
               (Some (componentGraph filePaths label, requestId))
        else mkResult ComponentNothing None
      else
        let '(subsystemData, filePaths) := generateSubsystemFlow filePaths in
        match nontrivial_flow subsystemData with
        | Some sd =>
            mkResult ProcessFlow
              (Some (GraphService.convertProcessToReactFlow sd, requestId))
        | None =>
            let heuristicData :=
              ProcessInferenceService.generateHeuristicFlow asRelativePath
                filePaths (JS.or_else label "Process") in
            if (0 <? length (pg_nodes heuristicData))%nat then
              mkResult HeuristicFlow
                (Some (GraphService.convertProcessToReactFlow heuristicData,
                       requestId))
            else
              mkResult FinalFallback
                (Some (componentGraph filePaths label, requestId))
        end
  end.

End DrillDown.

End BlockManager.

(* ===================================================================== *)
(** * Webview: compound layout and drill-down controller *)
(* ===================================================================== *)

Module Webview.

(** ** Layout ([getLayoutedElements]) *)

(** The label object given to [dagreGraph.setNode]. *)
Record DagreNode := mkDagreNode {
  dn_width : nat;
  dn_height : nat;
  dn_label : option string
}.

(** The compound graph handed to [dagre.layout]: the nodes set so far (a
    second [setNode] of an id replaces its label object), and the
    [setParent] and [setEdge] calls in order. *)
Record DagreGraph := mkDagre {
  dg_nodes : list (string * DagreNode);
  dg_parents : list (string * string);
  dg_edges : list (string * string)
}.

Definition empty_dagre : DagreGraph := mkDagre [] [] [].

Fixpoint assoc_set {V} (k : string) (v : V) (l : list (string * V))
  : list (string * V) :=
  match l with
  | [] => [(k, v)]
  | (k', v') :: r =>
      if String.eqb k' k then (k', v) :: r else (k', v') :: assoc_set k v r
  end.

Definition setNode (id : string) (n : DagreNode) (g : DagreGraph)
  : DagreGraph :=
  mkDagre (assoc_set id n (dg_nodes g)) (dg_parents g) (dg_edges g).

Definition setParent (id parent : string) (g : DagreGraph) : DagreGraph :=
  mkDagre (dg_nodes g) (dg_parents g ++ [(id, parent)]) (dg_edges g).

Definition setEdge (source target : string) (g : DagreGraph) : DagreGraph :=
  mkDagre (dg_nodes g) (dg_parents g) (dg_edges g ++ [(source, target)]).

Definition has_node (id : string) (g : DagreGraph) : bool :=
  existsb (fun kv => String.eqb (fst kv) id) (dg_nodes g).

(** "1. Determine visibility": the callback of the first [nodes.forEach]. *)
Definition mark_visible (expandedIds : gset string)
    (visibleNodes : gset string) (n : RFNode) : gset string :=
  if negb (JS.truthy (n_parentNode n)) then {[n_id n]} ∪ visibleNodes
  else if bool_decide (JS.or_else (n_parentNode n) "" ∈ expandedIds)
       then {[n_id n]} ∪ visibleNodes
       else visibleNodes.

Definition visibleNodes (nodes : list RFNode) (expandedIds : gset string)
  : gset string :=
  foldl (mark_visible expandedIds) ∅ nodes.

Definition isGroup (n : RFNode) : bool :=
  bool_decide (n_type n = Some "group") || bool_decide (n_type n = Some "system").

(** The [w] and [h] given to dagre for a visible node. *)
Definition node_size (expandedIds : gset string) (node : RFNode)
  : nat * nat :=
  if isGroup node then
    if bool_decide (n_id node ∈ expandedIds) then (10, 10) else (300, 100)
  else
    let label := d_label (n_data node) in
    let description := d_description (n_data node) in
    let labelLen :=
      if JS.truthy label then String.length (JS.or_else label "") else 10 in
    let descLen :=
      if JS.truthy description
      then String.length (JS.or_else description "") else 0 in
    (Nat.max 180 (Nat.max (labelLen * 9) (descLen * 6)),
     if JS.truthy description then 100 else 70).

(** "2. Add Nodes to Dagre": the callback of [sortedNodes.forEach]. *)
Definition add_to_dagre (expandedIds visible : gset string) (g : DagreGraph)
    (node : RFNode) : DagreGraph :=
  if bool_decide (n_id node ∈ visible) then
    let '(w, h) := node_size expandedIds node in
    let g := setNode (n_id node) (mkDagreNode w h (d_label (n_data node))) g in
    if JS.truthy (n_parentNode node)
       && bool_decide (JS.or_else (n_parentNode node) "" ∈ visible)
    then setParent (n_id node) (JS.or_else (n_parentNode node) "") g
    else g
  else g.

(** The callback of the second [edges.forEach] (the first one has an empty
    body). *)
Definition add_edge_to_dagre (visible : gset string) (g : DagreGraph)
    (edge : RFEdge) : DagreGraph :=
  if bool_decide (e_source edge ∈ visible)
     && bool_decide (e_target edge ∈ visible)
  then setEdge (e_source edge) (e_target edge) g
  else g.

(** A node as [getLayoutedElements] returns it.  [ln_node] carries the
    [data.isExpanded] written for a shown node; [ln_box] is dagre's entry
    for the node and [ln_parentBox] the entry of its visible parent, from
    which [position] is computed (top-left corner, relative to the parent's
    when there is one). *)
Record LNode {Box : Type} := mkLNode {
  ln_node : RFNode;
  ln_hidden : bool;
  ln_box : option Box;
  ln_parentBox : option Box
}.
Arguments LNode : clear implicits.
Arguments mkLNode {Box} _ _ _ _.

Definition with_isExpanded (v : bool) (n : RFNode) : RFNode :=
  let d := n_data n in
  mkNode (n_id n) (n_type n) (n_parentNode n)
    (mkData (d_label d) (d_detail d) (d_description d) (d_files d) (d_type d)
       (d_kind d) (d_location d) (Some v)).

(** A node without the field that the layout writes in it. *)
Definition without_isExpanded (n : RFNode) : RFNode :=
  let d := n_data n in
  mkNode (n_id n) (n_type n) (n_parentNode n)
    (mkData (d_label d) (d_detail d) (d_description d) (d_files d) (d_type d)
       (d_kind d) (d_location d) None).

(** The test of the visibility pass on one node: no (truthy) parent, or
    the direct parent is expanded. *)
Definition parent_rule (expandedIds : gset string) (n : RFNode) : bool :=
  negb (JS.truthy (n_parentNode n))
  || bool_decide (JS.or_else (n_parentNode n) "" ∈ expandedIds).

(** Following the specification's words ("a node's ancestors must all
    individually be in [expanded] for it to be reachable, computed by
    walking the parent chain"): the parent, the parent's parent and so on,
    for at most [fuel] links, are all in [expanded]. *)
Fixpoint spec_ancestors_expanded (fuel : nat) (nodes : list RFNode)
    (expanded : gset string) (n : RFNode) : bool :=
  match fuel with
  | 0 => true
  | S fuel' =>
      if negb (JS.truthy (n_parentNode n)) then true
      else
        let p := JS.or_else (n_parentNode n) "" in
        bool_decide (p ∈ expanded)
        && match find (fun m => String.eqb (n_id m) p) nodes with
           | Some parent => spec_ancestors_expanded fuel' nodes expanded parent
           | None => true
           end
  end.

(** The specification's reachability of a node of [nodes]. *)
Definition spec_reachable (nodes : list RFNode) (expanded : gset string)
    (n : RFNode) : bool :=
  spec_ancestors_expanded (length nodes) nodes expanded n.

(** The three-level chain [root -> group -> leaf] of the layout scenario. *)
Definition chain_root : RFNode :=
  mkNode "root" (Some "group") None
    (mkData (Some "root") None None None (Some "system") None None None).

Definition chain_group : RFNode :=
  mkNode "group" (Some "group") (Some "root")
    (mkData (Some "group") None None None (Some "file") None None None).

Definition chain_leaf : RFNode :=
  mkNode "leaf" (Some "component") (Some "group")
    (mkData (Some "leaf") None None None (Some "component") None None None).

Definition chain : list RFNode := [chain_root; chain_group; chain_leaf].

Section Layout.

(** The result entry of [dagre.layout] for a node: [x], [y], [width],
    [height]. *)
Variable Box : Type.
(** [dagre.layout]: the entry computed for each node of the graph. *)
Variable dagre_layout : DagreGraph -> string -> Box.
(** [a.localeCompare(b) <= 0]. *)
Variable locale_le : string -> string -> bool.

(** [[...nodes].sort((a, b) => a.id.localeCompare(b.id))]: a stable sort. *)
Fixpoint insert_sorted (n : RFNode) (l : list RFNode) : list RFNode :=
  match l with
  | [] => [n]
  | m :: r =>
      if locale_le (n_id m) (n_id n) then m :: insert_sorted n r
      else n :: m :: r
  end.

Definition sort_by_id (nodes : list RFNode) : list RFNode :=
  foldl (fun acc n => insert_sorted n acc) [] nodes.

(** [dagreGraph.node(id)] after [dagre.layout]. *)
Definition dagre_node (g : DagreGraph) (id : string) : option Box :=
  if has_node id g then Some (dagre_layout g id) else None.

Definition build_dagre (nodes : list RFNode) (edges : list RFEdge)
    (expandedIds : gset string) : DagreGraph :=
  let visible := visibleNodes nodes expandedIds in
  let g := foldl (add_to_dagre expandedIds visible) empty_dagre
             (sort_by_id nodes) in
  foldl (add_edge_to_dagre visible) g edges.

(** "Apply positions": the callback of [nodes.map]. *)
Definition place_node (expandedIds visible : gset string) (g : DagreGraph)
    (node : RFNode) : LNode Box :=
  if negb (bool_decide (n_id node ∈ visible)) then mkLNode node true None None
  else
    match dagre_node g (n_id node) with
    | None => mkLNode node true None None
    | Some nodeWithPosition =>
        let node' :=
          with_isExpanded (bool_decide (n_id node ∈ expandedIds)) node in
        if JS.truthy (n_parentNode node)
           && bool_decide (JS.or_else (n_parentNode node) "" ∈ visible)
        then mkLNode node' false (Some nodeWithPosition)
               (dagre_node g (JS.or_else (n_parentNode node) ""))
        else mkLNode node' false (Some nodeWithPosition) None
    end.

(** [getLayoutedElements(nodes, edges, 'TB', expandedIds)]: the value it
    returns.  The direction only sets dagre's [rankdir] and the side of the
    handles. *)
Definition getLayoutedElements (nodes : list RFNode) (edges : list RFEdge)
    (expandedIds : gset string) : list (LNode Box) * list RFEdge :=
  let visible := visibleNodes nodes expandedIds in
  let g := build_dagre nodes edges expandedIds in
  (map (place_node expandedIds visible g) nodes, edges).

(** [getLayoutedElements]: what it leaves in the node objects it was
    given.  The position pass returns a hidden node as a copy
    ([{ ...node, hidden: true }]) and leaves the object alone; for a shown
    node it assigns [hidden], [position], [style] and
    [node.data = { ...node.data, isExpanded }] to the object itself and
    returns that object.  Of the fields written, [RFNode] has
    [data.isExpanded] only, so the objects hold afterwards what the
    returned nodes hold. *)
Definition written_nodes (layout : list (LNode Box) * list RFEdge)
  : list RFNode :=
  map ln_node (fst layout).

(** What is drawn of a returned node: all of a shown node; of a hidden
    node, which is not drawn, everything but the [data.isExpanded] that an
    earlier layout may have left in it. *)
Definition rendered (ln : LNode Box) : LNode Box :=
  if ln_hidden ln
  then mkLNode (without_isExpanded (ln_node ln)) true (ln_box ln)
         (ln_parentBox ln)
  else ln.


(** ** Controller ([CallGraphContent]) *)

(** Node arrays are shared: [rawNodes] and the saved frames hold
    references to arrays of node objects, several of them possibly to the
    same array, and the layout writes onto those objects.  The arrays that
    the component has created are kept in a store, in the order of their
    creation, and a holder names an array by its index there. *)

(** A saved view: [{ nodes: rawNodes, edges: rawEdges, label }];
    [vf_array] is the array that [nodes] refers to. *)
Record ViewFrame := mkFrame {
  vf_array : nat;
  vf_edges : list RFEdge;
  vf_label : option string
}.

(** The React state of the component ([nodes], [edges], [expandedIds],
    [rawNodes], [rawEdges], [viewStack], [currentLabel], [isLoading]), its
    two refs ([expandedIdsRef], [activeRequestId]), and the store of the
    node arrays ([s_arrays]); [s_rawArray] is the array that [rawNodes]
    refers to. *)
Record State := mkState {
  s_nodes : list (LNode Box);
  s_edges : list RFEdge;
  s_expandedIds : gset string;
  s_expandedIdsRef : gset string;
  s_rawArray : nat;
  s_rawEdges : list RFEdge;
  s_activeRequestId : option string;
  s_viewStack : list ViewFrame;
  s_currentLabel : option string;
  s_isLoading : bool;
  s_arrays : list (list RFNode)
}.

(** What the node objects of an array hold. *)
Definition array_nodes (st : State) (array : nat) : list RFNode :=
  default [] (s_arrays st !! array).

(** [rawNodes], and the [nodes] of a saved frame, as they are in the
    state [st]. *)
Definition s_rawNodes (st : State) : list RFNode :=
  array_nodes st (s_rawArray st).

Definition vf_nodes (st : State) (frame : ViewFrame) : list RFNode :=
  array_nodes st (vf_array frame).

(** The state of the first render; the empty array of [useState([])] is
    the first array of the store. *)
Definition initial_state : State :=
  mkState [] [] ∅ ∅ 0 [] None [] (Some "System Overview") true [[]].

(** Messages of the extension to the webview. *)
Inductive Message :=
| UpdateGraph (data : GraphData) (requestId : option string)
| CodeResponse.

(** Messages of the webview to the extension. *)
Inductive Posted :=
| DrillDown (filePaths : list string) (label : option string)
    (nodeType : option string) (requestId : string)
| JumpTo (location : option Location).

Definition knownTypes : list string :=
  ["group"; "component"; "system"; "process"; "decision"; "start"; "end"].

(** "FRONTEND DATA NORMALIZATION". *)
Definition safeNode (n : RFNode) : RFNode :=
  let type := JS.toLowerCase (JS.or_else (n_type n) "process") in
  let type' := if JS.includes knownTypes type then type else "process" in
  let d := n_data n in
  mkNode (n_id n) (Some type') (n_parentNode n)
    (mkData (d_label d) (d_detail d) (d_description d) (d_files d)
       (Some type') (d_kind d) (d_location d) (d_isExpanded d)).

(** [triggerLayout]: [getLayoutedElements([...n], [...e], 'TB', exp)], then
    [setNodes(layout.nodes); setEdges(layout.edges)].  [n] is given as the
    index of the array.  The copy [[...n]] is a new array of the same node
    objects, so the layout writes onto the objects of [n], for every holder
    of that array to see. *)
Definition triggerLayout (n : nat) (e : list RFEdge) (exp : gset string)
    (st : State) : State :=
  let layout := getLayoutedElements (array_nodes st n) e exp in
  mkState (fst layout) (snd layout) (s_expandedIds st) (s_expandedIdsRef st)
    (s_rawArray st) (s_rawEdges st) (s_activeRequestId st) (s_viewStack st)
    (s_currentLabel st) (s_isLoading st)
    (<[n := written_nodes layout]> (s_arrays st)).

(** "Auto-Expand Logic". *)
Definition nextExpanded (safeNodes : list RFNode) (ref : gset string)
  : gset string :=
  let rootNodes := filter (fun n => negb (JS.truthy (n_parentNode n))) safeNodes in
  match rootNodes with
  | [root] => if (size ref =? 0)%nat then {[n_id root]} ∪ ref else ref
  | _ => ref
  end.

(** The accepted branch of [handleMessage] for [updateGraph].
    [safeNodes] is a new array of new node objects. *)
Definition applyUpdate (data : GraphData) (st : State) : State :=
  let safeNodes := map safeNode (g_nodes data) in
  let rEdges := g_edges data in
  let next := nextExpanded safeNodes (s_expandedIdsRef st) in
  let array := length (s_arrays st) in
  let st1 :=
    mkState (s_nodes st) (s_edges st) next next array rEdges
      (s_activeRequestId st) (s_viewStack st) (s_currentLabel st) false
      (s_arrays st ++ [safeNodes]) in
  triggerLayout array rEdges next st1.

(** [handleMessage].  The listener is installed by an effect with an empty
    dependency list, which runs once, after the first render; the
    [viewStack] named in its body is the constant bound by that render,
    that is, the [viewStack] of [initial_state].  The refs are read through
    [.current] and are those of the current state. *)
Definition handleMessage (message : Message) (st : State) : State :=
  match message with
  | UpdateGraph data requestId =>
      let viewStack := s_viewStack initial_state in
      if JS.truthy (s_activeRequestId st) then
        if negb (bool_decide (requestId = s_activeRequestId st)) then st
        else applyUpdate data st
      else
        if (0 <? length viewStack)%nat then st
        else applyUpdate data st
  | CodeResponse => st
  end.

(** [goBack]; the function is created anew by every render and reads the
    current [viewStack]. *)
Definition goBack (st : State) : State :=
  match last (s_viewStack st) with
  | None => st
  | Some prev =>
      let st1 :=
        mkState (s_nodes st) (s_edges st) (s_expandedIds st)
          (s_expandedIdsRef st) (vf_array prev) (vf_edges prev) None
          (take (length (s_viewStack st) - 1) (s_viewStack st))
          (vf_label prev) (s_isLoading st) (s_arrays st) in
      triggerLayout (vf_array prev) (vf_edges prev) ∅ st1
  end.

Definition has_files (node : RFNode) : bool :=
  match d_files (n_data node) with
  | Some (_ :: _) => true
  | _ => false
  end.

Definition is_drillable_type (node : RFNode) : bool :=
  bool_decide (n_type node = Some "system")
  || bool_decide (n_type node = Some "process").

Definition toggle (id : string) (s : gset string) : gset string :=
  if bool_decide (id ∈ s) then s ∖ {[id]} else {[id]} ∪ s.

(** [onNodeDoubleClick]; [now] is the reading of [Date.now()].  The
    callback is memoised on [expandedIds], [rawNodes], [rawEdges],
    [currentLabel] and [viewStack], so it reads their current values. *)
Definition onNodeDoubleClick (node : RFNode) (now : N) (st : State)
  : State * list Posted :=
  if is_drillable_type node then
    if negb (has_files node) then
      (st, [JumpTo (d_location (n_data node))])
    else
      let requestId := pretty now in
      let frame :=
        mkFrame (s_rawArray st) (s_rawEdges st) (s_currentLabel st) in
      (mkState (s_nodes st) (s_edges st) (s_expandedIds st)
         (s_expandedIdsRef st) (s_rawArray st) (s_rawEdges st)
         (Some requestId) (s_viewStack st ++ [frame])
         (d_label (n_data node)) true (s_arrays st),
       [DrillDown (default [] (d_files (n_data node))) (d_label (n_data node))
          (n_type node) requestId])
  else if bool_decide (n_type node = Some "group") then
    let newExpanded := toggle (n_id node) (s_expandedIdsRef st) in
    let st1 :=
      mkState (s_nodes st) (s_edges st) newExpanded newExpanded
        (s_rawArray st) (s_rawEdges st) (s_activeRequestId st)
        (s_viewStack st) (s_currentLabel st) (s_isLoading st)
        (s_arrays st) in
    (triggerLayout (s_rawArray st) (s_rawEdges st) newExpanded st1, [])
  else if bool_decide (is_Some (d_location (n_data node))) then
    (st, [JumpTo (d_location (n_data node))])
  else
    match d_files (n_data node) with
    | Some (file :: _) => (st, [JumpTo (Some (mkLocation file 0))])
    | _ => (st, [])
    end.

(** The events of the controller and its run on a list of them. *)
Inductive Event :=
| Receive (message : Message)
| DoubleClick (node : RFNode) (now : N)
| Back.

Definition step (st : State) (ev : Event) : State :=
  match ev with
  | Receive message => handleMessage message st
  | DoubleClick node now => fst (onNodeDoubleClick node now st)
  | Back => goBack st
  end.

Definition run (events : list Event) (st : State) : State :=
  foldl step st events.

End Layout.

Arguments s_nodes {Box} _.
Arguments s_edges {Box} _.
Arguments s_expandedIds {Box} _.
Arguments s_expandedIdsRef {Box} _.
Arguments s_rawArray {Box} _.
Arguments s_rawEdges {Box} _.
Arguments s_activeRequestId {Box} _.
Arguments s_viewStack {Box} _.
Arguments s_currentLabel {Box} _.
Arguments s_isLoading {Box} _.
Arguments s_arrays {Box} _.
Arguments array_nodes {Box} _ _.
Arguments s_rawNodes {Box} _.
Arguments vf_nodes {Box} _ _.

End Webview.

(* ===================================================================== *)
(** * A drill-down session *)
(* ===================================================================== *)

(** Concrete payloads and events, used to run the controller: a system
    overview with one system node, the heuristic flow of that node, the
    component graph of one step of the flow, and a background refresh. *)
Module Session.

Import Webview.

(** The system overview: one system node carrying one file. *)
Definition overview : GraphData :=
  GraphService.convertProcessToReactFlow
    (mkPGraph
       [mkPNode "1" (Some "Backend") (Some "system") (Some ["/w/a.ts"])
          (Some "Server side")]
       []).

(** The reply to a drill-down into the system node, when the process-flow
    collaborator fails. *)
Definition flow_reply : GraphData :=
  GraphService.convertProcessToReactFlow
    (ProcessInferenceService.generateHeuristicFlow (fun p => p) ["/w/a.ts"]
       "Backend").

Definition a_ts : GraphService.FileEntry :=
  GraphService.mkFile (GraphService.mkDocument "file:///w/a.ts" "/w/a.ts")
    [GraphService.mkSymbol "main" "" GraphService.SK_Function 0 0 9 []].

(** The reply to a drill-down into a step of the flow: the flattened
    component graph of its file. *)
Definition component_reply : GraphData :=
  GraphService.generateGraph (fun p => p) [a_ts] None (Some "Execute a.ts")
    false (fun _ _ _ => None) (fun l => l).

(** A background refresh: the flattened graph without a virtual root. *)
Definition background : GraphData :=
  GraphService.generateGraph (fun p => p) [a_ts]
    (Some {["/w/a.ts" := "Core"]}) None false (fun _ _ _ => None)
    (fun l => l).

(** A file of one function and one constant. *)
Definition e_ts : GraphService.FileEntry :=
  GraphService.mkFile (GraphService.mkDocument "file:///w/e.ts" "/w/e.ts")
    [GraphService.mkSymbol "run" "" GraphService.SK_Function 0 0 9 [];
     GraphService.mkSymbol "LIMIT" "" GraphService.SK_Constant 4 4 6 []].

(** A file of three functions, and a collaborator that reports that [f]
    and [g] both call [h]. *)
Definition b_ts : GraphService.FileEntry :=
  GraphService.mkFile (GraphService.mkDocument "file:///w/b.ts" "/w/b.ts")
    [GraphService.mkSymbol "f" "" GraphService.SK_Function 0 0 9 [];
     GraphService.mkSymbol "g" "" GraphService.SK_Function 4 4 9 [];
     GraphService.mkSymbol "h" "" GraphService.SK_Function 8 8 9 []].

Definition b_calls : GraphService.CallOracle :=
  fun uri line char =>
    if (line <? 8)%N
    then Some [GraphService.mkCall "file:///w/b.ts" 8 "h"]
    else Some [].

(** A class [A] whose method [m] holds a nested function [helper], and a
    class [B] with a method [n]; the collaborator reports that [helper]
    calls [n]. *)
Definition helper : GraphService.DocumentSymbol :=
  GraphService.mkSymbol "helper" "" GraphService.SK_Function 2 2 13 [].

Definition c_ts : GraphService.FileEntry :=
  GraphService.mkFile (GraphService.mkDocument "file:///w/c.ts" "/w/c.ts")
    [GraphService.mkSymbol "A" "" GraphService.SK_Class 0 0 6
       [GraphService.mkSymbol "m" "" GraphService.SK_Method 1 1 2 [helper]];
     GraphService.mkSymbol "B" "" GraphService.SK_Class 10 10 6
       [GraphService.mkSymbol "n" "" GraphService.SK_Method 11 11 2 []]].

(** The same, with a top-level function [outer] in place of the class [A]
    and its method. *)
Definition c_ts_function : GraphService.FileEntry :=
  GraphService.mkFile (GraphService.mkDocument "file:///w/c.ts" "/w/c.ts")
    [GraphService.mkSymbol "outer" "" GraphService.SK_Function 0 0 9 [helper];
     GraphService.mkSymbol "B" "" GraphService.SK_Class 10 10 6
       [GraphService.mkSymbol "n" "" GraphService.SK_Method 11 11 2 []]].

Definition c_calls : GraphService.CallOracle :=
  fun uri line char =>
    if (line =? 2)%N
    then Some [GraphService.mkCall "file:///w/c.ts" 11 "n"]
    else Some [].

(** A file of three functions, one of them the C++ operator [operator|],
    which calls the two others. *)
Definition d_cpp : GraphService.FileEntry :=
  GraphService.mkFile (GraphService.mkDocument "file:///w/d.cpp" "/w/d.cpp")
    [GraphService.mkSymbol "operator|" "" GraphService.SK_Function 0 0 6 [];
     GraphService.mkSymbol "f" "" GraphService.SK_Function 4 4 5 [];
     GraphService.mkSymbol "g" "" GraphService.SK_Function 8 8 5 []].

Definition d_calls : GraphService.CallOracle :=
  fun uri line char =>
    if (line =? 0)%N
    then Some [GraphService.mkCall "file:///w/d.cpp" 4 "f";
               GraphService.mkCall "file:///w/d.cpp" 8 "g"]
    else Some [].

(** A refresh of the two cached files [a.ts] and [b.ts] (grouping, no
    virtual root, flattened), and the drill-down into a process node of
    [a.ts] that arrives while the refresh waits for its lookups. *)
Definition refresh_call : GraphService.ServiceEvent :=
  GraphService.Enter [a_ts; b_ts]
    (Some {["/w/a.ts" := "Core"; "/w/b.ts" := "Core"]}) None false.

Definition drill_call : GraphService.ServiceEvent :=
  GraphService.Enter [a_ts] None (Some "Execute a.ts") false.

(** The four lookups of the refresh ([main], [f], [g], [h]) complete, in
    the order of their start. *)
Definition refresh_lookups : list GraphService.ServiceEvent :=
  [GraphService.Complete 0 0; GraphService.Complete 0 0;
   GraphService.Complete 0 0; GraphService.Complete 0 0].

(** A refresh in which the semantic grouping has no module for the file
    ([_refreshGraph] passes the grouping, no virtual root label and
    [includeFiles = false]). *)
Definition ungrouped : GraphData :=
  GraphService.generateGraph (fun p => p) [a_ts] (Some ∅) None false
    (fun _ _ _ => None) (fun l => l).

(** The nodes the user double-clicks, as the webview holds them. *)
Definition system_node : RFNode :=
  safeNode (mkNode "1" (Some "system") None
    (mkData (Some "Backend") None (Some "Server side") (Some ["/w/a.ts"])
       (Some "system") None None None)).

Definition step_node : RFNode :=
  safeNode (mkNode "step_0" (Some "process") None
    (mkData (Some "Execute a.ts") None (Some "Process Logic Step")
       (Some ["/w/a.ts"]) (Some "process") None None None)).




(** A graph of two roots: the three-level chain and a system of its
    own. *)
Definition two_roots : GraphData :=
  mkGraph (chain ++ [system_node]) [].

(** Overview, drill into the system node, reply, back. *)
Definition drill_and_back : list Event :=
  [Receive (UpdateGraph overview None);
   DoubleClick system_node 1000;
   Receive (UpdateGraph flow_reply (Some "1000"));
   Back].

(** Overview, drill into the system node, drill into a step, back once. *)
Definition two_levels_and_back : list Event :=
  [Receive (UpdateGraph overview None);
   DoubleClick system_node 1000;
   Receive (UpdateGraph flow_reply (Some "1000"));
   DoubleClick step_node 2000;
   Receive (UpdateGraph component_reply (Some "2000"));
   Back].

(** The controller run with a layout oracle that returns no geometry. *)
Definition run0 (events : list Event) : State unit :=
  run unit (fun _ _ => tt) String.leb events (initial_state unit).

End Session.

(* ===================================================================== *)
(** * Around the assembler: symbol filter, grouping, file filter, refresh *)
(* ===================================================================== *)

(** More of the JavaScript string library. *)
Module JSString.

(** [s.includes(t)]: [t] starts at some position of [s]. *)
Fixpoint includes (s t : string) : bool :=
  String.prefix t s
  || match s with
     | EmptyString => false
     | String _ r => includes r t
     end.

(** [s.endsWith(t)]: some suffix of [s] is [t]. *)
Fixpoint endsWith (s t : string) : bool :=
  String.eqb s t
  || match s with
     | EmptyString => false
     | String _ r => endsWith r t
     end.

(** [s.split(re)] for a regular expression [re] that matches one character
    of a class: the pieces between the separators; never the empty list. *)
Fixpoint split_on (sep : ascii -> bool) (s : string) : list string :=
  match s with
  | EmptyString => [""]
  | String c r =>
      if sep c then "" :: split_on sep r
      else match split_on sep r with
           | p :: ps => String c p :: ps
           | [] => [String c ""]
           end
  end.

(** [s.includes(c)] for a character [c]. *)
Fixpoint has_char (c : ascii) (s : string) : bool :=
  match s with
  | EmptyString => false
  | String a r => Ascii.eqb a c || has_char c r
  end.

End JSString.

(* --------------------------------------------------------------------- *)
(** ** The node list of the assembler, read off the file batch *)
(* --------------------------------------------------------------------- *)

Module GraphShape.

Import GraphService.

(** The semantic module of a file, if the grouping has one for it. *)
Definition module_of (semanticMap : option (gmap string string))
    (fsPath : string) : option string :=
  match semanticMap with
  | Some sm => sm !! fsPath
  | None => None
  end.

(** The [parentId] that the first loop determines for a file: the
    container of its module, else the virtual root if there is one. *)
Definition parent_of (semanticMap : option (gmap string string))
    (virtualRootLabel : option string) (fsPath : string) : option string :=
  match module_of semanticMap fsPath with
  | Some moduleName => Some (module_group_id moduleName)
  | None => if JS.truthy virtualRootLabel then Some ROOT_ID else None
  end.

(** The node that one top-level symbol contributes, if any: a class or an
    interface in both views, a function, method, constant or variable in
    the flattened view only. *)
Definition component_of (uri : string) (includeFiles : bool)
    (fileId systemParentId : string) (item : DocumentSymbol)
  : option RFNode :=
  if is_class_like (sym_kind item) then
    Some (class_node (symbol_id uri item)
            (if includeFiles then fileId else systemParentId) item)
  else if is_member_like (sym_kind item) && negb includeFiles then
    Some (function_node (symbol_id uri item) systemParentId item)
  else None.

(** A file declares a class or an interface at top level. *)
Definition has_class (symbols : list DocumentSymbol) : bool :=
  existsb (fun item => is_class_like (sym_kind item)) symbols.

Section Shape.

Variable basename : string -> string.

(** The node of a file in the full view: a group when the file declares a
    class or an interface, else a leaf. *)
Definition shown_file_node (semanticMap : option (gmap string string))
    (virtualRootLabel : option string) (file : FileEntry) : RFNode :=
  let fileNode :=
    file_node basename ("file-" +:+ doc_uri (f_document file))
      (parent_of semanticMap virtualRootLabel (doc_fsPath (f_document file)))
      (doc_fsPath (f_document file)) in
  if has_class (f_symbols file) then fileNode else to_leaf fileNode.

(** The nodes that one file adds when the modules in [seen] already have
    their container: the container of its module if it is new, its file
    node in the full view, and the nodes of its top-level symbols. *)
Definition file_block (semanticMap : option (gmap string string))
    (virtualRootLabel : option string) (includeFiles : bool)
    (seen : gset string) (file : FileEntry) : list RFNode :=
  let fsPath := doc_fsPath (f_document file) in
  let uri := doc_uri (f_document file) in
  (match module_of semanticMap fsPath with
   | Some moduleName =>
       if bool_decide (moduleName ∈ seen) then [] else [module_node moduleName]
   | None => []
   end)
  ++ (if includeFiles
      then [shown_file_node semanticMap virtualRootLabel file] else [])
  ++ omap (component_of uri includeFiles ("file-" +:+ uri)
             (JS.or_else (parent_of semanticMap virtualRootLabel fsPath)
                ROOT_ID))
       (f_symbols file).

(** The modules that have their container once [file] is processed. *)
Definition seen_after (semanticMap : option (gmap string string))
    (seen : gset string) (file : FileEntry) : gset string :=
  match module_of semanticMap (doc_fsPath (f_document file)) with
  | Some moduleName => {[moduleName]} ∪ seen
  | None => seen
  end.

Fixpoint file_blocks (semanticMap : option (gmap string string))
    (virtualRootLabel : option string) (includeFiles : bool)
    (seen : gset string) (files : list FileEntry) : list RFNode :=
  match files with
  | [] => []
  | file :: rest =>
      file_block semanticMap virtualRootLabel includeFiles seen file
      ++ file_blocks semanticMap virtualRootLabel includeFiles
           (seen_after semanticMap seen file) rest
  end.

End Shape.

(** The module containers of a builder carry the id of their name and are
    the names in [seen]. *)
Definition groups_ok (seen : gset string) (b : Builder) : Prop :=
  forall moduleName,
    (moduleName ∈ seen ->
     b_moduleGroups b !! moduleName = Some (module_group_id moduleName))
    /\ (moduleName ∉ seen -> b_moduleGroups b !! moduleName = None).

(** Every lookup that the second pass has started is made in the name of
    an owner that the owner map [M] holds. *)
Definition promises_owned (M : gmap string string) (b : Builder) : Prop :=
  b_symbolOwnerMap b = M
  /\ Forall (fun p => exists k, M !! k = Some (p_sourceOwnerId p))
       (b_callsPromises b).

(** [b'] differs from [b] in the reverse index and in the owner map at
    most. *)
Definition same_frame (b b' : Builder) : Prop :=
  b_nodes b' = b_nodes b
  /\ b_moduleGroups b' = b_moduleGroups b
  /\ b_hasChildren b' = b_hasChildren b.

(** The nodes of an optional node. *)
Definition opt_nodes (n : option RFNode) : list RFNode :=
  match n with
  | Some n => [n]
  | None => []
  end.

(** A node of a grouped graph: a module container, or a node whose parent
    is the container of a module that is in [nodes]. *)
Definition in_a_module (nodes : list RFNode) (n : RFNode) : Prop :=
  match n_parentNode n with
  | None => exists moduleName, n = module_node moduleName
  | Some p =>
      exists moduleName,
        p = module_group_id moduleName /\ module_node moduleName ∈ nodes
  end.

(** What the parent of a node refers to in a node list. *)
Definition parent_resolves (nodes : list RFNode) (n : RFNode) : Prop :=
  forall p, n_parentNode n = Some p -> p ∈ map n_id nodes.

End GraphShape.

(* --------------------------------------------------------------------- *)
(** ** ProcessInferenceService: the code context of a subsystem request *)
(* --------------------------------------------------------------------- *)

Module ProcessContext.

(** [s.length], as a binary number. *)
Definition strlen (s : string) : N := N.of_nat (String.length s).

(** [s.substring(0, n)]. *)
Definition substring0 (n : N) (s : string) : string :=
  String.substring 0 (N.to_nat n) s.

Definition MAX_CHARS : N := 100000.

(** The line feed of the template literals. *)
Definition newline : string := String (ascii_of_nat 10) "".

(** The locals of [_readFiles]: [output], [currentChars], and whether the
    loop has been left by a [break]. *)
Record ReadAcc := mkRead {
  r_output : string;
  r_currentChars : N;
  r_broken : bool
}.

Section ReadFiles.

(** [vscode.workspace.asRelativePath]. *)
Variable asRelativePath : string -> string.
(** The decoded content of a file; [None] when the read throws. *)
Variable readFile : string -> option string.

(** "Truncate individual huge files". *)
Definition truncate (content : string) : string :=
  if (8000 <? strlen content)%N
  then substring0 8000 content +:+ "...[TRUNCATED]"
  else content.

(** The opening of the two template literals: a line feed,
    [--- FILE: ], the relative path, [ ---] and a line feed. *)
Definition header (p : string) : string :=
  newline +:+ "--- FILE: " +:+ asRelativePath p +:+ " ---" +:+ newline.

(** One iteration of the loop of [_readFiles]. *)
Definition read_step (acc : ReadAcc) (p : string) : ReadAcc :=
  if r_broken acc then acc
  else if (MAX_CHARS <=? r_currentChars acc)%N
  then mkRead (r_output acc) (r_currentChars acc) true
  else
    match readFile p with
    | None => acc
    | Some content =>
        let truncated := truncate content in
        if (MAX_CHARS <? r_currentChars acc + strlen truncated)%N
        then
          let remaining := (MAX_CHARS - r_currentChars acc)%N in
          mkRead (r_output acc +:+ header p
                  +:+ substring0 remaining truncated +:+ newline
                  +:+ "...[MAX CONTEXT REACHED]")
            (r_currentChars acc) true
        else
          mkRead (r_output acc +:+ header p +:+ truncated +:+ newline)
            (r_currentChars acc + strlen truncated)%N false
    end.

Definition read_loop (paths : list string) : ReadAcc :=
  foldl read_step (mkRead "" 0 false) (JS.slice0 50 paths).

(** [_readFiles]. *)
Definition _readFiles (paths : list string) : string :=
  r_output (read_loop paths).

(** The characters that the framing of one file adds to its content, and
    the framing of a list of files. *)
Definition overhead (p : string) : N :=
  (17 + strlen (asRelativePath p))%N.

Definition framing (paths : list string) : N :=
  foldr (fun p total => (overhead p + total)%N) 0%N paths.

(** What the loop maintains, [framed] being the framing of the paths gone
    through. *)
Definition read_inv (framed : N) (acc : ReadAcc) : Prop :=
  (r_currentChars acc <= MAX_CHARS)%N
  /\ (strlen (r_output acc)
      <= (if r_broken acc then MAX_CHARS + 24 else r_currentChars acc)
         + framed)%N.

End ReadFiles.

End ProcessContext.

(* --------------------------------------------------------------------- *)
(** ** SymbolParser: the symbols kept for the blocks and the graph *)
(* --------------------------------------------------------------------- *)

Module SymbolParser.

Import GraphService.

(** The [allowed] set of [filterSymbols]. *)
Definition allowed (k : SymbolKind) : bool :=
  match k with
  | SK_Class | SK_Method | SK_Function | SK_Constructor | SK_Struct
  | SK_Interface | SK_Module | SK_Package | SK_Object | SK_Property => true
  | _ => false
  end.

(** "Remove obvious imports/exports": the test on [symbol.name.toLowerCase()]. *)
Definition is_import_name (symbolName : string) : bool :=
  let name := JS.toLowerCase symbolName in
  String.eqb name "import" || String.eqb name "export"
  || String.eqb name "require" || String.eqb name "module.exports".

(** One iteration of the loop of [filterSymbols]: [None] when the symbol
    is skipped, else the symbol with its children filtered in turn. *)
Fixpoint filterSymbol (symbol : DocumentSymbol) {struct symbol}
  : option DocumentSymbol :=
  if allowed (sym_kind symbol) then
    if is_import_name (sym_name symbol) then None
    else Some (mkSymbol (sym_name symbol) (sym_detail symbol)
                 (sym_kind symbol) (sym_line symbol) (sym_selLine symbol)
                 (sym_selChar symbol)
                 (omap filterSymbol (sym_children symbol)))
  else None.

Definition filterSymbols (symbols : list DocumentSymbol)
  : list DocumentSymbol :=
  omap filterSymbol symbols.

(** How [vscode.executeDocumentSymbolProvider] ends. *)
Inductive ProviderReply :=
| ProviderThrows
| ProviderNothing                                  (* [undefined] *)
| ProviderSymbols (symbols : list DocumentSymbol).

(** [getFileSymbols]; [regex] is what [RegexStrategy.getSymbols] finds in
    the document. *)
Definition getFileSymbols (reply : ProviderReply)
    (regex : list DocumentSymbol) : list DocumentSymbol :=
  match reply with
  | ProviderThrows => []
  | ProviderNothing => filterSymbols regex
  | ProviderSymbols symbols =>
      if (length symbols =? 0)%nat then filterSymbols regex
      else filterSymbols symbols
  end.

(** A symbol that the filter keeps, with all the symbols below it. *)
Fixpoint kept (symbol : DocumentSymbol) {struct symbol} : bool :=
  allowed (sym_kind symbol) && negb (is_import_name (sym_name symbol))
  && forallb kept (sym_children symbol).

End SymbolParser.

(* --------------------------------------------------------------------- *)
(** ** ArchitectureInferenceService: the grouping of files into modules *)
(* --------------------------------------------------------------------- *)

Module ArchitectureInferenceService.

(** The class [[/\\]]. *)
Definition is_path_sep (c : ascii) : bool :=
  Ascii.eqb c "/" || Ascii.eqb c (ascii_of_nat 92).

(** The body of the loop of [_fallbackHeuristic]: the layer of one path. *)
Definition layer_of (filePath : string) : string :=
  let lower := JS.toLowerCase filePath in
  let fileName :=
    JS.or_else (JS.pop (JSString.split_on is_path_sep filePath)) "" in
  if JSString.includes lower "/ui/" || JSString.includes lower "/components/"
     || JSString.includes lower "/views/" || JSString.includes lower "/pages/"
     || JSString.endsWith fileName ".tsx" || JSString.endsWith fileName ".vue"
     || JSString.endsWith fileName ".svelte"
     || JSString.includes lower "frontend"
  then "Presentation Layer"
  else if JSString.includes lower "/services/"
          || JSString.includes lower "/controllers/"
          || JSString.includes lower "/managers/"
          || JSString.includes lower "/hooks/"
          || JSString.includes lower "/logic/"
          || JSString.includes lower "/domain/"
          || JSString.includes fileName "service"
          || JSString.includes fileName "controller"
          || JSString.includes fileName "manager"
  then "Business Logic"
  else if JSString.includes lower "/api/" || JSString.includes lower "/db/"
          || JSString.includes lower "/models/"
          || JSString.includes lower "/store/"
          || JSString.includes lower "/graphql/"
          || JSString.includes lower "/queries/"
          || JSString.includes lower "/repositories/"
          || JSString.includes fileName "repository"
          || JSString.includes fileName "store"
          || JSString.includes fileName "schema"
  then "Data Layer"
  else if JSString.includes lower "/config/"
          || JSString.includes lower "/utils/"
          || JSString.includes lower "/lib/"
          || JSString.includes lower "/helpers/"
          || JSString.includes lower "/types/"
          || JSString.includes lower "/interfaces/"
          || JSString.includes lower "config"
  then "Infrastructure"
  else if JSString.includes lower "/tests/"
          || JSString.includes lower "/__tests__/"
          || JSString.includes fileName ".test."
          || JSString.includes fileName ".spec."
  then "Tests"
  else "Core / Utilities".

(** The module names that [_fallbackHeuristic] gives out. *)
Definition layers : list string :=
  ["Presentation Layer"; "Business Logic"; "Data Layer"; "Infrastructure";
   "Tests"; "Core / Utilities"].

(** [_fallbackHeuristic]. *)
Definition _fallbackHeuristic (filePaths : list string) : gmap string string :=
  foldl (fun map filePath => <[filePath := layer_of filePath]> map) ∅
    filePaths.

(** [_getMapForFiles]. *)
Definition _getMapForFiles (cache : gmap string string) (files : list string)
  : gmap string string :=
  foldl (fun result f =>
           match cache !! f with
           | Some moduleName => <[f := moduleName]> result
           | None => result
           end) ∅ files.

(** How [_callLLM] ends: the request throws, or a text comes back, on
    which [JSON.parse] either throws or gives an object, read as a map
    from relative paths to module names. *)
Inductive LLMReply :=
| LLMThrows
| LLMText (parsed : option (gmap string string)).

Section Inference.

(** [vscode.workspace.asRelativePath]. *)
Variable asRelativePath : string -> string.

(** [_parseJsonMap]. *)
Definition _parseJsonMap (parsed : option (gmap string string))
    (originalPaths : list string) : gmap string string :=
  match parsed with
  | None => ∅
  | Some relMap =>
      foldl (fun map absPath =>
               match relMap !! asRelativePath absPath with
               | Some moduleName => <[absPath := moduleName]> map
               | None => map
               end) ∅ originalPaths
  end.

(** [inferModules]: the map it returns and the [_cache] it leaves.
    [callLLM] is the collaborator, asked with the paths. *)
Definition inferModules (apiKey : option string)
    (cache : gmap string string) (callLLM : list string -> LLMReply)
    (filePaths : list string) : gmap string string * gmap string string :=
  if negb (JS.truthy apiKey) || (length filePaths =? 0)%nat
  then (_fallbackHeuristic filePaths, cache)
  else
    let missingFiles := filter (fun f => cache !! f = None) filePaths in
    if (length missingFiles =? 0)%nat
    then (_getMapForFiles cache filePaths, cache)
    else
      match callLLM filePaths with
      | LLMText parsed =>
          let mapping := _parseJsonMap parsed filePaths in
          (mapping, mapping ∪ cache)
      | LLMThrows => (_fallbackHeuristic filePaths, cache)
      end.

End Inference.

End ArchitectureInferenceService.

(* --------------------------------------------------------------------- *)
(** ** GraphFilterService: the file filter of the workspace scan *)
(* --------------------------------------------------------------------- *)

Module GraphFilterService.

Definition chunkSize : nat := 100.

(** The loop [for (let i = 0; i < filePaths.length; i += chunkSize)
    chunks.push(filePaths.slice(i, i + chunkSize))], from index [i], for at
    most [fuel] iterations. *)
Fixpoint chunks_from {A} (fuel i : nat) (filePaths : list A)
  : list (list A) :=
  match fuel with
  | 0 => []
  | S fuel' =>
      if (i <? length filePaths)%nat
      then take chunkSize (drop i filePaths)
           :: chunks_from fuel' (i + chunkSize) filePaths
      else []
  end.

(** The loop leaves after at most one iteration per path. *)
Definition chunks {A} (filePaths : list A) : list (list A) :=
  chunks_from (length filePaths) 0 filePaths.

(** [filterFiles].  [callLLM] is [_callLLM]: the kept paths of a chunk, or
    [None] when the call throws. *)
Definition filterFiles (apiKey : option string)
    (callLLM : list string -> option (list string))
    (filePaths : list string) : list string :=
  if negb (JS.truthy apiKey) || (length filePaths =? 0)%nat then filePaths
  else
    foldl (fun allowedPaths chunk =>
             allowedPaths
             ++ match callLLM chunk with
                | Some filtered => filtered
                | None => chunk
                end) [] (chunks filePaths).

End GraphFilterService.

(* --------------------------------------------------------------------- *)
(** ** BlockManager: the file cache, the workspace scan and the refresh *)
(* --------------------------------------------------------------------- *)

Module Workspace.

Import GraphService.

(** [_fileCache]: a [Map] from [uri.toString()] to [{ document, symbols }],
    read in insertion order by [Array.from(this._fileCache.values())]. *)
Definition FileCache := list (string * FileEntry).

(** [_fileCache.set(key, value)]: an entry that exists keeps its place. *)
Fixpoint cache_set (key : string) (value : FileEntry) (cache : FileCache)
  : FileCache :=
  match cache with
  | [] => [(key, value)]
  | (k, v) :: r =>
      if String.eqb k key then (k, value) :: r
      else (k, v) :: cache_set key value r
  end.

(** [_fileCache.delete(key)]. *)
Definition cache_delete (key : string) (cache : FileCache) : FileCache :=
  filter (fun kv => fst kv <> key) cache.

(** The three writers of the cache.  Each carries the document and what
    the symbol provider and the regular-expression parser answer for it;
    the scan carries the uri it found ([file.toString()]) and the document
    that [openTextDocument] gives for it, if it does not throw. *)
Inductive CacheEvent :=
| ProcessEditor (document : TextDocument) (fileScheme : bool)
    (reply : SymbolParser.ProviderReply) (regex : list DocumentSymbol)
| UpdateGraphOnly (document : TextDocument)
    (reply : SymbolParser.ProviderReply) (regex : list DocumentSymbol)
| ScanFile (file : string) (opened : option TextDocument)
    (reply : SymbolParser.ProviderReply) (regex : list DocumentSymbol).

(** What [_processEditor], [_updateGraphOnly] and one iteration of the
    loop of [_scanWorkspace] do to the cache. *)
Definition cache_step (cache : FileCache) (ev : CacheEvent) : FileCache :=
  match ev with
  | ProcessEditor document fileScheme reply regex =>
      if negb fileScheme then cache
      else
        let symbols := SymbolParser.getFileSymbols reply regex in
        if (length symbols =? 0)%nat
        then cache_delete (doc_uri document) cache
        else cache_set (doc_uri document) (mkFile document symbols) cache
  | UpdateGraphOnly document reply regex =>
      let symbols := SymbolParser.getFileSymbols reply regex in
      if (length symbols =? 0)%nat then cache
      else cache_set (doc_uri document) (mkFile document symbols) cache
  | ScanFile file opened reply regex =>
      match opened with
      | None => cache
      | Some document =>
          let symbols := SymbolParser.getFileSymbols reply regex in
          if (0 <? length symbols)%nat
          then cache_set file (mkFile document symbols) cache
          else cache
      end
  end.

Definition cache_run (events : list CacheEvent) : FileCache :=
  foldl cache_step [] events.

(** The invariant of the cache: no key occurs twice, and every entry
    holds at least one symbol, all of them kept by the symbol filter. *)
Definition cache_ok (cache : FileCache) : Prop :=
  NoDup (map fst cache)
  /\ Forall (fun kv =>
               f_symbols (snd kv) <> []
               /\ forallb SymbolParser.kept (f_symbols (snd kv)) = true)
       cache.

Section Scan.

(** The uris found by [findFiles], by their [fsPath]. *)
Variable Uri : Type.
Variable fsPath : Uri -> string.

(** The files that [_scanWorkspace] goes on to parse:
    [allFiles.filter(f => filteredSet.has(f.fsPath))]. *)
Definition scan_files (apiKey : option string)
    (callLLM : list string -> option (list string)) (allFiles : list Uri)
  : list Uri :=
  let paths := map fsPath allFiles in
  let filteredPaths := GraphFilterService.filterFiles apiKey callLLM paths in
  filter (fun f => fsPath f ∈ filteredPaths) allFiles.

End Scan.

Section Refresh.

Variable basename : string -> string.
(** [ProcessInferenceService.generateSystemFlow]: its result ([None] when
    it returns [null] or throws) and the [paths] array after the call,
    which the service may have sorted in place. *)
Variable generateSystemFlow :
  list string -> option ProcessGraphData * list string.
(** [ArchitectureInferenceService.inferModules]. *)
Variable inferModules : list string -> gmap string string.
Variable oracle : CallOracle.
Variable schedule : list Probe -> list Probe.

(** [_refreshGraph]: the arguments of [updateGraph] if it is called. *)
Definition _refreshGraph (panelOpen : bool) (fileCache : FileCache)
  : option (GraphData * option string) :=
  if negb panelOpen then None
  else
    let allFiles := map snd fileCache in
    let paths := map (fun f => doc_fsPath (f_document f)) allFiles in
    let '(processData, paths) := generateSystemFlow paths in
    let usable :=
      match processData with
      | Some pd => if (0 <? length (pg_nodes pd))%nat then Some pd else None
      | None => None
      end in
    match usable with
    | Some pd => Some (convertProcessToReactFlow pd, None)
    | None =>
        let archMap := inferModules paths in
        Some (generateGraph basename allFiles (Some archMap) None false
                oracle schedule, None)
    end.

End Refresh.

End Workspace.

(* --------------------------------------------------------------------- *)
(** ** What the webview controller maintains *)
(* --------------------------------------------------------------------- *)

Module ControllerShape.

Import Webview.

(** A node as the normalisation of the webview leaves it: its type is one
    of the known types and [data.type] repeats it. *)
Definition normalised (n : RFNode) : Prop :=
  exists t, t ∈ knownTypes /\ n_type n = Some t /\ d_type (n_data n) = Some t.

Section Invariants.

Variable Box : Type.
Variable dagre_layout : DagreGraph -> string -> Box.
Variable locale_le : string -> string -> bool.

(** The graph on display is the layout of the raw graph, computed with
    the expansion set of the controller or with the empty one; the
    expansion state and its ref agree; the request id is never the empty
    string. *)
Definition view_ok (st : State Box) : Prop :=
  s_expandedIds st = s_expandedIdsRef st
  /\ s_activeRequestId st <> Some ""
  /\ exists E,
       (E = s_expandedIdsRef st \/ E = ∅)
       /\ (s_nodes st, s_edges st)
          = getLayoutedElements Box dagre_layout locale_le (s_rawNodes st)
              (s_rawEdges st) E.

(** Every node array of the store holds normalised nodes only. *)
Definition types_ok (st : State Box) : Prop :=
  Forall (Forall normalised) (s_arrays st).

(** The arrays that [rawNodes] and the saved frames refer to are in the
    store. *)
Definition store_ok (st : State Box) : Prop :=
  s_rawArray st < length (s_arrays st)
  /\ Forall (fun frame => vf_array frame < length (s_arrays st))
       (s_viewStack st).

End Invariants.

End ControllerShape.

(* --------------------------------------------------------------------- *)
(** ** The messages between the webview and the extension *)
(* --------------------------------------------------------------------- *)

Module Protocol.

Import Webview BlockManager.

(** The [drillDown] message as the handler of the block manager receives
    it; the other messages of the webview do not reach that handler's
    body. *)
Definition drill_message (p : Posted) : option DrillDownMessage :=
  match p with
  | DrillDown filePaths label nodeType requestId =>
      Some (mkDrill (Some filePaths) label (Some requestId) nodeType)
  | JumpTo _ => None
  end.

(** [CallGraphPanel.updateGraph(data, requestId)] posts
    [{ command: 'updateGraph', data, requestId }]. *)
Definition updateGraph (data : GraphData) (requestId : option string)
  : Message :=
  UpdateGraph data requestId.

(** The messages that the drill-down handler sends back. *)
Definition replies (r : DrillResult) : list Message :=
  match dr_update r with
  | Some (data, requestId) => [updateGraph data requestId]
  | None => []
  end.

Section RoundTrip.

Variable Box : Type.
Variable dagre_layout : DagreGraph -> string -> Box.
Variable locale_le : string -> string -> bool.
Variable basename : string -> string.
Variable asRelativePath : string -> string.
Variable generateSubsystemFlow :
  list string -> option ProcessGraphData * list string.
Variable loadSymbolsForFiles : list string -> list GraphService.FileEntry.
Variable oracle : GraphService.CallOracle.
Variable schedule : list GraphService.Probe -> list GraphService.Probe.

(** The extension's answer to what the webview posted. *)
Definition answer (posted : list Posted) : list Message :=
  flat_map (fun p =>
              match drill_message p with
              | Some m =>
                  replies (onDrillDown basename asRelativePath
                             generateSubsystemFlow loadSymbolsForFiles oracle
                             schedule m)
              | None => []
              end) posted.

(** A double click followed by the delivery of the extension's answer. *)
Definition drill_round (node : RFNode) (now : N) (st : State Box)
  : State Box :=
  let '(st1, posted) :=
    onNodeDoubleClick Box dagre_layout locale_le node now st in
  foldl (fun st m => handleMessage Box dagre_layout locale_le m st) st1
    (answer posted).

End RoundTrip.

End Protocol.

(* ===================================================================== *)
(** * Properties of the heuristic flow and of the drill-down handler *)
(* ===================================================================== *)

Section HeuristicFlowFacts.

Import ProcessInferenceService.

Variable asRelativePath : string -> string.

Lemma linear_chain_snoc ids edges prev id label :
  linear_chain ids edges ->
  last ids = Some prev ->
  linear_chain (ids ++ [id]) (edges ++ [mkPEdge prev id label]).
Proof.
  intros [Hs Ht] Hlast.
  destruct (decide (ids = [])) as [->|Hne]; [done|].
  assert (Hlen : length ids <> 0) by (destruct ids; simpl; [done|lia]).
  split.
  - rewrite map_app, Hs, length_app. simpl.
    replace (length ids + 1 - 1) with (length ids) by lia.
    rewrite take_app_length.
    rewrite <- (take_drop (length ids - 1) ids) at 3.
    f_equal.
    rewrite last_lookup in Hlast.
    replace (Init.Nat.pred (length ids)) with (length ids - 1) in Hlast by lia.
    apply list_eq. intros [|j]; simpl.
    + rewrite lookup_drop. replace (length ids - 1 + 0) with (length ids - 1) by lia.
      by rewrite Hlast.
    + rewrite lookup_drop. symmetry. apply lookup_ge_None. lia.
  - rewrite map_app, Ht. simpl.
    destruct ids; [done|]. simpl. by rewrite !drop_0.
Qed.

Lemma flow_step_inv acc entry :
  chain_inv acc -> chain_inv (flow_step asRelativePath acc entry).
Proof.
  intros [Hc Hl]. destruct entry as [index fp]. unfold chain_inv. simpl.
  rewrite map_app. simpl. split.
  - by apply linear_chain_snoc.
  - by rewrite last_snoc.
Qed.

Lemma foldl_flow_step_inv l acc :
  chain_inv acc -> chain_inv (foldl (flow_step asRelativePath) acc l).
Proof.
  revert acc. induction l as [|e l IH]; intros acc H; simpl; [done|].
  apply IH. by apply flow_step_inv.
Qed.

(** The nodes the loop appends; [f] renumbers the indices. *)
Lemma foldl_flow_step_nodes l (f : nat -> nat) acc :
  acc_nodes (foldl (flow_step asRelativePath) acc
               (imap (fun i fp => (f i, fp)) l))
  = acc_nodes acc ++ imap (fun i fp => step_node asRelativePath (f i) fp) l.
Proof.
  revert f acc. induction l as [|fp l IH]; intros f acc; simpl.
  - by rewrite app_nil_r.
  - change (foldl (flow_step asRelativePath)
              (flow_step asRelativePath acc (f 0, fp))
              (imap (fun i fp0 => ((f ∘ S) i, fp0)) l))
      with (foldl (flow_step asRelativePath)
              (flow_step asRelativePath acc (f 0, fp))
              (imap (fun i fp0 => ((f ∘ S) i, fp0)) l)).
    rewrite (IH (f ∘ S)). simpl. by rewrite <- app_assoc.
Qed.

#[local] Instance step_id_inj : Inj (=) (=) step_id.
Proof.
  unfold step_id. intros i j H. apply (inj (String.app "step_")) in H.
  by apply (inj pretty) in H.
Qed.

Lemma step_id_not_start i : step_id i <> "start".
Proof. unfold step_id. intros H. discriminate H. Qed.

Lemma step_id_not_end i : step_id i <> "end".
Proof. unfold step_id. intros H. discriminate H. Qed.

Lemma imap_step_types l (g : nat -> nat) :
  map pn_type (imap (fun i fp => step_node asRelativePath (g i) fp) l)
  = replicate (length l) (Some "process").
Proof.
  revert g. induction l as [|fp l IH]; intros g; simpl; [done|].
  f_equal. apply (IH (g ∘ S)).
Qed.

Lemma imap_step_ids l (g : nat -> nat) :
  map pn_id (imap (fun i fp => step_node asRelativePath (g i) fp) l)
  = map (fun i => step_id (g i)) (seq 0 (length l)).
Proof.
  revert g. induction l as [|fp l IH]; intros g; simpl; [done|].
  f_equal. rewrite <- seq_shift, map_map. apply (IH (g ∘ S)).
Qed.

Lemma NoDup_flow_ids k :
  NoDup ("start" :: map step_id (seq 0 k) ++ ["end"]).
Proof.
  apply NoDup_cons. split.
  - rewrite elem_of_app, list_elem_of_singleton.
    intros [H|H]; [|discriminate H].
    apply (list_elem_of_fmap_1 step_id) in H as (i & Hi & _).
    symmetry in Hi. by apply step_id_not_start in Hi.
  - apply NoDup_app. split_and!.
    + apply (NoDup_fmap_2 step_id), NoDup_seq.
    + intros x Hx. rewrite list_elem_of_singleton. intros ->.
      apply (list_elem_of_fmap_1 step_id) in Hx as (i & Hi & _).
      symmetry in Hi. by apply step_id_not_end in Hi.
    + apply NoDup_singleton.
Qed.

Lemma generateHeuristicFlow_nodes (filePaths : list string) (label : string) :
  pg_nodes (generateHeuristicFlow asRelativePath filePaths label)
  = start_node label
    :: imap (step_node asRelativePath) (take 5 filePaths) ++ [end_node].
Proof.
  unfold generateHeuristicFlow, JS.indexed, JS.slice0. simpl.
  change (imap pair (take 5 filePaths))
    with (imap (fun i fp => (id i, fp)) (take 5 filePaths)).
  by rewrite foldl_flow_step_nodes.
Qed.

Lemma generateHeuristicFlow_length (filePaths : list string) (label : string) :
  length (pg_nodes (generateHeuristicFlow asRelativePath filePaths label))
  = Nat.min 5 (length filePaths) + 2.
Proof.
  rewrite generateHeuristicFlow_nodes.
  change (S (length (imap (step_node asRelativePath) (take 5 filePaths)
                     ++ [end_node]))
          = Nat.min 5 (length filePaths) + 2).
  rewrite length_app, length_imap, length_take.
  change (length [end_node]) with 1. lia.
Qed.

(** C6: the heuristic flow has [min 5 fileCount + 2] nodes: the start node,
    one process node per file among the first five, carrying that file, and
    the end node; the node ids are pairwise distinct and the edges link
    them in that order, from the start node to the end node. *)
Theorem heuristic_flow_is_linear_chain (filePaths : list string)
    (label : string) :
  let flow := generateHeuristicFlow asRelativePath filePaths label in
  length (pg_nodes flow) = Nat.min 5 (length filePaths) + 2
  /\ pg_nodes flow
     = start_node label
       :: imap (step_node asRelativePath) (take 5 filePaths) ++ [end_node]
  /\ map pn_type (pg_nodes flow)
     = Some "start"
       :: replicate (Nat.min 5 (length filePaths)) (Some "process")
       ++ [Some "end"]
  /\ NoDup (map pn_id (pg_nodes flow))
  /\ length (pg_edges flow) = Nat.min 5 (length filePaths) + 1
  /\ linear_chain (map pn_id (pg_nodes flow)) (pg_edges flow).
Proof.
  intros flow.
  assert (Hnodes : pg_nodes flow
     = start_node label
       :: imap (step_node asRelativePath) (take 5 filePaths) ++ [end_node]).
  { apply generateHeuristicFlow_nodes. }
  assert (Hchain : linear_chain (map pn_id (pg_nodes flow)) (pg_edges flow)).
  { unfold flow, generateHeuristicFlow. simpl.
    set (acc := foldl _ _ _).
    assert (Hinv : chain_inv acc).
    { apply foldl_flow_step_inv. split; [by split|done]. }
    destruct Hinv as [Hc Hl]. rewrite map_app. simpl.
    by apply linear_chain_snoc. }
  assert (Htake : length (take 5 filePaths) = Nat.min 5 (length filePaths))
    by apply length_take.
  assert (Hlen : length (pg_nodes flow) = Nat.min 5 (length filePaths) + 2).
  { apply generateHeuristicFlow_length. }
  split_and!; try done.
  - rewrite <- Htake, Hnodes.
    change (Some "start" :: map pn_type
              (imap (step_node asRelativePath) (take 5 filePaths) ++ [end_node])
            = Some "start" :: replicate (length (take 5 filePaths))
                                (Some "process") ++ [Some "end"]).
    rewrite map_app. f_equal. f_equal. apply (imap_step_types _ id).
  - rewrite Hnodes. simpl. rewrite map_app. simpl.
    rewrite (imap_step_ids _ id). apply NoDup_flow_ids.
  - destruct Hchain as [Hs _].
    rewrite <- (length_map pe_source), Hs, length_take, length_map, Hlen. lia.
Qed.

End HeuristicFlowFacts.

(** C10: the heuristic flow always holds at least two nodes, the empty
    file list included: its first node is the start node (id and type
    ["start"]) and its last node the end node (id and type ["end"]), and
    for the empty list they are all there is.  Hence, whatever the message
    and the collaborators' answers, the handler's test
    [heuristicData.nodes.length > 0] succeeds and it never runs its final
    fallback to the component graph; and when it falls back on the
    heuristic flow, the graph it sends begins with the start node and ends
    with the end node. *)
Theorem final_fallback_is_unreachable
    (basename asRelativePath : string -> string)
    (generateSubsystemFlow :
       list string -> option ProcessGraphData * list string)
    (loadSymbolsForFiles : list string -> list GraphService.FileEntry)
    (oracle : GraphService.CallOracle)
    (schedule : list GraphService.Probe -> list GraphService.Probe)
    (message : BlockManager.DrillDownMessage)
    (filePaths : list string) (label : string) :
  let flow := ProcessInferenceService.generateHeuristicFlow asRelativePath
                filePaths label in
  let result := BlockManager.onDrillDown basename asRelativePath
                  generateSubsystemFlow loadSymbolsForFiles oracle schedule
                  message in
  2 <= length (pg_nodes flow)
  /\ head (pg_nodes flow) = Some (ProcessInferenceService.start_node label)
  /\ last (pg_nodes flow) = Some ProcessInferenceService.end_node
  /\ pn_id (ProcessInferenceService.start_node label) = "start"
  /\ pn_type (ProcessInferenceService.start_node label) = Some "start"
  /\ pn_id ProcessInferenceService.end_node = "end"
  /\ pn_type ProcessInferenceService.end_node = Some "end"
  /\ pg_nodes (ProcessInferenceService.generateHeuristicFlow asRelativePath
                 [] label)
     = [ProcessInferenceService.start_node label;
        ProcessInferenceService.end_node]
  /\ match BlockManager.dr_branch result with
     | BlockManager.FinalFallback => False
     | BlockManager.HeuristicFlow =>
         exists data,
           BlockManager.dr_update result
           = Some (data, BlockManager.dm_requestId message)
           /\ head (g_nodes data)
              = Some (GraphService.convert_node
                        (ProcessInferenceService.start_node
                           (JS.or_else (BlockManager.dm_label message)
                              "Process")))
           /\ last (g_nodes data)
              = Some (GraphService.convert_node
                        ProcessInferenceService.end_node)
           /\ 2 <= length (g_nodes data)
     | _ => True
     end.
Proof.
  intros flow result.
  assert (Hshape : forall fps l,
    let f := ProcessInferenceService.generateHeuristicFlow asRelativePath
               fps l in
    head (pg_nodes f) = Some (ProcessInferenceService.start_node l)
    /\ last (pg_nodes f) = Some ProcessInferenceService.end_node).
  { intros fps l. cbv zeta. rewrite generateHeuristicFlow_nodes.
    split; [done|]. by rewrite app_comm_cons, last_snoc. }
  split_and!; try done.
  - unfold flow. rewrite generateHeuristicFlow_length. lia.
  - apply Hshape.
  - apply Hshape.
  - unfold result, BlockManager.onDrillDown.
    destruct (BlockManager.dm_filePaths message) as [fps|]; [|done].
    destruct (negb _); [done|].
    destruct (bool_decide _).
    { by destruct (_ <? _)%nat. }
    destruct (generateSubsystemFlow fps) as [subsystemData fps'].
    destruct (BlockManager.nontrivial_flow _); [done|].
    cbv zeta. rewrite generateHeuristicFlow_length.
    destruct (0 <? _)%nat eqn:E.
    2: { apply Nat.ltb_ge in E. lia. }
    cbn [BlockManager.dr_branch BlockManager.dr_update].
    eexists. split; [done|].
    unfold GraphService.convertProcessToReactFlow. cbn [g_nodes].
    destruct (Hshape fps' (JS.or_else (BlockManager.dm_label message)
                             "Process")) as [Hh Hl].
    split_and!.
    + destruct (pg_nodes _) as [|n ns]; [done|]. simpl in *. congruence.
    + change (map ?f ?l) with (f <$> l). by rewrite fmap_last, Hl.
    + rewrite length_map, generateHeuristicFlow_length. lia.
Qed.

(* ===================================================================== *)
(** * Properties of the compound layout *)
(* ===================================================================== *)

Section LayoutFacts.

Import Webview.

Variable Box : Type.
Variable dagre_layout : DagreGraph -> string -> Box.
Variable locale_le : string -> string -> bool.

Lemma mark_visible_rule E vis n :
  mark_visible E vis n = if parent_rule E n then {[n_id n]} ∪ vis else vis.
Proof.
  unfold mark_visible, parent_rule.
  destruct (negb (JS.truthy (n_parentNode n))); simpl; [done|].
  by destruct (bool_decide _).
Qed.

Lemma foldl_mark_visible E nodes vis x :
  x ∈ foldl (mark_visible E) vis nodes
  <-> x ∈ vis \/ exists n, n ∈ nodes /\ n_id n = x /\ parent_rule E n = true.
Proof.
  revert vis. induction nodes as [|m nodes IH]; intros vis; simpl.
  - split; [by left|]. intros [H|(n & Hn & _)]; [done|]. by inversion Hn.
  - rewrite IH, mark_visible_rule. split.
    + intros [H|(n & Hn & Hid & Hr)].
      * destruct (parent_rule E m) eqn:Hm; [|by left].
        apply elem_of_union in H as [H|H]; [|by left].
        apply elem_of_singleton in H. right. exists m.
        split_and!; [left|done|done].
      * right. exists n. split_and!; [by right|done|done].
    + intros [H|(n & Hn & Hid & Hr)].
      * left. destruct (parent_rule E m); [|done].
        apply elem_of_union. by right.
      * apply elem_of_cons in Hn as [->|Hn].
        -- left. rewrite Hr. apply elem_of_union. left.
           by apply elem_of_singleton.
        -- right. by exists n.
Qed.

(** The visible set, as a set of ids. *)
Lemma elem_of_visibleNodes nodes E x :
  x ∈ visibleNodes nodes E
  <-> exists n, n ∈ nodes /\ n_id n = x /\ parent_rule E n = true.
Proof.
  unfold visibleNodes. rewrite foldl_mark_visible. split.
  - intros [H|H]; [|done]. by apply not_elem_of_empty in H.
  - by right.
Qed.

Lemma elem_of_insert_sorted n l x :
  x ∈ insert_sorted locale_le n l <-> x = n \/ x ∈ l.
Proof.
  induction l as [|m l IH]; simpl.
  - rewrite list_elem_of_singleton. split; [by left|].
    intros [H|H]; [done|]. by inversion H.
  - destruct (locale_le _ _).
    + rewrite !elem_of_cons, IH. tauto.
    + rewrite !elem_of_cons. tauto.
Qed.

Lemma elem_of_sort_by_id nodes x :
  x ∈ sort_by_id locale_le nodes <-> x ∈ nodes.
Proof.
  unfold sort_by_id.
  assert (H : forall acc, x ∈ foldl (fun acc n => insert_sorted locale_le n acc)
                                acc nodes <-> x ∈ acc \/ x ∈ nodes).
  { induction nodes as [|m nodes IH]; intros acc; simpl.
    - split; [by left|]. intros [H|H]; [done|]. by inversion H.
    - rewrite IH, elem_of_insert_sorted, elem_of_cons. tauto. }
  rewrite H. split; [|by right]. intros [Hx|Hx]; [|done]. by inversion Hx.
Qed.

Lemma existsb_assoc_set {V} (id k : string) (v : V) l :
  existsb (fun kv => String.eqb (fst kv) id) (assoc_set k v l)
  = String.eqb k id || existsb (fun kv => String.eqb (fst kv) id) l.
Proof.
  induction l as [|[k' v'] l IH]; simpl.
  - by rewrite orb_false_r.
  - destruct (String.eqb k' k) eqn:Hk; simpl.
    + apply String.eqb_eq in Hk as ->. by destruct (String.eqb k id).
    + rewrite IH. destruct (String.eqb k' id), (String.eqb k id); done.
Qed.

Lemma has_node_setNode id k v g :
  has_node id (setNode k v g) = String.eqb k id || has_node id g.
Proof. unfold has_node, setNode. simpl. apply existsb_assoc_set. Qed.

Lemma has_node_add_to_dagre E vis g node id :
  has_node id (add_to_dagre E vis g node)
  = (bool_decide (n_id node ∈ vis) && String.eqb (n_id node) id)
    || has_node id g.
Proof.
  unfold add_to_dagre. destruct (bool_decide (n_id node ∈ vis)); simpl; [|done].
  destruct (node_size E node) as [w h].
  destruct (_ && _); simpl; apply has_node_setNode.
Qed.

Lemma has_node_foldl_add E vis nodes g id :
  has_node id (foldl (add_to_dagre E vis) g nodes) = true
  <-> has_node id g = true
      \/ exists n, n ∈ nodes /\ n_id n = id /\ n_id n ∈ vis.
Proof.
  revert g. induction nodes as [|m nodes IH]; intros g; simpl.
  - split; [by left|]. intros [H|(n & Hn & _)]; [done|]. by inversion Hn.
  - rewrite IH, has_node_add_to_dagre, orb_true_iff, andb_true_iff,
      bool_decide_eq_true, String.eqb_eq.
    split.
    + intros [[[Hv He]|H]|(n & Hn & Hid & Hv)].
      * right. exists m. split_and!; [left|done|done].
      * by left.
      * right. exists n. split_and!; [by right|done|done].
    + intros [H|(n & Hn & Hid & Hv)].
      * left. by right.
      * apply elem_of_cons in Hn as [->|Hn].
        -- left. by left.
        -- right. by exists n.
Qed.

Lemma has_node_foldl_edges vis edges g id :
  has_node id (foldl (add_edge_to_dagre vis) g edges) = has_node id g.
Proof.
  revert g. induction edges as [|e edges IH]; intros g; simpl; [done|].
  rewrite IH. unfold add_edge_to_dagre. by destruct (_ && _).
Qed.

(** Every visible node has an entry in the dagre graph, so the "should not
    happen" branch of the position pass is never taken. *)
Lemma visible_has_node nodes edges E n :
  n ∈ nodes ->
  n_id n ∈ visibleNodes nodes E ->
  has_node (n_id n) (build_dagre locale_le nodes edges E) = true.
Proof.
  intros Hn Hv. unfold build_dagre.
  rewrite has_node_foldl_edges. apply has_node_foldl_add. right.
  exists n. split_and!; [|done|done]. by apply elem_of_sort_by_id.
Qed.

(** The [hidden] flag of a node of the input is the negation of the
    membership of its id in the visible set. *)
Lemma place_node_hidden nodes edges E n :
  n ∈ nodes ->
  let ln := place_node Box dagre_layout E (visibleNodes nodes E)
              (build_dagre locale_le nodes edges E) n in
  ln_hidden ln = negb (bool_decide (n_id n ∈ visibleNodes nodes E))
  /\ n_id (ln_node ln) = n_id n
  /\ n_parentNode (ln_node ln) = n_parentNode n.
Proof.
  intros Hn. unfold place_node.
  destruct (bool_decide (n_id n ∈ visibleNodes nodes E)) eqn:Hv; simpl; [|done].
  apply bool_decide_eq_true in Hv.
  unfold dagre_node. rewrite (visible_has_node _ _ _ _ Hn Hv).
  by destruct (_ && _).
Qed.

Lemma layout_hidden_flags nodes edges E :
  map ln_hidden
    (fst (getLayoutedElements Box dagre_layout locale_le nodes edges E))
  = map (fun n => negb (bool_decide (n_id n ∈ visibleNodes nodes E))) nodes.
Proof.
  unfold getLayoutedElements. simpl. rewrite map_map.
  apply map_ext_in. intros n Hn. apply list_elem_of_In in Hn.
  by destruct (place_node_hidden nodes edges E n Hn) as (Hh & _).
Qed.

(** C5 (as amended): on a node list with pairwise distinct ids, the layout
    shows a node exactly when it has no parent or its direct parent is in
    the expanded set; no further ancestor is looked at.  On the chain
    [root -> group -> leaf]: with [{root}] expanded the leaf is hidden; with
    [{root, group}] it is shown; and with [{group}] alone it is shown too,
    although [root] is collapsed and [group] itself is hidden. *)
Theorem layout_visibility_is_direct_parent (nodes : list RFNode)
    (edges : list RFEdge) (E : gset string) :
  NoDup (map n_id nodes) ->
  let out := fst (getLayoutedElements Box dagre_layout locale_le nodes edges E) in
  (forall i n, nodes !! i = Some n ->
     exists ln, out !! i = Some ln
       /\ n_id (ln_node ln) = n_id n
       /\ (ln_hidden ln = false <-> parent_rule E n = true))
  /\ map ln_hidden
       (fst (getLayoutedElements Box dagre_layout locale_le chain [] {["root"]}))
     = [false; false; true]
  /\ map ln_hidden
       (fst (getLayoutedElements Box dagre_layout locale_le chain []
               ({["group"]} ∪ {["root"]})))
     = [false; false; false]
  /\ map ln_hidden
       (fst (getLayoutedElements Box dagre_layout locale_le chain [] {["group"]}))
     = [false; true; false].
Proof.
  intros Hnd out.
  split_and!; [|by rewrite layout_hidden_flags; vm_compute..].
  intros i n Hi.
  assert (Hn : n ∈ nodes) by (apply list_elem_of_lookup; eauto).
  exists (place_node Box dagre_layout E (visibleNodes nodes E)
            (build_dagre locale_le nodes edges E) n).
  destruct (place_node_hidden nodes edges E n Hn) as (Hh & Hid & _).
  split_and!.
  - unfold out, getLayoutedElements. simpl.
    change (map ?f ?l) with (f <$> l). by rewrite list_lookup_fmap, Hi.
  - done.
  - rewrite Hh, negb_false_iff, bool_decide_eq_true, elem_of_visibleNodes.
    split.
    + intros (m & Hm & Hid' & Hr).
      apply list_elem_of_lookup in Hm as [j Hj].
      assert (i = j) as <-.
      { eapply NoDup_lookup; [exact Hnd| |].
        - change (map ?f ?l) with (f <$> l). by rewrite list_lookup_fmap, Hi.
        - change (map ?f ?l) with (f <$> l).
          by rewrite list_lookup_fmap, Hj; simpl; rewrite Hid'. }
      by simplify_eq.
    + intros Hr. by exists n.
Qed.

(** *** What the layout reads and what it writes *)

(** Two nodes that differ at most in [data.isExpanded]. *)
#[local] Abbreviation same_payload :=
  (fun a b : RFNode => without_isExpanded a = without_isExpanded b).

Lemma map_eq_Forall2 {A B} (f : A -> B) (l k : list A) :
  map f l = map f k -> Forall2 (fun a b => f a = f b) l k.
Proof.
  revert k. induction l as [|a l IH]; intros [|b k] H; simpl in H;
    try discriminate H; [constructor|].
  injection H as Hab Hlk. constructor; [done|by apply IH].
Qed.

Lemma same_payload_fields a b :
  same_payload a b ->
  n_id a = n_id b /\ n_type a = n_type b /\ n_parentNode a = n_parentNode b
  /\ d_label (n_data a) = d_label (n_data b)
  /\ d_description (n_data a) = d_description (n_data b)
  /\ d_files (n_data a) = d_files (n_data b)
  /\ d_type (n_data a) = d_type (n_data b)
  /\ d_location (n_data a) = d_location (n_data b).
Proof.
  destruct a as [ia ta pa [la da sa fa ya ka oa xa]].
  destruct b as [ib tb pb [lb db sb fb yb kb ob xb]].
  unfold without_isExpanded. simpl. intros [= -> -> -> -> -> -> -> -> -> ->].
  by split_and!.
Qed.

Lemma same_payload_with_isExpanded v a b :
  same_payload a b -> with_isExpanded v a = with_isExpanded v b.
Proof.
  destruct a as [ia ta pa [la da sa fa ya ka oa xa]].
  destruct b as [ib tb pb [lb db sb fb yb kb ob xb]].
  unfold without_isExpanded, with_isExpanded. simpl.
  by intros [= -> -> -> -> -> -> -> -> -> ->].
Qed.

Lemma without_with_isExpanded v n :
  without_isExpanded (with_isExpanded v n) = without_isExpanded n.
Proof. done. Qed.

Lemma with_with_isExpanded v n :
  with_isExpanded v (with_isExpanded v n) = with_isExpanded v n.
Proof. done. Qed.

(** The visibility pass and the dagre graph read the id, the type, the
    parent, the label and the description of a node, and nothing else. *)
Lemma mark_visible_same_payload E vis a b :
  same_payload a b -> mark_visible E vis a = mark_visible E vis b.
Proof.
  intros H. apply same_payload_fields in H as (Hi & _ & Hp & _).
  unfold mark_visible. by rewrite Hi, Hp.
Qed.

Lemma visibleNodes_same_payload E nodes nodes' :
  Forall2 same_payload nodes' nodes ->
  visibleNodes nodes' E = visibleNodes nodes E.
Proof.
  intros Hn. unfold visibleNodes. generalize (∅ : gset string).
  induction Hn as [|a b l k Hab _ IH]; intros vis; simpl; [done|].
  by rewrite (mark_visible_same_payload E vis a b Hab), IH.
Qed.

Lemma insert_sorted_same_payload a b l k :
  same_payload a b -> Forall2 same_payload l k ->
  Forall2 same_payload (insert_sorted locale_le a l) (insert_sorted locale_le b k).
Proof.
  intros Hab. induction 1 as [|x y l k Hxy Hlk IH]; simpl.
  - by constructor.
  - pose proof (same_payload_fields _ _ Hab) as (Hi & _).
    pose proof (same_payload_fields _ _ Hxy) as (Hj & _).
    rewrite Hi, Hj. destruct (locale_le _ _); by repeat constructor.
Qed.

Lemma sort_by_id_same_payload nodes nodes' :
  Forall2 same_payload nodes' nodes ->
  Forall2 same_payload (sort_by_id locale_le nodes') (sort_by_id locale_le nodes).
Proof.
  unfold sort_by_id.
  assert (H : forall acc acc', Forall2 same_payload acc' acc ->
            Forall2 same_payload nodes' nodes ->
            Forall2 same_payload
              (foldl (fun acc n => insert_sorted locale_le n acc) acc' nodes')
              (foldl (fun acc n => insert_sorted locale_le n acc) acc nodes)).
  { intros acc acc' Hacc Hn. revert acc acc' Hacc.
    induction Hn as [|a b l k Hab _ IH]; intros acc acc' Hacc; simpl; [done|].
    apply IH. by apply insert_sorted_same_payload. }
  intros Hn. apply H; [constructor|done].
Qed.

Lemma add_to_dagre_same_payload E vis g a b :
  same_payload a b -> add_to_dagre E vis g a = add_to_dagre E vis g b.
Proof.
  intros H. apply same_payload_fields in H as (Hi & Ht & Hp & Hl & Hd & _).
  unfold add_to_dagre, node_size, isGroup. by rewrite Hi, Ht, Hp, Hl, Hd.
Qed.

Lemma build_dagre_same_payload E nodes nodes' edges :
  Forall2 same_payload nodes' nodes ->
  build_dagre locale_le nodes' edges E = build_dagre locale_le nodes edges E.
Proof.
  intros Hn. unfold build_dagre.
  rewrite (visibleNodes_same_payload E _ _ Hn). f_equal.
  generalize empty_dagre.
  induction (sort_by_id_same_payload _ _ Hn) as [|a b l k Hab _ IH];
    intros g; simpl; [done|].
  by rewrite (add_to_dagre_same_payload _ _ g a b Hab), IH.
Qed.

(** The node that the position pass returns for [n]: [n] itself, hidden,
    or [n] with [data.isExpanded] written, shown. *)
Lemma place_node_cases E vis g n :
  let ln := place_node Box dagre_layout E vis g n in
  (ln_hidden ln = true /\ ln_node ln = n)
  \/ (ln_hidden ln = false
      /\ ln_node ln = with_isExpanded (bool_decide (n_id n ∈ E)) n).
Proof.
  unfold place_node. destruct (negb _); [by left|].
  destruct (dagre_node _ _ _); [|by left].
  destruct (_ && _); by right.
Qed.

Lemma place_node_same_payload E vis g a b :
  same_payload a b ->
  rendered Box (place_node Box dagre_layout E vis g a)
  = rendered Box (place_node Box dagre_layout E vis g b).
Proof.
  intros H. pose proof (same_payload_fields _ _ H) as (Hi & _ & Hp & _).
  unfold place_node. rewrite Hi, Hp.
  destruct (negb _); [unfold rendered; simpl; by rewrite H|].
  destruct (dagre_node _ _ _); [|unfold rendered; simpl; by rewrite H].
  rewrite (same_payload_with_isExpanded _ a b H). by destruct (_ && _).
Qed.

(** The layout of two node lists that differ at most in [data.isExpanded]
    is drawn alike: the same nodes are shown, with the same fields and
    boxes. *)
Lemma layout_same_payload E nodes nodes' edges :
  map without_isExpanded nodes' = map without_isExpanded nodes ->
  map (rendered Box)
    (fst (getLayoutedElements Box dagre_layout locale_le nodes' edges E))
  = map (rendered Box)
      (fst (getLayoutedElements Box dagre_layout locale_le nodes edges E)).
Proof.
  intros Hm.
  assert (Hn : Forall2 same_payload nodes' nodes).
  { by apply map_eq_Forall2. }
  unfold getLayoutedElements. cbn [fst].
  rewrite (visibleNodes_same_payload E _ _ Hn),
    (build_dagre_same_payload E _ _ edges Hn).
  generalize (visibleNodes nodes E) (build_dagre locale_le nodes edges E).
  intros vis g. clear Hm.
  induction Hn as [|a b l k Hab _ IH]; simpl; [done|].
  by rewrite (place_node_same_payload E vis g a b Hab), IH.
Qed.

(** The layout writes [data.isExpanded] and nothing else. *)
Lemma written_nodes_payload E nodes edges :
  map without_isExpanded
    (written_nodes Box
       (getLayoutedElements Box dagre_layout locale_le nodes edges E))
  = map without_isExpanded nodes.
Proof.
  unfold written_nodes, getLayoutedElements. cbn [fst].
  rewrite !map_map. apply map_ext. intros n.
  destruct (place_node_cases E (visibleNodes nodes E)
              (build_dagre locale_le nodes edges E) n) as [[_ ->]|[_ ->]]; done.
Qed.

(** Laying out again the nodes that a layout has written, with the same
    expansion set, returns what that layout returned: the display is the
    layout of the raw nodes as they are after the pass. *)
Lemma layout_of_written_nodes E nodes edges :
  getLayoutedElements Box dagre_layout locale_le
    (written_nodes Box
       (getLayoutedElements Box dagre_layout locale_le nodes edges E))
    edges E
  = getLayoutedElements Box dagre_layout locale_le nodes edges E.
Proof.
  pose proof (written_nodes_payload E nodes edges) as Hm.
  assert (Hn : Forall2 same_payload
                 (written_nodes Box
                    (getLayoutedElements Box dagre_layout locale_le nodes
                       edges E)) nodes).
  { by apply map_eq_Forall2. }
  unfold getLayoutedElements at 1. cbv zeta.
  rewrite (visibleNodes_same_payload E _ _ Hn),
    (build_dagre_same_payload E _ _ edges Hn).
  unfold written_nodes, getLayoutedElements. cbn [fst]. f_equal.
  rewrite !map_map. apply map_ext. intros n.
  set (vis := visibleNodes nodes E).
  set (g := build_dagre locale_le nodes edges E).
  unfold place_node. cbn [ln_node].
  destruct (negb (bool_decide (n_id n ∈ vis))) eqn:Hv; cbn [ln_node].
  { by rewrite Hv. }
  destruct (dagre_node Box dagre_layout g (n_id n)) as [box|] eqn:Hb;
    cbn [ln_node].
  2: { by rewrite Hv, Hb. }
  destruct (JS.truthy (n_parentNode n) && _) eqn:Hp; cbn [ln_node];
    change (n_id (with_isExpanded ?v n)) with (n_id n);
    change (n_parentNode (with_isExpanded ?v n)) with (n_parentNode n);
    by rewrite Hv, Hb, Hp.
Qed.

End LayoutFacts.

(** C5, witness: the theorem on the three-level chain. *)
Lemma layout_visibility_is_direct_parent_witness :
  NoDup (map n_id Webview.chain)
  /\ exists ln,
       fst (Webview.getLayoutedElements unit (fun _ _ => tt) String.leb
              Webview.chain [] {["root"]}) !! 2 = Some ln
       /\ Webview.ln_hidden ln = true.
Proof.
  assert (Hnd : NoDup (map n_id Webview.chain)).
  { apply (bool_decide_unpack _). vm_compute. exact I. }
  split; [exact Hnd|].
  destruct (layout_visibility_is_direct_parent unit (fun _ _ => tt) String.leb
              Webview.chain [] {["root"]} Hnd) as (H & _).
  destruct (H 2 Webview.chain_leaf eq_refl) as (ln & Hln & _ & Hiff).
  exists ln. split; [exact Hln|].
  destruct (Webview.ln_hidden ln); [reflexivity|].
  destruct Hiff as [Hiff _]. specialize (Hiff eq_refl).
  vm_compute in Hiff. discriminate Hiff.
Defined.

(** C5, counterexample: it is not the case that every node the layout
    shows has all its ancestors expanded.  With only [group] expanded the
    leaf of the chain is shown, while the walk of its parent chain finds
    [root] collapsed. *)
Lemma layout_shows_node_below_collapsed_ancestor :
  ~ (forall (nodes : list RFNode) (E : gset string) (i : nat)
            (ln : Webview.LNode unit),
       NoDup (map n_id nodes) ->
       fst (Webview.getLayoutedElements unit (fun _ _ => tt) String.leb
              nodes [] E) !! i = Some ln ->
       Webview.ln_hidden ln = false ->
       forall n, nodes !! i = Some n ->
       Webview.spec_reachable nodes E n = true).
Proof.
  intros H.
  assert (Hnd : NoDup (map n_id Webview.chain)).
  { apply (bool_decide_unpack _). vm_compute. exact I. }
  specialize (H Webview.chain {["group"]} 2
                (Webview.mkLNode
                   (Webview.with_isExpanded false Webview.chain_leaf)
                   false (Some tt) None) Hnd).
  assert (Hs : Webview.spec_reachable Webview.chain {["group"]}
                 Webview.chain_leaf = false) by (by vm_compute).
  rewrite H in Hs; [discriminate Hs| |done|done].
  by vm_compute.
Qed.

(* ===================================================================== *)
(** * Properties of the drill-down controller *)
(* ===================================================================== *)

(** A request id, the decimal rendering of a clock reading, is never the
    empty string, hence truthy. *)
Lemma pretty_N_go_nonempty (x : N) (s : string) :
  s <> "" -> pretty_N_go x s <> "".
Proof.
  revert s. induction (N.lt_wf_0 x) as [x _ IH]. intros s Hs.
  destruct (decide (x = 0)%N) as [->|Hx].
  - by rewrite pretty_N_go_0.
  - rewrite pretty_N_go_step by lia.
    apply IH; [apply N.div_lt; lia|done].
Qed.

Lemma pretty_N_nonempty (x : N) : pretty x <> "".
Proof.
  unfold pretty, pretty_N. destruct (decide (x = 0)%N) as [->|Hx]; [done|].
  rewrite pretty_N_go_step by lia. by apply pretty_N_go_nonempty.
Qed.

Lemma truthy_request_id (now : N) : JS.truthy (Some (pretty now)) = true.
Proof.
  simpl. destruct (String.eqb (pretty now) "") eqn:E; [|done].
  apply String.eqb_eq in E. by apply pretty_N_nonempty in E.
Qed.

Section ControllerFacts.

Import Webview.

Variable Box : Type.
Variable dagre_layout : DagreGraph -> string -> Box.
Variable locale_le : string -> string -> bool.

#[local] Abbreviation State := (State Box).
#[local] Abbreviation step := (step Box dagre_layout locale_le).
#[local] Abbreviation run := (run Box dagre_layout locale_le).
#[local] Abbreviation handleMessage := (handleMessage Box dagre_layout locale_le).
#[local] Abbreviation applyUpdate := (applyUpdate Box dagre_layout locale_le).
#[local] Abbreviation goBack := (goBack Box dagre_layout locale_le).
#[local] Abbreviation onNodeDoubleClick := (onNodeDoubleClick Box dagre_layout locale_le).
#[local] Abbreviation getLayoutedElements := (getLayoutedElements Box dagre_layout locale_le).
#[local] Abbreviation triggerLayout := (triggerLayout Box dagre_layout locale_le).
#[local] Abbreviation written_nodes := (written_nodes Box).

(** *** The store of node arrays *)

(** What an array holds after a layout pass: the array laid out holds
    what the pass has written, every other array what it held. *)
Lemma array_nodes_triggerLayout (n : nat) (e : list RFEdge) (exp : gset string)
    (st : State) (a : nat) :
  array_nodes (triggerLayout n e exp st) a
  = if decide (a = n)
    then written_nodes (getLayoutedElements (array_nodes st n) e exp)
    else array_nodes st a.
Proof.
  unfold triggerLayout, array_nodes. cbn [s_arrays].
  destruct (decide (a = n)) as [->|Hne].
  - destruct (decide (n < length (s_arrays st))) as [Hlt|Hge].
    + by rewrite list_lookup_insert_eq.
    + rewrite list_insert_ge by lia.
      rewrite (lookup_ge_None_2 (s_arrays st) n) by lia. done.
  - by rewrite list_lookup_insert_ne.
Qed.

(** A double click on a system or process node that carries files issues
    a request: the current view is pushed (the frame refers to the array of
    [rawNodes]) and the fresh id becomes the active one. *)
Lemma drill_request (node : RFNode) (now : N) (st : State) :
  is_drillable_type node = true ->
  has_files node = true ->
  let st' := fst (onNodeDoubleClick node now st) in
  s_activeRequestId st' = Some (pretty now)
  /\ s_viewStack st'
     = s_viewStack st
       ++ [mkFrame (s_rawArray st) (s_rawEdges st) (s_currentLabel st)]
  /\ s_rawArray st' = s_rawArray st
  /\ s_arrays st' = s_arrays st
  /\ s_rawEdges st' = s_rawEdges st
  /\ s_nodes st' = s_nodes st
  /\ s_edges st' = s_edges st
  /\ s_expandedIdsRef st' = s_expandedIdsRef st
  /\ s_expandedIds st' = s_expandedIds st.
Proof.
  intros Hd Hf. unfold onNodeDoubleClick. rewrite Hd, Hf. simpl. done.
Qed.

(** While a request is active, an update with another id, or with none,
    changes nothing. *)
Lemma update_discarded (data : GraphData) (requestId : option string)
    (active : string) (st : State) :
  s_activeRequestId st = Some active ->
  active <> "" ->
  requestId <> Some active ->
  handleMessage (UpdateGraph data requestId) st = st.
Proof.
  intros Ha Hne Hr. unfold handleMessage. rewrite Ha. simpl.
  destruct (String.eqb active "") eqn:E.
  { apply String.eqb_eq in E. done. }
  simpl. rewrite bool_decide_eq_false_2; done.
Qed.

(** While a request is active, the update that carries its id is applied. *)
Lemma update_applied (data : GraphData) (active : string) (st : State) :
  s_activeRequestId st = Some active ->
  active <> "" ->
  handleMessage (UpdateGraph data (Some active)) st = applyUpdate data st.
Proof.
  intros Ha Hne. unfold handleMessage. rewrite Ha. simpl.
  destruct (String.eqb active "") eqn:E.
  { apply String.eqb_eq in E. done. }
  simpl. rewrite bool_decide_eq_true_2; done.
Qed.

(** What an applied update leaves in the state: [rawNodes] refers to a new
    array, which holds the normalised nodes as the layout has written
    them; the older arrays and the frames are as before. *)
Lemma applyUpdate_fields (data : GraphData) (st : State) :
  let safeNodes := map safeNode (g_nodes data) in
  let next := nextExpanded safeNodes (s_expandedIdsRef st) in
  let layout := getLayoutedElements safeNodes (g_edges data) next in
  let st' := applyUpdate data st in
  s_rawArray st' = length (s_arrays st)
  /\ s_rawNodes st' = written_nodes layout
  /\ s_rawEdges st' = g_edges data
  /\ (s_nodes st', s_edges st') = layout
  /\ s_expandedIdsRef st' = next
  /\ s_expandedIds st' = next
  /\ s_activeRequestId st' = s_activeRequestId st
  /\ s_viewStack st' = s_viewStack st
  /\ s_currentLabel st' = s_currentLabel st
  /\ s_isLoading st' = false
  /\ (forall a, a < length (s_arrays st) ->
        array_nodes st' a = array_nodes st a).
Proof.
  intros safeNodes next layout st'.
  assert (Hnew : forall arrays : list (list RFNode),
            default [] ((arrays ++ [safeNodes]) !! length arrays) = safeNodes).
  { intros arrays. by rewrite list_lookup_middle. }
  split_and!; try done.
  - unfold st', Webview.applyUpdate, Webview.s_rawNodes. cbv zeta.
    rewrite array_nodes_triggerLayout. cbn [s_rawArray Webview.triggerLayout].
    rewrite decide_True by done.
    unfold Webview.array_nodes at 1. cbn [s_arrays]. by rewrite Hnew.
  - unfold st', Webview.applyUpdate, Webview.triggerLayout. cbv zeta.
    cbn [s_nodes s_edges].
    unfold Webview.array_nodes. cbn [s_arrays]. rewrite Hnew.
    by destruct (Webview.getLayoutedElements _ _ _ _ _ _).
  - intros a Ha. unfold st', Webview.applyUpdate. cbv zeta.
    rewrite array_nodes_triggerLayout. rewrite decide_False by lia.
    unfold Webview.array_nodes. cbn [s_arrays]. by rewrite lookup_app_l.
Qed.


(** With no active request, every update is applied, whatever the
    navigation stack holds: the stack the handler tests is the empty one
    of the first render. *)
Lemma update_applied_without_token (data : GraphData)
    (requestId : option string) (st : State) :
  s_activeRequestId st = None ->
  handleMessage (UpdateGraph data requestId) st = applyUpdate data st.
Proof. intros Ha. unfold Webview.handleMessage. by rewrite Ha. Qed.

(** What "back" does on a non-empty stack: the top frame is popped, its
    array becomes [rawNodes] and its label the label, the request id is
    cleared, and the layout is computed with an empty expansion set, which
    writes onto the node objects of the restored array.  The expansion set
    kept in [expandedIds] and in [expandedIdsRef] is not written. *)
Lemma goBack_fields (st : State) (stack : list ViewFrame) (prev : ViewFrame) :
  s_viewStack st = stack ++ [prev] ->
  let layout := getLayoutedElements (vf_nodes st prev) (vf_edges prev) ∅ in
  let st' := goBack st in
  s_viewStack st' = stack
  /\ s_rawArray st' = vf_array prev
  /\ s_rawNodes st' = written_nodes layout
  /\ s_rawEdges st' = vf_edges prev
  /\ s_currentLabel st' = vf_label prev
  /\ s_activeRequestId st' = None
  /\ (s_nodes st', s_edges st') = layout
  /\ s_expandedIdsRef st' = s_expandedIdsRef st
  /\ s_expandedIds st' = s_expandedIds st
  /\ s_isLoading st' = s_isLoading st
  /\ (forall a, a <> vf_array prev -> array_nodes st' a = array_nodes st a).
Proof.
  intros Hs layout st'. unfold st', Webview.goBack. rewrite Hs, last_snoc.
  cbv zeta. split_and!; try done.
  - unfold Webview.triggerLayout. cbn [s_viewStack].
    rewrite length_app. simpl.
    replace (length stack + 1 - 1) with (length stack) by lia.
    by rewrite take_app_length.
  - unfold Webview.s_rawNodes. rewrite array_nodes_triggerLayout.
    cbn [s_rawArray Webview.triggerLayout]. by rewrite decide_True.
  - intros a Ha. rewrite array_nodes_triggerLayout. by rewrite decide_False.
Qed.

End ControllerFacts.



(** C4, the run that fails it: the overview auto-expands its single root,
    the user drills into it, the reply arrives, the user goes back.  The
    frame is popped, the stack is empty, the request id is cleared and the
    layout is the one of an empty expansion set; but the expansion set of
    the controller still holds the root.  A refresh that comes next is laid
    out from that stale set: its single root is not auto-expanded and its
    component stays hidden, whereas from an empty set the root is expanded
    and the component shown.  The nodes themselves come back as the payload
    had them but for [data.isExpanded]: the frame held the node as the
    first layout had written it (expanded), and the layout of "back" writes
    onto the same object (collapsed). *)
Theorem back_keeps_the_expansion_state :
  let before := Session.run0 (take 3 Session.drill_and_back) in
  let after := Session.run0 Session.drill_and_back in
  let saved := Webview.mkFrame 1 (g_edges Session.overview)
                 (Some "System Overview") in
  Webview.s_viewStack before = [saved]
  /\ Webview.vf_nodes before saved
     = [Webview.with_isExpanded true Session.system_node]
  /\ Webview.s_viewStack after = []
  /\ Webview.s_rawArray after = 1
  /\ Webview.s_rawNodes after
     = [Webview.with_isExpanded false Session.system_node]
  /\ map Webview.without_isExpanded (Webview.s_rawNodes after)
     = map Webview.safeNode (g_nodes Session.overview)
  /\ Webview.s_rawEdges after = g_edges Session.overview
  /\ Webview.s_activeRequestId after = None
  /\ (Webview.s_nodes after, Webview.s_edges after)
     = Webview.getLayoutedElements unit (fun _ _ => tt) String.leb
         (map Webview.safeNode (g_nodes Session.overview))
         (g_edges Session.overview) ∅
  /\ Webview.s_expandedIdsRef after = {["1"]}
  /\ Webview.s_expandedIds after = {["1"]}
  /\ Webview.s_expandedIdsRef after <> ∅
  /\ map Webview.ln_hidden
       (Webview.s_nodes
          (Webview.step unit (fun _ _ => tt) String.leb after
             (Webview.Receive (Webview.UpdateGraph Session.background None))))
     = [false; true]
  /\ map Webview.ln_hidden
       (fst (Webview.getLayoutedElements unit (fun _ _ => tt) String.leb
               (map Webview.safeNode (g_nodes Session.background))
               (g_edges Session.background)
               (Webview.nextExpanded
                  (map Webview.safeNode (g_nodes Session.background)) ∅)))
     = [false; false].
Proof.
  split_and!; by vm_compute.
Qed.

(** C7, the run that fails it: two drill-downs and one "back" leave the
    navigation stack non-empty and no request active; a background update
    (no request id) that arrives then is applied and replaces the
    drilled-down view: the raw graph is the normalised background graph, as
    its layout has written it. *)
Theorem background_update_replaces_drilled_view :
  let st := Session.run0 Session.two_levels_and_back in
  let st' := Webview.step unit (fun _ _ => tt) String.leb st
               (Webview.Receive (Webview.UpdateGraph Session.background None)) in
  let layout := Webview.getLayoutedElements unit (fun _ _ => tt) String.leb
                  (map Webview.safeNode (g_nodes Session.background))
                  (g_edges Session.background) {["1"]} in
  length (Webview.s_viewStack st) = 1
  /\ Webview.s_activeRequestId st = None
  /\ map n_id (Webview.s_rawNodes st) = ["start"; "step_0"; "end"]
  /\ Webview.s_rawNodes st' = Webview.written_nodes unit layout
  /\ map Webview.without_isExpanded (Webview.s_rawNodes st')
     = map Webview.safeNode (g_nodes Session.background)
  /\ map n_id (Webview.s_rawNodes st')
     = ["mod-core"; "file:///w/a.ts::main::0"]
  /\ (Webview.s_nodes st', Webview.s_edges st') = layout
  /\ Webview.s_viewStack st' = Webview.s_viewStack st.
Proof. split_and!; by vm_compute. Qed.


(* ===================================================================== *)
(** * Properties of the graph assembler *)
(* ===================================================================== *)

Section SymbolInduction.

Import GraphService.

(** Induction on a symbol tree: the children of a symbol satisfy the
    property. *)
Variable P : DocumentSymbol -> Prop.
Hypothesis P_node : forall name detail kind line selLine selChar children,
  Forall P children ->
  P (mkSymbol name detail kind line selLine selChar children).

Fixpoint symbol_ind (s : DocumentSymbol) : P s :=
  match s with
  | mkSymbol name detail kind line selLine selChar children =>
      P_node name detail kind line selLine selChar children
        ((fix all (l : list DocumentSymbol) : Forall P l :=
            match l with
            | [] => List.Forall_nil P
            | c :: r => List.Forall_cons P c r (symbol_ind c) (all r)
            end) children)
  end.

End SymbolInduction.

Section FoldFacts.

Context {A B C : Type}.

(** A projection that no step changes is unchanged by the fold. *)
Lemma foldl_preserves (f : A -> B -> A) (g : A -> C) (l : list B) :
  Forall (fun x => forall a, g (f a x) = g a) l ->
  forall a, g (foldl f a l) = g a.
Proof.
  induction 1 as [|x l Hx _ IH]; intros a; simpl; [done|].
  by rewrite IH, Hx.
Qed.

(** An invariant that every step keeps is kept by the fold. *)
Lemma foldl_invariant (f : A -> B -> A) (I : A -> Prop) (l : list B) :
  Forall (fun x => forall a, I a -> I (f a x)) l ->
  forall a, I a -> I (foldl f a l).
Proof.
  induction 1 as [|x l Hx _ IH]; intros a Ha; simpl; [done|].
  by apply IH, Hx.
Qed.

End FoldFacts.

Section FilterFacts.

Context {A : Type} (P : A -> Prop) `{!forall x, Decision (P x)}.

Lemma filter_keeps_all (l : list A) : Forall P l -> filter P l = l.
Proof.
  induction 1 as [|x l Hx _ IH]; [done|].
  by rewrite filter_cons, decide_True, IH.
Qed.

Lemma filter_drops_all (l : list A) :
  Forall (fun x => ~ P x) l -> filter P l = [].
Proof.
  induction 1 as [|x l Hx _ IH]; [done|].
  by rewrite filter_cons, decide_False, IH.
Qed.

End FilterFacts.

Section AssemblerFacts.

Import GraphService.

(** *** The node list is written by the first pass only *)

Lemma assignOwner_symbol_nodes uri owner sub :
  forall b, b_nodes (assignOwner_symbol uri owner b sub) = b_nodes b.
Proof.
  induction sub as [name detail kind line selLine selChar children IH]
    using symbol_ind.
  intros b. simpl.
  by rewrite (foldl_preserves _ b_nodes children IH).
Qed.

Lemma assignOwner_nodes uri owner subItems b :
  b_nodes (assignOwner uri owner subItems b) = b_nodes b.
Proof.
  unfold assignOwner. apply foldl_preserves, Forall_forall.
  intros sub _. apply assignOwner_symbol_nodes.
Qed.

Lemma own_direct_children_nodes uri owner children b :
  b_nodes (foldl (own_direct_child uri owner) b children) = b_nodes b.
Proof. apply foldl_preserves, Forall_forall. by intros child _ a. Qed.

Lemma start_aggregate_nodes uri symbol id b :
  b_nodes (start_aggregate uri symbol id b) = b_nodes b.
Proof.
  unfold start_aggregate.
  destruct (negb (JS.truthy _)); [done|]. by destruct (negb (is_callable _)).
Qed.

Lemma processCalls_symbol_nodes uri item :
  forall b, b_nodes (processCalls_symbol uri b item) = b_nodes b.
Proof.
  induction item as [name detail kind line selLine selChar children IH]
    using symbol_ind.
  intros b. simpl. destruct (bool_decide _); [done|].
  rewrite (foldl_preserves _ b_nodes children IH).
  by rewrite start_aggregate_nodes.
Qed.

Lemma startCalls_nodes files b :
  b_nodes (startCalls files b) = b_nodes b.
Proof.
  unfold startCalls. apply foldl_preserves, Forall_forall.
  intros file _ a. unfold processFileCalls.
  destruct (negb (JS.truthy _)); [done|].
  unfold processCalls. apply foldl_preserves, Forall_forall.
  intros item _. apply processCalls_symbol_nodes.
Qed.

(** *** The owner map is written by the first pass only *)

Lemma start_aggregate_owners uri symbol id b :
  b_symbolOwnerMap (start_aggregate uri symbol id b) = b_symbolOwnerMap b.
Proof.
  unfold start_aggregate.
  destruct (negb (JS.truthy _)); [done|]. by destruct (negb (is_callable _)).
Qed.

Lemma processCalls_symbol_owners uri item :
  forall b,
    b_symbolOwnerMap (processCalls_symbol uri b item) = b_symbolOwnerMap b.
Proof.
  induction item as [name detail kind line selLine selChar children IH]
    using symbol_ind.
  intros b. simpl. destruct (bool_decide _); [done|].
  rewrite (foldl_preserves _ b_symbolOwnerMap children IH).
  by rewrite start_aggregate_owners.
Qed.

Lemma startCalls_owners files b :
  b_symbolOwnerMap (startCalls files b) = b_symbolOwnerMap b.
Proof.
  unfold startCalls. apply foldl_preserves, Forall_forall.
  intros file _ a. unfold processFileCalls.
  destruct (negb (JS.truthy _)); [done|].
  unfold processCalls. apply foldl_preserves, Forall_forall.
  intros item _. apply processCalls_symbol_owners.
Qed.

(** *** The flattened view of a file without classes *)

Lemma processSymbol_flat_member uri fileId systemParentId b item :
  is_class_like (sym_kind item) = false ->
  b_nodes (processSymbol uri fileId false fileId systemParentId b item)
  = b_nodes b
    ++ (if is_member_like (sym_kind item)
        then [function_node (symbol_id uri item) systemParentId item]
        else []).
Proof.
  intros Hc. unfold processSymbol. simpl. rewrite Hc.
  destruct (is_member_like (sym_kind item)).
  - rewrite String.eqb_refl. simpl. by rewrite assignOwner_nodes.
  - by rewrite app_nil_r.
Qed.

Lemma processSymbols_flat_members uri fileId systemParentId items :
  Forall (fun item => is_class_like (sym_kind item) = false) items ->
  forall b,
    b_nodes (processSymbols uri fileId false items fileId systemParentId b)
    = b_nodes b
      ++ map (fun item => function_node (symbol_id uri item) systemParentId item)
           (filter (fun item => is_member_like (sym_kind item) = true) items).
Proof.
  unfold processSymbols.
  induction 1 as [|item items Hc _ IH]; intros b; simpl.
  - by rewrite app_nil_r.
  - rewrite IH, processSymbol_flat_member by done.
    rewrite filter_cons. rewrite <- app_assoc. f_equal.
    destruct (is_member_like (sym_kind item)) eqn:Hm.
    + by rewrite decide_True.
    + by rewrite decide_False.
Qed.

End AssemblerFacts.

Section FlattenedFacts.

Import GraphService.

Variable basename : string -> string.

Lemma module_group_id_truthy moduleName :
  JS.or_else (Some (module_group_id moduleName)) ROOT_ID
  = module_group_id moduleName.
Proof. done. Qed.

(** The parent chosen for the first file of a batch. *)
Lemma file_parent_first virtualRootLabel semanticMap fsPath b :
  b_moduleGroups b = ∅ ->
  b_nodes (snd (file_parent virtualRootLabel semanticMap fsPath b))
  = b_nodes b
    ++ match semanticMap with
       | Some sm =>
           match sm !! fsPath with
           | Some moduleName => [module_node moduleName]
           | None => []
           end
       | None => []
       end
  /\ JS.or_else (fst (file_parent virtualRootLabel semanticMap fsPath b))
       ROOT_ID
     = container_id semanticMap fsPath.
Proof.
  intros Hm. unfold file_parent, container_id.
  destruct semanticMap as [sm|]; [destruct (sm !! fsPath) as [moduleName|]|].
  - rewrite Hm, lookup_empty. simpl. by rewrite lookup_insert_eq.
  - simpl. rewrite app_nil_r. by destruct (JS.truthy virtualRootLabel).
  - simpl. rewrite app_nil_r. by destruct (JS.truthy virtualRootLabel).
Qed.

(** The nodes of the flattened graph of one file without top-level
    classes: the containers, then one component per top-level function,
    method, constant or variable, parented to the file's container. *)
Lemma flattened_nodes (doc : TextDocument) (symbols : list DocumentSymbol)
    (semanticMap : option (gmap string string))
    (virtualRootLabel : option string) :
  Forall (fun item => is_class_like (sym_kind item) = false) symbols ->
  b_nodes (createNodes basename [mkFile doc symbols] semanticMap
             virtualRootLabel false)
  = container_nodes semanticMap virtualRootLabel (doc_fsPath doc)
    ++ map (fun item =>
              function_node (symbol_id (doc_uri doc) item)
                (container_id semanticMap (doc_fsPath doc)) item)
         (filter (fun item => is_member_like (sym_kind item) = true) symbols).
Proof.
  intros Hc. unfold createNodes, container_nodes. simpl.
  set (b0 := match virtualRootLabel with
             | Some l => if JS.truthy virtualRootLabel
                         then push_node (root_node l) empty_builder
                         else empty_builder
             | None => empty_builder
             end).
  assert (Hb0 : b_moduleGroups b0 = ∅
                /\ b_nodes b0
                   = if JS.truthy virtualRootLabel
                     then [root_node (JS.or_else virtualRootLabel "")] else []).
  { unfold b0. destruct virtualRootLabel as [l|]; [|done]. simpl.
    by destruct (String.eqb l ""). }
  destruct Hb0 as [Hm Hn].
  unfold processFile. simpl.
  destruct (file_parent_first virtualRootLabel semanticMap (doc_fsPath doc)
              b0 Hm) as [Hp Hid].
  destruct (file_parent virtualRootLabel semanticMap (doc_fsPath doc) b0)
    as [parentId b1]. simpl in Hp, Hid.
  rewrite processSymbols_flat_members by done. simpl.
  by rewrite Hp, Hn, Hid.
Qed.

(** The nodes of the result are those of the first pass, whatever the
    call-hierarchy collaborator answers and in whatever order. *)
Lemma generateGraph_nodes (files : list FileEntry)
    (semanticMap : option (gmap string string))
    (virtualRootLabel : option string) (includeFiles : bool)
    (oracle : CallOracle) (schedule : list Probe -> list Probe) :
  g_nodes (generateGraph basename files semanticMap virtualRootLabel
             includeFiles oracle schedule)
  = b_nodes (createNodes basename files semanticMap virtualRootLabel
               includeFiles).
Proof. unfold generateGraph. cbn [g_nodes]. apply startCalls_nodes. Qed.

(** C8 (as amended): the flattened graph ([includeFiles = false]) of a
    file without a class or an interface at top level holds exactly one
    component node per top-level function, method, constant or variable,
    in their order, each parented to the file's container; hence exactly
    [N] component nodes when its top-level symbols are [N] functions.  It
    holds no file node; and when a container is supplied (a virtual root
    label, or a semantic module for the file), the node of that container
    is in the graph. *)
Theorem flattened_members_become_components (doc : TextDocument)
    (symbols : list DocumentSymbol)
    (semanticMap : option (gmap string string))
    (virtualRootLabel : option string) (oracle : CallOracle)
    (schedule : list Probe -> list Probe) :
  Forall (fun item => is_class_like (sym_kind item) = false) symbols ->
  let g := generateGraph basename [mkFile doc symbols] semanticMap
             virtualRootLabel false oracle schedule in
  let container := container_id semanticMap (doc_fsPath doc) in
  let members :=
    filter (fun item => is_member_like (sym_kind item) = true) symbols in
  let components :=
    map (fun item =>
           function_node (symbol_id (doc_uri doc) item) container item)
      members in
  g_nodes g
  = container_nodes semanticMap virtualRootLabel (doc_fsPath doc) ++ components
  /\ filter (fun n => n_type n = Some "component") (g_nodes g) = components
  /\ length components = length members
  /\ (Forall (fun item => sym_kind item = SK_Function) symbols ->
      members = symbols /\ length components = length symbols)
  /\ Forall (fun n => n_parentNode n = Some container) components
  /\ Forall (fun n => d_type (n_data n) <> Some "file") (g_nodes g)
  /\ (JS.truthy virtualRootLabel = true
      \/ (exists sm moduleName,
            semanticMap = Some sm /\ sm !! doc_fsPath doc = Some moduleName) ->
      exists c, c ∈ g_nodes g /\ n_id c = container
                /\ n_type c = Some "group").
Proof.
  intros Hc g container members components.
  assert (Hnodes : g_nodes g
    = container_nodes semanticMap virtualRootLabel (doc_fsPath doc)
      ++ components).
  { unfold g. rewrite generateGraph_nodes. by rewrite flattened_nodes. }
  assert (Hcomp : Forall (fun n => n_type n = Some "component"
                                   /\ n_parentNode n = Some container
                                   /\ d_type (n_data n) <> Some "file")
                    components).
  { unfold components. apply Forall_forall. intros n Hn.
    apply (list_elem_of_fmap_1 _) in Hn as (item & -> & _). done. }
  assert (Hcont : Forall (fun n => n_type n = Some "group"
                                   /\ d_type (n_data n) <> Some "file")
                    (container_nodes semanticMap virtualRootLabel
                       (doc_fsPath doc))).
  { unfold container_nodes. apply Forall_app. split.
    - destruct (JS.truthy virtualRootLabel); [|done].
      by apply Forall_singleton.
    - destruct semanticMap as [sm|]; [|done].
      destruct (sm !! doc_fsPath doc); [|done]. by apply Forall_singleton. }
  split_and!.
  - done.
  - rewrite Hnodes, filter_app, filter_drops_all, filter_keeps_all.
    + done.
    + eapply Forall_impl; [exact Hcomp|]. by intros n (H & _).
    + eapply Forall_impl; [exact Hcont|]. intros n (H & _). by rewrite H.
  - unfold components. by rewrite length_map.
  - intros Hk.
    assert (Hf : members = symbols).
    { apply filter_keeps_all. eapply Forall_impl; [exact Hk|].
      by intros item ->. }
    split; [done|]. unfold components. by rewrite length_map, Hf.
  - eapply Forall_impl; [exact Hcomp|]. by intros n (_ & H & _).
  - rewrite Hnodes. apply Forall_app. split.
    + eapply Forall_impl; [exact Hcont|]. by intros n (_ & H).
    + eapply Forall_impl; [exact Hcomp|]. by intros n (_ & _ & H).
  - intros Hsup. rewrite Hnodes. unfold container, container_nodes, container_id.
    destruct semanticMap as [sm|]; [destruct (sm !! doc_fsPath doc) as [mn|] eqn:E|].
    + exists (module_node mn). split_and!; [|done|done].
      apply elem_of_app. left. apply elem_of_app. right.
      by apply list_elem_of_singleton.
    + destruct Hsup as [Ht|(sm' & mn & [= <-] & Hmn)]; [|congruence].
      rewrite Ht. exists (root_node (JS.or_else virtualRootLabel "")).
      split_and!; [|done|done].
      apply elem_of_app. left. apply elem_of_app. left.
      by apply list_elem_of_singleton.
    + destruct Hsup as [Ht|(sm' & mn & [=] & _)].
      rewrite Ht. exists (root_node (JS.or_else virtualRootLabel "")).
      split_and!; [|done|done].
      apply elem_of_app. left. apply elem_of_app. left.
      by apply list_elem_of_singleton.
Qed.

End FlattenedFacts.

Section EdgeMapFacts.

Import GraphService.

(** *** The loop body registers the resolved calls *)

Lemma aggregate_call_register nodeIdMap ownerMap p edgeMap call :
  aggregate_call nodeIdMap ownerMap p edgeMap call
  = match resolve_call nodeIdMap ownerMap p call with
    | Some rc => register_call edgeMap rc
    | None => edgeMap
    end.
Proof.
  unfold aggregate_call, resolve_call.
  destruct (JS.truthy (nodeIdMap !! _)); [|done].
  by destruct (_ && _).
Qed.

Lemma foldl_aggregate_calls nodeIdMap ownerMap p outgoing :
  forall edgeMap,
    foldl (aggregate_call nodeIdMap ownerMap p) edgeMap outgoing
    = foldl register_call edgeMap
        (omap (resolve_call nodeIdMap ownerMap p) outgoing).
Proof.
  induction outgoing as [|call outgoing IH]; intros edgeMap; simpl; [done|].
  rewrite IH, aggregate_call_register.
  by destruct (resolve_call nodeIdMap ownerMap p call).
Qed.

Lemma complete_probe_calls oracle nodeIdMap ownerMap edgeMap p :
  complete_probe oracle nodeIdMap ownerMap edgeMap p
  = foldl register_call edgeMap (probe_calls oracle nodeIdMap ownerMap p).
Proof.
  unfold complete_probe, probe_calls.
  destruct (oracle _ _ _); [|done]. apply foldl_aggregate_calls.
Qed.

Lemma settle_calls oracle b completion :
  settle oracle b completion
  = foldl register_call [] (resolved_calls oracle b completion).
Proof.
  unfold settle, resolved_calls. generalize ([] : EdgeMap).
  induction completion as [|p completion IH]; intros edgeMap; simpl; [done|].
  by rewrite foldl_app, IH, complete_probe_calls.
Qed.

(** *** Reading the edge map *)

Lemma em_get_None key (m : EdgeMap) :
  em_get key m = None <-> key ∉ map fst m.
Proof.
  induction m as [|[k v] m IH]; simpl.
  - split; [|done]. intros _ H. by inversion H.
  - destruct (String.eqb k key) eqn:E.
    + apply String.eqb_eq in E as ->. split; [done|].
      intros H. exfalso. apply H. left.
    + apply String.eqb_neq in E. rewrite IH, not_elem_of_cons.
      split; [intros H; split; [by intros ->|done]|by intros [_ H]].
Qed.

Lemma em_get_Some key v (m : EdgeMap) :
  NoDup (map fst m) ->
  em_get key m = Some v <-> (key, v) ∈ m.
Proof.
  induction m as [|[k w] m IH]; simpl; intros Hnd.
  - split; [done|]. intros H. by inversion H.
  - apply NoDup_cons in Hnd as [Hk Hnd].
    destruct (String.eqb k key) eqn:E.
    + apply String.eqb_eq in E as ->. rewrite elem_of_cons. split.
      * intros [= ->]. by left.
      * intros [[= ->]|Hin]; [done|].
        exfalso. apply Hk. apply (list_elem_of_fmap_2 fst) in Hin. done.
    + apply String.eqb_neq in E. rewrite IH, elem_of_cons by done.
      split; [by right|]. intros [[= -> ->]|H]; done.
Qed.

Lemma em_bump_keys key d (m : EdgeMap) :
  map fst (em_bump key d m) = map fst m.
Proof.
  induction m as [|[k v] m IH]; simpl; [done|].
  destruct (String.eqb k key); simpl; [done|]. by rewrite IH.
Qed.

Lemma em_get_bump key k d (m : EdgeMap) :
  em_get k (em_bump key d m)
  = if String.eqb key k
    then match em_get k m with
         | Some v => Some (mkMeta (S (m_count v)) (set_add d (m_calls v)))
         | None => None
         end
    else em_get k m.
Proof.
  induction m as [|[k' v] m IH]; simpl.
  - by destruct (String.eqb key k).
  - destruct (String.eqb k' key) eqn:E1; simpl.
    + apply String.eqb_eq in E1 as ->.
      by destruct (String.eqb key k).
    + destruct (String.eqb k' k) eqn:E2.
      * apply String.eqb_eq in E2 as ->.
        by rewrite String.eqb_sym, E1.
      * exact IH.
Qed.

Lemma em_get_snoc key k v (m : EdgeMap) :
  em_get k (m ++ [(key, v)])
  = match em_get k m with
    | Some w => Some w
    | None => if String.eqb key k then Some v else None
    end.
Proof.
  induction m as [|[k' w] m IH]; simpl; [done|].
  by destruct (String.eqb k' k).
Qed.

Lemma em_get_register key k d (m : EdgeMap) :
  em_get k (register m key d)
  = if String.eqb key k then bump_entry (em_get k m) d else em_get k m.
Proof.
  unfold register, bump_entry.
  destruct (em_get key m) as [v|] eqn:Hkey.
  - rewrite em_get_bump. destruct (String.eqb key k) eqn:E; [|done].
    apply String.eqb_eq in E as <-. by rewrite Hkey.
  - rewrite em_get_snoc. destruct (String.eqb key k) eqn:E.
    + apply String.eqb_eq in E as <-. by rewrite Hkey.
    + by destruct (em_get k m).
Qed.

Lemma register_keys key d (m : EdgeMap) :
  map fst (register m key d)
  = map fst m ++ (if bool_decide (key ∈ map fst m) then [] else [key]).
Proof.
  unfold register. destruct (em_get key m) as [v|] eqn:Hkey.
  - rewrite em_bump_keys, bool_decide_eq_true_2, app_nil_r; [done|].
    destruct (decide (key ∈ map fst m)) as [|Hn]; [done|].
    apply em_get_None in Hn. congruence.
  - rewrite map_app. simpl. apply em_get_None in Hkey.
    by rewrite bool_decide_eq_false_2.
Qed.

Lemma register_NoDup key d (m : EdgeMap) :
  NoDup (map fst m) -> NoDup (map fst (register m key d)).
Proof.
  intros Hnd. rewrite register_keys. case_bool_decide.
  - by rewrite app_nil_r.
  - apply NoDup_app. split_and!; [done| |apply NoDup_singleton].
    intros x Hx. rewrite list_elem_of_singleton. by intros ->.
Qed.

Lemma foldl_register_NoDup calls :
  forall m : EdgeMap,
    NoDup (map fst m) -> NoDup (map fst (foldl register_call m calls)).
Proof.
  induction calls as [|rc calls IH]; intros m Hnd; simpl; [done|].
  by apply IH, register_NoDup.
Qed.

(** The entry of a key is built from the calls registered under it,
    whatever lies between them. *)
Lemma em_get_foldl_register k calls :
  forall m : EdgeMap,
    em_get k (foldl register_call m calls)
    = foldl bump_entry (em_get k m) (descs_of k calls).
Proof.
  unfold descs_of.
  induction calls as [|rc calls IH]; intros m; simpl; [done|].
  rewrite IH. unfold register_call. rewrite em_get_register.
  rewrite filter_cons. destruct (decide (rc_key rc = k)) as [<-|Hne].
  - by rewrite String.eqb_refl.
  - apply String.eqb_neq in Hne. by rewrite Hne.
Qed.

End EdgeMapFacts.

Section WeightFacts.

Import GraphService.

Lemma elem_of_set_add x d s : x ∈ set_add d s <-> x = d \/ x ∈ s.
Proof.
  unfold set_add. case_bool_decide as Hd.
  - split; [by right|]. by intros [->|H].
  - rewrite elem_of_app, list_elem_of_singleton. tauto.
Qed.

Lemma set_add_NoDup d s : NoDup s -> NoDup (set_add d s).
Proof.
  intros Hs. unfold set_add. case_bool_decide as Hd; [done|].
  apply NoDup_app. split_and!; [done| |apply NoDup_singleton].
  intros x Hx. rewrite list_elem_of_singleton. by intros ->.
Qed.

(** The entry built for a key from the descriptions registered under it:
    the count is their number, the call set holds each of them once. *)
Lemma foldl_bump_entry ds :
  forall entry,
    ds <> [] \/ is_Some entry ->
    exists v, foldl bump_entry entry ds = Some v
      /\ m_count v = from_option m_count 0 entry + length ds
      /\ (from_option (fun w => NoDup (m_calls w)) True entry
          -> NoDup (m_calls v))
      /\ (forall d, d ∈ m_calls v
                    <-> d ∈ from_option m_calls [] entry \/ d ∈ ds).
Proof.
  induction ds as [|d ds IH]; intros entry Hne; simpl.
  - destruct Hne as [|[v ->]]; [done|]. exists v. simpl.
    split_and!; [done|lia|done|].
    intros d. split; [by left|]. intros [H|H]; [done|]. by inversion H.
  - destruct (IH (bump_entry entry d)) as (v & Hv & Hc & Hnd & Hin).
    { right. by eexists. }
    exists v. split; [done|]. destruct entry as [w|]; simpl in *.
    + split_and!.
      * lia.
      * intros Hw. by apply Hnd, set_add_NoDup.
      * intros x. rewrite Hin, elem_of_set_add, elem_of_cons. tauto.
    + split_and!.
      * lia.
      * intros _. apply Hnd, NoDup_singleton.
      * intros x. rewrite Hin, list_elem_of_singleton, elem_of_cons.
        split; [intros [H|H]; right; tauto|].
        intros [H|H]; [by inversion H|tauto].
Qed.

Lemma foldl_bump_entry_nil_None : foldl bump_entry None [] = None.
Proof. done. Qed.

(** The entry of a key in the settled edge map. *)
Lemma settled_entry k calls :
  (descs_of k calls = []
   /\ em_get k (foldl register_call [] calls) = None)
  \/ (exists v, em_get k (foldl register_call [] calls) = Some v
        /\ m_count v = length (descs_of k calls)
        /\ 0 < m_count v
        /\ NoDup (m_calls v)
        /\ forall d, d ∈ m_calls v <-> d ∈ descs_of k calls).
Proof.
  rewrite em_get_foldl_register. simpl.
  destruct (descs_of k calls) as [|d ds] eqn:E; [by left|].
  right. destruct (foldl_bump_entry (d :: ds) None) as (v & Hv & Hc & Hnd & Hin).
  { by left. }
  exists v. simpl in *. split_and!; [done|lia|lia|by apply Hnd|].
  intros x. rewrite Hin. split; [|by right]. intros [H|H]; [|done].
  by inversion H.
Qed.

Lemma weights_keys (m : EdgeMap) : map fst (weights m) = map fst m.
Proof. unfold weights. rewrite map_map. by apply map_ext. Qed.

Lemma elem_of_weights k c (m : EdgeMap) :
  NoDup (map fst m) ->
  (k, c) ∈ weights m <-> exists v, em_get k m = Some v /\ m_count v = c.
Proof.
  intros Hnd. unfold weights. split.
  - intros H. apply (list_elem_of_fmap_1 _) in H as ([k' v] & [= -> ->] & Hin).
    exists v. split; [|done]. by apply em_get_Some.
  - intros (v & Hv & <-). apply em_get_Some in Hv; [|done].
    by apply (list_elem_of_fmap_2 (fun entry => (fst entry, m_count (snd entry)))
                _ (k, v)).
Qed.

Lemma descs_of_Permutation k calls1 calls2 :
  calls1 ≡ₚ calls2 -> descs_of k calls1 ≡ₚ descs_of k calls2.
Proof. intros H. unfold descs_of. by rewrite H. Qed.

(** The weights do not depend on the order in which the calls are
    registered. *)
Lemma weights_Permutation calls1 calls2 :
  calls1 ≡ₚ calls2 ->
  weights (foldl register_call [] calls1)
  ≡ₚ weights (foldl register_call [] calls2).
Proof.
  intros Hp.
  assert (Hnd : forall calls,
            NoDup (map fst (foldl register_call [] calls))).
  { intros calls. apply foldl_register_NoDup. constructor. }
  assert (Hhalf : forall c1 c2, c1 ≡ₚ c2 -> forall x,
            x ∈ weights (foldl register_call [] c1)
            -> x ∈ weights (foldl register_call [] c2)).
  { intros c1 c2 Hc [k c] Hx.
    apply elem_of_weights in Hx as (v & Hv & Hcount); [|done].
    apply elem_of_weights; [done|].
    pose proof (descs_of_Permutation k c1 c2 Hc) as Hd.
    destruct (settled_entry k c1) as [[_ Hn]|(v1 & Hv1 & Hc1 & Hpos & _)];
      [congruence|].
    destruct (settled_entry k c2) as [[He _]|(v2 & Hv2 & Hc2 & _)].
    - rewrite He in Hd. apply Permutation_nil_r in Hd.
      rewrite Hd in Hc1. simpl in Hc1. lia.
    - exists v2. split; [done|].
      rewrite Hc2, <- Hd, <- Hc1. congruence. }
  apply NoDup_Permutation.
  - apply (NoDup_fmap_1 fst). change (fst <$> ?l) with (map fst l).
    by rewrite weights_keys.
  - apply (NoDup_fmap_1 fst). change (fst <$> ?l) with (map fst l).
    by rewrite weights_keys.
  - intros x. split; apply Hhalf; done.
Qed.

(** The call set of a key holds the same descriptions in both orders. *)
Lemma call_sets_Permutation k calls1 calls2 v1 v2 :
  calls1 ≡ₚ calls2 ->
  em_get k (foldl register_call [] calls1) = Some v1 ->
  em_get k (foldl register_call [] calls2) = Some v2 ->
  m_calls v1 ≡ₚ m_calls v2.
Proof.
  intros Hp H1 H2.
  pose proof (descs_of_Permutation k _ _ Hp) as Hd.
  destruct (settled_entry k calls1) as [[_ Hn]|(w1 & Hw1 & _ & _ & Hnd1 & Hin1)];
    [congruence|].
  destruct (settled_entry k calls2) as [[_ Hn]|(w2 & Hw2 & _ & _ & Hnd2 & Hin2)];
    [congruence|].
  simplify_eq. apply NoDup_Permutation; [done|done|].
  intros d. rewrite Hin1, Hin2. by rewrite Hd.
Qed.

(** The weight view of the emitted edges is a function of the weights. *)
Lemma edge_weights_of_map (m : EdgeMap) :
  map edge_weight (edges_of_map m) = flat_map edges_of_weight (weights m).
Proof.
  unfold edges_of_map, weights.
  induction m as [|[k v] m IH]; simpl; [done|].
  rewrite map_app, IH. f_equal.
  unfold edges_of_weight, edge_of_entry. simpl.
  by destruct (negb _).
Qed.

End WeightFacts.

Section DeterminismFacts.

Import GraphService.

Variable basename : string -> string.

(** The edge map on which [generateGraph] ends is the registration of the
    resolved calls, in completion order. *)
Lemma final_edgeMap_calls files semanticMap virtualRootLabel includeFiles
    oracle schedule :
  final_edgeMap basename files semanticMap virtualRootLabel includeFiles
    oracle schedule
  = foldl register_call []
      (resolved_calls oracle
         (final_builder basename files semanticMap virtualRootLabel
            includeFiles)
         (schedule (b_callsPromises
                      (final_builder basename files semanticMap
                         virtualRootLabel includeFiles)))).
Proof. unfold final_edgeMap. cbv zeta. apply settle_calls. Qed.

Lemma generateGraph_edges files semanticMap virtualRootLabel includeFiles
    oracle schedule :
  g_edges (generateGraph basename files semanticMap virtualRootLabel
             includeFiles oracle schedule)
  = edges_of_map (final_edgeMap basename files semanticMap virtualRootLabel
                    includeFiles oracle schedule).
Proof. done. Qed.

(** Two assemblies of the same batch with the same collaborator answers,
    each run on its own from entry to return, whose call-hierarchy lookups
    complete in two different orders, give the same nodes, edge maps with
    the same weight per key, edges with the same ids, endpoints and labels
    up to their order, and, key by key, the same count and the same call
    descriptions up to their order. *)
Lemma isolated_assembly_is_deterministic (files : list FileEntry)
    (semanticMap : option (gmap string string))
    (virtualRootLabel : option string) (includeFiles : bool)
    (oracle : CallOracle) (schedule1 schedule2 : list Probe -> list Probe) :
  (forall l, schedule1 l ≡ₚ l) ->
  (forall l, schedule2 l ≡ₚ l) ->
  let g1 := generateGraph basename files semanticMap virtualRootLabel
              includeFiles oracle schedule1 in
  let g2 := generateGraph basename files semanticMap virtualRootLabel
              includeFiles oracle schedule2 in
  let m1 := final_edgeMap basename files semanticMap virtualRootLabel
              includeFiles oracle schedule1 in
  let m2 := final_edgeMap basename files semanticMap virtualRootLabel
              includeFiles oracle schedule2 in
  g_nodes g1 = g_nodes g2
  /\ map n_id (g_nodes g1) = map n_id (g_nodes g2)
  /\ weights m1 ≡ₚ weights m2
  /\ map snd (weights m1) ≡ₚ map snd (weights m2)
  /\ map edge_weight (g_edges g1) ≡ₚ map edge_weight (g_edges g2)
  /\ (forall k v1 v2, em_get k m1 = Some v1 -> em_get k m2 = Some v2 ->
        m_count v1 = m_count v2 /\ m_calls v1 ≡ₚ m_calls v2).
Proof.
  intros H1 H2 g1 g2 m1 m2.
  set (b := final_builder basename files semanticMap virtualRootLabel
              includeFiles).
  assert (Hcalls : resolved_calls oracle b (schedule1 (b_callsPromises b))
                   ≡ₚ resolved_calls oracle b (schedule2 (b_callsPromises b))).
  { unfold resolved_calls. apply Permutation_flat_map.
    by rewrite H1, H2. }
  assert (Hw : weights m1 ≡ₚ weights m2).
  { unfold m1, m2. rewrite !final_edgeMap_calls.
    by apply weights_Permutation. }
  split_and!.
  - unfold g1, g2. by rewrite !generateGraph_nodes.
  - unfold g1, g2. by rewrite !generateGraph_nodes.
  - done.
  - by apply Permutation_map.
  - unfold g1, g2. rewrite !generateGraph_edges, !edge_weights_of_map.
    by apply Permutation_flat_map.
  - intros k v1 v2 Hv1 Hv2. split.
    + assert (Hin : (k, m_count v1) ∈ weights m2).
      { rewrite <- Hw. apply elem_of_weights.
        - unfold m1. rewrite final_edgeMap_calls.
          apply foldl_register_NoDup. constructor.
        - by exists v1. }
      apply elem_of_weights in Hin as (v & Hv & Hc).
      * congruence.
      * unfold m2. rewrite final_edgeMap_calls.
        apply foldl_register_NoDup. constructor.
    + unfold m1, m2 in Hv1, Hv2. rewrite final_edgeMap_calls in Hv1, Hv2.
      by apply (call_sets_Permutation k _ _ v1 v2 Hcalls).
Qed.

(** *** Calls on the shared service *)

Lemma enter_alone oracle files semanticMap virtualRootLabel includeFiles sv :
  alone oracle
    (final_builder basename files semanticMap virtualRootLabel includeFiles)
    (length (sv_calls sv))
    (enter basename files semanticMap virtualRootLabel includeFiles sv).
Proof.
  unfold alone, enter. cbn [sv_nodeIdMap sv_calls]. split; [done|].
  exists [], (b_callsPromises
                (final_builder basename files semanticMap virtualRootLabel
                   includeFiles)).
  split; [|done]. by rewrite list_lookup_middle.
Qed.

Lemma complete_alone oracle b call sv c l :
  alone oracle b call sv -> alone oracle b call (complete oracle c l sv).
Proof.
  intros (Hidx & completed & pending & Hcall & Hperm). unfold complete.
  destruct (sv_calls sv !! c) as [cs|] eqn:Ec; [|by split; [|eauto]].
  destruct (c_pending cs !! l) as [p|] eqn:Ep; [|by split; [|eauto]].
  split; [done|]. cbn [sv_nodeIdMap sv_calls].
  destruct (decide (c = call)) as [->|Hne].
  - rewrite Hcall in Ec. injection Ec as <-. cbn in Ep |- *.
    exists (completed ++ [p]), (delete l pending). split.
    + rewrite list_lookup_insert_eq
        by (apply lookup_lt_is_Some; by rewrite Hcall).
      unfold settle. by rewrite foldl_snoc, Hidx.
    + rewrite <- Hperm, <- app_assoc. simpl.
      apply Permutation_app_head. symmetry. by apply delete_Permutation.
  - exists completed, pending. split; [|done].
    by rewrite list_lookup_insert_ne.
Qed.

Lemma completions_alone oracle b call events sv :
  Forall is_completion events ->
  alone oracle b call sv -> alone oracle b call (service_run basename oracle events sv).
Proof.
  intros Hev. revert sv. induction Hev as [|ev events Hc _ IH]; intros sv H;
    [done|].
  simpl. apply IH. destruct ev as [| c l]; [done|]. by apply complete_alone.
Qed.

(** A call during whose lookups no other call is entered, on whatever
    service and whatever the lookups of earlier calls that complete in
    between, returns what [generateGraph] returns, for the order in which
    its lookups have completed. *)
Lemma isolated_call_returns_generateGraph (oracle : CallOracle)
    (files : list FileEntry) (semanticMap : option (gmap string string))
    (virtualRootLabel : option string) (includeFiles : bool) (sv : Service)
    (events : list ServiceEvent) (g : GraphData) :
  Forall is_completion events ->
  returned
    (service_run basename oracle events
       (enter basename files semanticMap virtualRootLabel includeFiles sv))
    (length (sv_calls sv)) = Some g ->
  exists completion,
    completion
    ≡ₚ b_callsPromises
         (final_builder basename files semanticMap virtualRootLabel
            includeFiles)
    /\ g = generateGraph basename files semanticMap virtualRootLabel
             includeFiles oracle (fun _ => completion).
Proof.
  intros Hev Hret.
  destruct (completions_alone oracle _ _ events _ Hev
              (enter_alone oracle files semanticMap virtualRootLabel
                 includeFiles sv))
    as (_ & completed & pending & Hcall & Hperm).
  unfold returned in Hret. rewrite Hcall in Hret. cbn in Hret.
  destruct pending as [|p pending]; [|done].
  rewrite app_nil_r in Hperm. injection Hret as <-.
  exists completed. by split.
Qed.

(** Such a call does return: when its lookups complete one after the
    other, in the order of their start, it returns [generateGraph] for
    that order. *)
Lemma isolated_call_returns (oracle : CallOracle)
    (files : list FileEntry) (semanticMap : option (gmap string string))
    (virtualRootLabel : option string) (includeFiles : bool) (sv : Service) :
  let call := length (sv_calls sv) in
  let lookups :=
    length (b_callsPromises
              (final_builder basename files semanticMap virtualRootLabel
                 includeFiles)) in
  returned
    (service_run basename oracle (replicate lookups (Complete call 0))
       (enter basename files semanticMap virtualRootLabel includeFiles sv))
    call
  = Some (generateGraph basename files semanticMap virtualRootLabel
            includeFiles oracle (fun l => l)).
Proof.
  intros call lookups.
  set (b := final_builder basename files semanticMap virtualRootLabel
              includeFiles).
  assert (H : forall pending completed s,
    sv_nodeIdMap s = b_nodeIdMap b ->
    sv_calls s !! call
    = Some (mkPending (b_nodes b) (b_symbolOwnerMap b) pending
              (settle oracle b completed)) ->
    returned
      (service_run basename oracle (replicate (length pending) (Complete call 0)) s)
      call
    = Some (mkGraph (b_nodes b)
              (edges_of_map (settle oracle b (completed ++ pending))))).
  { induction pending as [|p pending IH]; intros completed s Hidx Hcall.
    - simpl. unfold returned. rewrite Hcall. cbn. by rewrite app_nil_r.
    - cbn [length replicate]. unfold service_run. cbn [foldl service_step].
      fold (service_run basename oracle).
      set (s' := complete oracle call 0 s).
      assert (Hs' : sv_nodeIdMap s' = b_nodeIdMap b
                    /\ sv_calls s' !! call
                       = Some (mkPending (b_nodes b) (b_symbolOwnerMap b)
                                 pending (settle oracle b (completed ++ [p])))).
      { unfold s', complete. rewrite Hcall. cbn. split; [done|].
        rewrite list_lookup_insert_eq
          by (apply lookup_lt_is_Some; by rewrite Hcall).
        unfold settle. by rewrite foldl_snoc, Hidx. }
      destruct Hs' as [Hidx' Hcall'].
      pose proof (IH (completed ++ [p]) s' Hidx' Hcall') as Hret.
      unfold service_run in Hret. rewrite Hret.
      by rewrite <- app_assoc. }
  unfold lookups. fold b.
  rewrite (H (b_callsPromises b) []).
  - done.
  - done.
  - unfold enter. cbn [sv_calls]. fold b. by rewrite list_lookup_middle.
Qed.

End DeterminismFacts.

(** C9, the run that fails it: the refresh assembles the graph of the two
    cached files, in which [main], [f] and [g] call [h].  Run on its own it
    returns three edges.  When the drill-down handler assembles the graph
    of [a.ts] alone while the refresh waits for its lookups, the field
    [_nodeIdMap] is cleared and holds the index of [a.ts] only; the lookups
    of the refresh then find no target, and the same batch, with the same
    collaborator answers, comes back with the same nodes and no edge.  The
    drill-down itself is not harmed, and a refresh assembled afterwards
    has its three edges again. *)
Theorem overlapping_call_loses_the_edges :
  let run events :=
    GraphService.service_run (fun p => p) Session.b_calls events
      GraphService.new_service in
  let on_its_own := run (Session.refresh_call :: Session.refresh_lookups) in
  let overlapped :=
    run (Session.refresh_call :: Session.drill_call
         :: Session.refresh_lookups
         ++ [GraphService.Complete 1 0; Session.refresh_call]
         ++ [GraphService.Complete 2 0; GraphService.Complete 2 0;
             GraphService.Complete 2 0; GraphService.Complete 2 0]) in
  exists g1 g2 g3,
    GraphService.returned on_its_own 0 = Some g1
    /\ GraphService.returned overlapped 0 = Some g2
    /\ GraphService.returned overlapped 2 = Some g3
    /\ g_nodes g2 = g_nodes g1
    /\ map (fun e => (e_source e, e_target e)) (g_edges g1)
       = [("file:///w/a.ts::main::0", "file:///w/b.ts::h::8");
          ("file:///w/b.ts::f::0", "file:///w/b.ts::h::8");
          ("file:///w/b.ts::g::4", "file:///w/b.ts::h::8")]
    /\ g_edges g2 = []
    /\ g3 = g1
    /\ GraphService.returned overlapped 1
       = Some (GraphService.generateGraph (fun p => p) [Session.a_ts] None
                 (Some "Execute a.ts") false Session.b_calls (fun l => l)).
Proof.
  eexists _, _, _. split_and!; try (vm_compute; reflexivity).
Qed.

(** The same batch as an isolated call: [generateGraph] on the refresh of
    the two cached files, with the lookups completing in creation order and
    in the reverse order; the two edge lists differ in order only. *)
Lemma isolated_assembly_is_deterministic_witness :
  let g1 := GraphService.generateGraph (fun p => p) [Session.b_ts] None None
              false Session.b_calls (fun l => l) in
  let g2 := GraphService.generateGraph (fun p => p) [Session.b_ts] None None
              false Session.b_calls (@rev GraphService.Probe) in
  (forall l : list GraphService.Probe, (fun l => l) l ≡ₚ l)
  /\ (forall l : list GraphService.Probe, rev l ≡ₚ l)
  /\ g_edges g1 <> g_edges g2
  /\ map GraphService.edge_weight (g_edges g1)
     ≡ₚ map GraphService.edge_weight (g_edges g2).
Proof.
  intros g1 g2.
  assert (H1 : forall l : list GraphService.Probe, (fun l => l) l ≡ₚ l)
    by reflexivity.
  assert (H2 : forall l : list GraphService.Probe, rev l ≡ₚ l).
  { intros l. symmetry. apply Permutation_rev. }
  split_and!; [exact H1|exact H2| |].
  - vm_compute. intros H. discriminate H.
  - destruct (isolated_assembly_is_deterministic (fun p => p) [Session.b_ts]
                None None false Session.b_calls (fun l => l)
                (@rev GraphService.Probe) H1 H2) as (_ & _ & _ & _ & H & _).
    exact H.
Defined.

Section OwnerFacts.

Import GraphService.

Variable basename : string -> string.

Lemma owners_resolve_push n b :
  owners_resolve b -> owners_resolve (push_node n b).
Proof.
  intros H k o Hk. simpl. rewrite map_app, elem_of_app. left.
  exact (H k o Hk).
Qed.

Lemma owners_resolve_set_owner k o b :
  o ∈ map n_id (b_nodes b) ->
  owners_resolve b -> owners_resolve (set_owner k o b).
Proof.
  intros Ho H k' o' Hk'. simpl in *.
  destruct (decide (k = k')) as [<-|Hne].
  - rewrite lookup_insert_eq in Hk'. by simplify_eq.
  - rewrite lookup_insert_ne in Hk' by done. exact (H k' o' Hk').
Qed.

Lemma assignOwner_symbol_resolve uri owner sub :
  forall b,
    owner ∈ map n_id (b_nodes b) ->
    owners_resolve b ->
    owners_resolve (assignOwner_symbol uri owner b sub).
Proof.
  induction sub as [name detail kind line selLine selChar children IH]
    using symbol_ind.
  intros b Ho Hb. simpl.
  set (b2 := set_owner _ _ _).
  assert (H2 : owner ∈ map n_id (b_nodes b2) /\ owners_resolve b2).
  { split; [done|]. by apply owners_resolve_set_owner. }
  revert H2. generalize b2. clear b b2 Ho Hb.
  induction IH as [|c children Hc _ IHc]; intros b [Ho Hb]; simpl; [done|].
  apply IHc. split.
  - by rewrite assignOwner_symbol_nodes.
  - by apply Hc.
Qed.

Lemma assignOwner_resolve uri owner subItems b :
  owner ∈ map n_id (b_nodes b) ->
  owners_resolve b ->
  owners_resolve (assignOwner uri owner subItems b).
Proof.
  unfold assignOwner. revert b.
  induction subItems as [|c subItems IH]; intros b Ho Hb; simpl; [done|].
  apply IH.
  - by rewrite assignOwner_symbol_nodes.
  - by apply assignOwner_symbol_resolve.
Qed.

Lemma own_direct_children_resolve uri owner children :
  forall b,
    owner ∈ map n_id (b_nodes b) ->
    owners_resolve b ->
    owners_resolve (foldl (own_direct_child uri owner) b children).
Proof.
  induction children as [|c children IH]; intros b Ho Hb; simpl; [done|].
  apply IH; [done|]. unfold own_direct_child. simpl.
  by apply owners_resolve_set_owner.
Qed.

Lemma elem_of_ids_push id n b :
  id ∈ map n_id (b_nodes b) -> id ∈ map n_id (b_nodes (push_node n b)).
Proof. intros H. simpl. rewrite map_app, elem_of_app. by left. Qed.

Lemma elem_of_ids_pushed n b :
  n_id n ∈ map n_id (b_nodes (push_node n b)).
Proof.
  simpl. rewrite map_app, elem_of_app. right. by apply list_elem_of_singleton.
Qed.

(** The nodes only grow along [processSymbol]. *)
Lemma processSymbol_ids_grow uri fileId includeFiles ownerId systemParentId
    b item id :
  id ∈ map n_id (b_nodes b) ->
  id ∈ map n_id (b_nodes (processSymbol uri fileId includeFiles ownerId
                             systemParentId b item)).
Proof.
  intros Hid. unfold processSymbol. simpl.
  destruct (is_class_like (sym_kind item)).
  - rewrite own_direct_children_nodes. simpl.
    rewrite map_app, elem_of_app. by left.
  - destruct (is_member_like (sym_kind item)); [|done].
    destruct (_ && _); rewrite assignOwner_nodes; simpl; [|done].
    rewrite map_app, elem_of_app. by left.
Qed.

(** One symbol keeps the owners resolvable, provided that the file node is
    there whenever file nodes are included. *)
Lemma processSymbol_resolve uri fileId includeFiles systemParentId b item :
  (includeFiles = true -> fileId ∈ map n_id (b_nodes b)) ->
  owners_resolve b ->
  owners_resolve (processSymbol uri fileId includeFiles fileId
                    systemParentId b item).
Proof.
  intros Hfile Hb. unfold processSymbol. simpl.
  destruct (is_class_like (sym_kind item)).
  - apply own_direct_children_resolve.
    + simpl. rewrite map_app, elem_of_app. right.
      by apply list_elem_of_singleton.
    + apply owners_resolve_set_owner.
      * simpl. rewrite map_app, elem_of_app. right.
        by apply list_elem_of_singleton.
      * by apply owners_resolve_push.
  - destruct (is_member_like (sym_kind item)); [|done].
    rewrite String.eqb_refl. simpl.
    destruct includeFiles; simpl.
    + apply assignOwner_resolve; [by apply Hfile|].
      apply owners_resolve_set_owner; [by apply Hfile|done].
    + apply assignOwner_resolve.
      * simpl. rewrite map_app, elem_of_app. right.
        by apply list_elem_of_singleton.
      * apply owners_resolve_set_owner.
        -- simpl. rewrite map_app, elem_of_app. right.
           by apply list_elem_of_singleton.
        -- by apply owners_resolve_push.
Qed.

Lemma processSymbols_resolve uri fileId includeFiles systemParentId items :
  forall b,
    (includeFiles = true -> fileId ∈ map n_id (b_nodes b)) ->
    owners_resolve b ->
    owners_resolve (processSymbols uri fileId includeFiles items fileId
                      systemParentId b).
Proof.
  unfold processSymbols.
  induction items as [|item items IH]; intros b Hfile Hb; simpl; [done|].
  apply IH.
  - intros Hi. by apply processSymbol_ids_grow, Hfile.
  - by apply processSymbol_resolve.
Qed.

Lemma alter_to_leaf_ids i (nodes : list RFNode) :
  map n_id (alter to_leaf i nodes) = map n_id nodes.
Proof.
  revert i. induction nodes as [|n nodes IH]; intros i; [done|].
  destruct i as [|i]; simpl; [done|].
  f_equal. apply IH.
Qed.

Lemma file_parent_resolve virtualRootLabel semanticMap fsPath b :
  owners_resolve b ->
  owners_resolve (snd (file_parent virtualRootLabel semanticMap fsPath b)).
Proof.
  intros Hb. unfold file_parent.
  destruct semanticMap as [sm|]; [|done].
  destruct (sm !! fsPath) as [moduleName|]; [|done]. simpl.
  destruct (b_moduleGroups b !! moduleName); [done|].
  intros k o Hk. simpl in *. rewrite map_app, elem_of_app. left.
  exact (Hb k o Hk).
Qed.

Lemma processFile_resolve virtualRootLabel semanticMap includeFiles b file :
  owners_resolve b ->
  owners_resolve (processFile basename virtualRootLabel semanticMap
                    includeFiles b file).
Proof.
  intros Hb. unfold processFile.
  pose proof (file_parent_resolve virtualRootLabel semanticMap
                (doc_fsPath (f_document file)) b Hb) as Hp.
  destruct (file_parent _ _ _ b) as [parentId b1]. simpl in Hp.
  set (fileId := "file-" +:+ doc_uri (f_document file)).
  set (b2 := set_hasChildren false _).
  assert (H2 : (includeFiles = true -> fileId ∈ map n_id (b_nodes b2))
               /\ owners_resolve b2).
  { unfold b2. destruct includeFiles; simpl.
    - split.
      + intros _. rewrite map_app, elem_of_app. right.
        by apply list_elem_of_singleton.
      + intros k o Hk. simpl in *. rewrite map_app, elem_of_app. left.
        exact (Hp k o Hk).
    - split; [done|]. exact Hp. }
  destruct H2 as [Hfile H2].
  pose proof (processSymbols_resolve (doc_uri (f_document file)) fileId
                includeFiles (JS.or_else parentId ROOT_ID)
                (f_symbols file) b2 Hfile H2) as H3.
  destruct (includeFiles && negb _); [|done].
  intros k o Hk. simpl in *. rewrite alter_to_leaf_ids. exact (H3 k o Hk).
Qed.

(** In every graph that [generateGraph] returns, each owner recorded in
    the owner map is the id of a node of the graph. *)
Lemma owners_resolve_to_nodes (files : list FileEntry)
    (semanticMap : option (gmap string string))
    (virtualRootLabel : option string) (includeFiles : bool)
    (oracle : CallOracle) (schedule : list Probe -> list Probe)
    (k o : string) :
  b_symbolOwnerMap
    (final_builder basename files semanticMap virtualRootLabel includeFiles)
    !! k = Some o ->
  o ∈ map n_id (g_nodes (generateGraph basename files semanticMap
                           virtualRootLabel includeFiles oracle schedule)).
Proof.
  unfold final_builder. rewrite startCalls_owners.
  unfold generateGraph. cbn [g_nodes]. rewrite startCalls_nodes.
  revert k o. change (owners_resolve (createNodes basename files semanticMap
                                        virtualRootLabel includeFiles)).
  unfold createNodes.
  apply foldl_invariant.
  - apply Forall_forall. intros file _ b. apply processFile_resolve.
  - destruct virtualRootLabel as [l|]; [|done].
    destruct (JS.truthy (Some l)); [|done].
    apply owners_resolve_push. done.
Qed.

End OwnerFacts.

(** C1, the input that fails it: class [A], its method [m], and a function
    [helper] nested in [m].  [helper] is a callable entity of the batch
    (the second pass visits it), yet the owner map has no entry for it,
    with or without file nodes: the class branch of [processSymbols] maps
    the direct children of a class only.  The call of [helper] to [B.n]
    that the collaborator reports therefore leaves no edge.  The function
    branch does map nested symbols: with a top-level function [outer] in
    place of [A.m], [helper] is owned by [outer] and the edge to [B]
    appears.

    The fallback container is not a node either: in the flattened graph of
    a file that has neither a module nor a virtual root, the component is
    parented to ["root-system"], and no node has that id; the webview then
    hides the component. *)
Theorem nested_member_of_class_has_no_owner :
  let id := GraphService.symbol_id "file:///w/c.ts" Session.helper in
  let full := GraphService.final_builder (fun p => p) [Session.c_ts] None
                None true in
  let flat := GraphService.final_builder (fun p => p) [Session.c_ts] None
                None false in
  let sibling := GraphService.final_builder (fun p => p)
                   [Session.c_ts_function] None None false in
  id ∈ GraphService.b_visitedSymbols full
  /\ GraphService.b_symbolOwnerMap full !! id = None
  /\ GraphService.b_symbolOwnerMap flat !! id = None
  /\ g_edges (GraphService.generateGraph (fun p => p) [Session.c_ts] None None
                true Session.c_calls (fun l => l)) = []
  /\ g_edges (GraphService.generateGraph (fun p => p) [Session.c_ts] None None
                false Session.c_calls (fun l => l)) = []
  /\ GraphService.b_symbolOwnerMap sibling !! id
     = Some "file:///w/c.ts::outer::0"
  /\ map (fun e => (e_source e, e_target e))
       (g_edges (GraphService.generateGraph (fun p => p)
                   [Session.c_ts_function] None None false Session.c_calls
                   (fun l => l)))
     = [("file:///w/c.ts::outer::0", "file:///w/c.ts::B::10")]
  /\ map (fun n => (n_id n, n_parentNode n)) (g_nodes Session.ungrouped)
     = [("file:///w/a.ts::main::0", Some "root-system")]
  /\ map Webview.ln_hidden
       (Webview.s_nodes
          (Session.run0
             [Webview.Receive (Webview.UpdateGraph Session.ungrouped None)]))
     = [true].
Proof.
  split_and!; by vm_compute.
Qed.

(** C2, the input that fails it: the flattened graph of a file whose
    function [operator|] calls the functions [f] and [g].  The owner of
    the caller holds a bar, so cutting the keys of the edge map at the bars
    gives, for both entries, the source ["...::operator"] and the target
    ["::0"]: two edges share one ordered pair, and neither endpoint is the
    id of a node. *)
Theorem bar_in_owner_id_duplicates_edges :
  let g := GraphService.generateGraph (fun p => p) [Session.d_cpp] None
             (Some "Core") false Session.d_calls (fun l => l) in
  map fst (GraphService.final_edgeMap (fun p => p) [Session.d_cpp] None
             (Some "Core") false Session.d_calls (fun l => l))
  = ["file:///w/d.cpp::operator|::0|file:///w/d.cpp::f::4";
     "file:///w/d.cpp::operator|::0|file:///w/d.cpp::g::8"]
  /\ map (fun e => (e_source e, e_target e)) (g_edges g)
     = [("file:///w/d.cpp::operator", "::0");
        ("file:///w/d.cpp::operator", "::0")]
  /\ ~ NoDup (map (fun e => (e_source e, e_target e)) (g_edges g))
  /\ Forall (fun e => (e_source e ∉ map n_id (g_nodes g))
                      /\ (e_target e ∉ map n_id (g_nodes g))) (g_edges g).
Proof.
  split_and!; try (by vm_compute).
  - intros H. apply (bool_decide_pack _) in H. by vm_compute in H.
  - apply (bool_decide_unpack _). by vm_compute.
Qed.

(** C8, witness: the file [Session.e_ts], one function and one constant,
    drilled into under the label of its step. *)
Lemma flattened_members_become_components_witness :
  Forall (fun item => GraphService.is_class_like (GraphService.sym_kind item)
                      = false)
    (GraphService.f_symbols Session.e_ts)
  /\ filter (fun n => n_type n = Some "component")
       (g_nodes (GraphService.generateGraph (fun p => p) [Session.e_ts] None
                   (Some "Execute e.ts") false (fun _ _ _ => None)
                   (fun l => l)))
     = [GraphService.function_node "file:///w/e.ts::run::0" "root-system"
          (GraphService.mkSymbol "run" "" GraphService.SK_Function 0 0 9 []);
        GraphService.function_node "file:///w/e.ts::LIMIT::4" "root-system"
          (GraphService.mkSymbol "LIMIT" "" GraphService.SK_Constant 4 4 6 [])].
Proof.
  assert (H : Forall (fun item => GraphService.is_class_like
                                    (GraphService.sym_kind item) = false)
                (GraphService.f_symbols Session.e_ts)).
  { repeat constructor. }
  split; [exact H|].
  destruct (flattened_members_become_components (fun p => p)
              (GraphService.mkDocument "file:///w/e.ts" "/w/e.ts")
              (GraphService.f_symbols Session.e_ts) None (Some "Execute e.ts")
              (fun _ _ _ => None) (fun l => l) H) as (_ & Hc & _).
  exact Hc.
Defined.

(** C8, counterexample: [Session.e_ts] holds one top-level function and no
    class, and a top-level constant beside them, as the symbols that the
    drill-down handler loads may.  Its flattened graph holds two component
    nodes, not one: the constant is a component too. *)
Lemma top_level_constant_is_a_component :
  let symbols := GraphService.f_symbols Session.e_ts in
  let g := GraphService.generateGraph (fun p => p) [Session.e_ts] None
             (Some "Execute e.ts") false (fun _ _ _ => None) (fun l => l) in
  length (filter (fun item => GraphService.sym_kind item
                              = GraphService.SK_Function) symbols) = 1
  /\ length (filter (fun item => GraphService.sym_kind item
                                 = GraphService.SK_Class) symbols) = 0
  /\ length (filter (fun n => n_type n = Some "component") (g_nodes g)) = 2
  /\ map n_id (filter (fun n => n_type n = Some "component") (g_nodes g))
     = ["file:///w/e.ts::run::0"; "file:///w/e.ts::LIMIT::4"]
  /\ map (fun n => d_kind (n_data n))
       (filter (fun n => n_type n = Some "component") (g_nodes g))
     = [Some "Function"; Some "Constant"].
Proof. split_and!; by vm_compute. Qed.

Section BarFreeFacts.

Import GraphService.

Lemma append_cons c r t : String c r +:+ t = String c (r +:+ t).
Proof. done. Qed.

Lemma append_nil t : "" +:+ t = t.
Proof. done. Qed.

Lemma split_bar_free s : has_bar s = false -> JS.split "|" s = [s].
Proof.
  induction s as [|c s IH]; simpl; [done|].
  intros H. apply orb_false_iff in H as [Hc Hs].
  by rewrite Hc, IH.
Qed.

(** The key of two bar-free owners is cut back into the two owners. *)
Lemma split_key s t :
  has_bar s = false -> has_bar t = false ->
  JS.split "|" (s +:+ "|" +:+ t) = [s; t].
Proof.
  intros Hs Ht. induction s as [|c s IH].
  - rewrite append_nil. change ("|" +:+ t) with (String "|" t).
    simpl. by rewrite split_bar_free.
  - simpl in Hs. apply orb_false_iff in Hs as [Hc Hs].
    rewrite append_cons. simpl. by rewrite Hc, IH.
Qed.

Lemma key_inj s t s' t' :
  has_bar s = false -> has_bar t = false ->
  has_bar s' = false -> has_bar t' = false ->
  s +:+ "|" +:+ t = s' +:+ "|" +:+ t' -> s = s' /\ t = t'.
Proof.
  intros Hs Ht Hs' Ht' H.
  assert (Hsplit : JS.split "|" (s +:+ "|" +:+ t)
                   = JS.split "|" (s' +:+ "|" +:+ t')) by (by rewrite H).
  rewrite !split_key in Hsplit by done. by simplify_eq.
Qed.

Lemma edge_of_bar_free_entry s t meta :
  has_bar s = false -> has_bar t = false -> s <> t ->
  edge_of_entry (s +:+ "|" +:+ t, meta) = [edge_between s t meta].
Proof.
  intros Hs Ht Hne. unfold edge_of_entry. rewrite split_key by done. simpl.
  apply String.eqb_neq in Hne. by rewrite Hne.
Qed.

(** A resolved call goes from one owner to another one. *)
Lemma resolve_call_distinct nodeIdMap ownerMap p call rc :
  resolve_call nodeIdMap ownerMap p call = Some rc ->
  rc_source rc <> rc_target rc.
Proof.
  unfold resolve_call. destruct (JS.truthy (nodeIdMap !! _)); [|done].
  destruct (JS.truthy (ownerMap !! _)); [|done]. simpl.
  destruct (String.eqb _ _) eqn:E; [done|]. simpl.
  intros [= <-]. simpl. by apply String.eqb_neq.
Qed.

Lemma resolved_calls_distinct oracle b completion :
  Forall (fun rc => rc_source rc <> rc_target rc)
    (resolved_calls oracle b completion).
Proof.
  unfold resolved_calls. apply Forall_forall. intros rc Hrc.
  apply list_elem_of_In, in_flat_map in Hrc as (p & _ & Hrc).
  apply list_elem_of_In in Hrc. unfold probe_calls in Hrc.
  destruct (oracle _ _ _) as [outgoing|]; [|by inversion Hrc].
  apply list_elem_of_omap in Hrc as (call & _ & Hcall).
  by eapply resolve_call_distinct.
Qed.

(** The keys of the settled edge map are the keys of the calls. *)
Lemma settled_keys k calls :
  k ∈ map fst (foldl register_call [] calls)
  <-> exists rc, rc ∈ calls /\ rc_key rc = k.
Proof.
  destruct (settled_entry k calls) as [[Hd Hn]|(v & Hv & _)].
  - apply em_get_None in Hn. split; [done|].
    intros (rc & Hrc & Hk). exfalso.
    assert (Hin : rc_desc rc ∈ descs_of k calls).
    { unfold descs_of. apply (list_elem_of_fmap_2 rc_desc).
      by apply list_elem_of_filter. }
    rewrite Hd in Hin. by inversion Hin.
  - split.
    + intros _. destruct (descs_of k calls) as [|d ds] eqn:E.
      { rewrite em_get_foldl_register, E in Hv. done. }
      assert (Hin : d ∈ descs_of k calls) by (rewrite E; left).
      unfold descs_of in Hin.
      apply (list_elem_of_fmap_1 _) in Hin as (rc & _ & Hrc).
      apply list_elem_of_filter in Hrc as [Hk Hrc]. by exists rc.
    + intros _. destruct (decide (k ∈ map fst (foldl register_call [] calls)))
        as [|Hn]; [done|].
      apply em_get_None in Hn. congruence.
Qed.

(** The calls registered under the key of two bar-free owners are the
    calls between these owners. *)
Lemma descs_of_key s t calls :
  has_bar s = false -> has_bar t = false ->
  Forall (fun rc => has_bar (rc_source rc) = false
                    /\ has_bar (rc_target rc) = false) calls ->
  descs_of (s +:+ "|" +:+ t) calls = map rc_desc (calls_between s t calls).
Proof.
  intros Hs Ht Hall. unfold descs_of, calls_between. f_equal.
  induction Hall as [|rc calls [H1 H2] _ IH]; [done|].
  rewrite !filter_cons, IH.
  destruct (decide (rc_key rc = s +:+ "|" +:+ t)) as [Hk|Hk].
  - apply key_inj in Hk as [<- <-]; [|done..]. by rewrite decide_True.
  - rewrite decide_False; [done|]. intros [<- <-]. by apply Hk.
Qed.

(** When no owner id holds a bar, the emitted edges are as the edge
    aggregator is meant to give them: one edge per ordered pair of owners
    with a resolved call between them, never a self-loop; the count kept
    for the pair is the number of these calls, and the call set holds each
    distinct description once. *)
Lemma edges_of_bar_free_owners (calls : list ResolvedCall) :
  Forall (fun rc => has_bar (rc_source rc) = false
                    /\ has_bar (rc_target rc) = false) calls ->
  Forall (fun rc => rc_source rc <> rc_target rc) calls ->
  let m := foldl register_call [] calls in
  let edges := edges_of_map m in
  NoDup (map (fun e => (e_source e, e_target e)) edges)
  /\ Forall (fun e => e_source e <> e_target e) edges
  /\ forall s t, has_bar s = false -> has_bar t = false ->
       let between := calls_between s t calls in
       (between = [] ->
          forall e, e ∈ edges -> (e_source e, e_target e) <> (s, t))
       /\ (between <> [] ->
             exists v, em_get (s +:+ "|" +:+ t) m = Some v
               /\ m_count v = length between
               /\ NoDup (m_calls v)
               /\ (forall d, d ∈ m_calls v <-> d ∈ map rc_desc between)
               /\ edge_between s t v ∈ edges).
Proof.
  intros Hbar Hne m edges.
  assert (Hnd : NoDup (map fst m)).
  { apply foldl_register_NoDup. constructor. }
  (* every entry is the key of two distinct bar-free owners *)
  assert (Hentry : forall k v, (k, v) ∈ m ->
            exists s t, k = s +:+ "|" +:+ t /\ has_bar s = false
                        /\ has_bar t = false /\ s <> t).
  { intros k v Hkv.
    assert (Hk : k ∈ map fst m) by (by apply (list_elem_of_fmap_2 fst) in Hkv).
    apply settled_keys in Hk as (rc & Hrc & <-).
    rewrite Forall_forall in Hbar, Hne.
    destruct (Hbar rc Hrc) as [H1 H2].
    exists (rc_source rc), (rc_target rc). split_and!; [done..|].
    by apply Hne. }
  (* hence the edges are one per entry *)
  assert (Hedges : forall e, e ∈ edges <->
            exists s t v, (s +:+ "|" +:+ t, v) ∈ m /\ has_bar s = false
                          /\ has_bar t = false /\ s <> t
                          /\ e = edge_between s t v).
  { intros e. unfold edges, edges_of_map.
    rewrite list_elem_of_In, in_flat_map. split.
    - intros ([k v] & Hkv & He). apply list_elem_of_In in Hkv.
      destruct (Hentry k v Hkv) as (s & t & -> & Hs & Ht & Hst).
      rewrite edge_of_bar_free_entry in He by done.
      destruct He as [<-|[]]. by exists s, t, v.
    - intros (s & t & v & Hkv & Hs & Ht & Hst & ->).
      exists (s +:+ "|" +:+ t, v). split; [by apply list_elem_of_In|].
      rewrite edge_of_bar_free_entry by done. by left. }
  split_and!.
  - unfold edges, edges_of_map. clear Hedges.
    assert (Hm : Forall (fun kv => exists s t, fst kv = s +:+ "|" +:+ t
                           /\ has_bar s = false /\ has_bar t = false
                           /\ s <> t) m).
    { apply Forall_forall. intros [k v] Hkv. by apply (Hentry k v). }
    clear Hentry. revert Hnd Hm. generalize m. clear.
    induction m as [|[k v] m IH]; intros Hnd Hm; [constructor|].
    simpl in Hnd. cbn [flat_map].
    apply NoDup_cons in Hnd as [Hk Hnd].
    apply Forall_cons in Hm as [(s & t & Hkey & Hs & Ht & Hst) Hm].
    simpl in Hkey. subst k. rewrite edge_of_bar_free_entry by done.
    cbn [app map]. apply NoDup_cons. split; [|by apply IH].
    intros Hin. apply Hk.
    apply (list_elem_of_fmap_1 _) in Hin as (e & He & Hin).
    apply list_elem_of_In, in_flat_map in Hin as ([k' v'] & Hkv' & He').
    rewrite Forall_forall in Hm.
    apply list_elem_of_In in Hkv'.
    destruct (Hm _ Hkv') as (s' & t' & Hkey' & Hs' & Ht' & Hst').
    simpl in Hkey'. subst k'.
    rewrite edge_of_bar_free_entry in He' by done.
    destruct He' as [<-|[]]. simpl in He. simplify_eq.
    by apply (list_elem_of_fmap_2 fst) in Hkv'.
  - apply Forall_forall. intros e He.
    apply Hedges in He as (s & t & v & _ & _ & _ & Hst & ->). done.
  - intros s t Hs Ht between. unfold between. clear between. split.
    + intros Hempty e He Hpair.
      apply Hedges in He as (s' & t' & v & Hkv & Hs' & Ht' & Hst & ->).
      simpl in Hpair. simplify_eq.
      assert (Hk : s +:+ "|" +:+ t ∈ map fst m)
        by (by apply (list_elem_of_fmap_2 fst) in Hkv).
      apply settled_keys in Hk as (rc & Hrc & Hkey).
      rewrite Forall_forall in Hbar. destruct (Hbar rc Hrc) as [H1 H2].
      apply key_inj in Hkey as [<- <-]; [|done..].
      assert (Hin : rc ∈ calls_between (rc_source rc) (rc_target rc) calls).
      { unfold calls_between. by apply list_elem_of_filter. }
      rewrite Hempty in Hin. by inversion Hin.
    + intros Hsome.
      destruct (settled_entry (s +:+ "|" +:+ t) calls)
        as [[Hd _]|(v & Hv & Hc & _ & Hndv & Hin)].
      { rewrite descs_of_key in Hd by done.
        apply fmap_nil_inv in Hd. done. }
      rewrite descs_of_key in Hc, Hin by done.
      rewrite length_map in Hc.
      exists v. split_and!; [done..|].
      apply Hedges. exists s, t, v. split_and!; [by apply em_get_Some|done..| |done].
      destruct (calls_between s t calls) as [|rc rest] eqn:E; [done|].
      assert (Hrc : rc ∈ calls_between s t calls).
      { rewrite E. left. }
      unfold calls_between in Hrc.
      apply list_elem_of_filter in Hrc as [[<- <-] Hrc].
      rewrite Forall_forall in Hne. by apply Hne.
Qed.

End BarFreeFacts.

(** The same, for the edges that [generateGraph] returns. *)
Lemma generateGraph_edges_of_bar_free_owners (basename : string -> string)
    (files : list GraphService.FileEntry)
    (semanticMap : option (gmap string string))
    (virtualRootLabel : option string) (includeFiles : bool)
    (oracle : GraphService.CallOracle)
    (schedule : list GraphService.Probe -> list GraphService.Probe) :
  let b := GraphService.final_builder basename files semanticMap
             virtualRootLabel includeFiles in
  let calls := GraphService.resolved_calls oracle b
                 (schedule (GraphService.b_callsPromises b)) in
  let edges := g_edges (GraphService.generateGraph basename files semanticMap
                          virtualRootLabel includeFiles oracle schedule) in
  Forall (fun rc => GraphService.has_bar (GraphService.rc_source rc) = false
                    /\ GraphService.has_bar (GraphService.rc_target rc) = false)
    calls ->
  NoDup (map (fun e => (e_source e, e_target e)) edges)
  /\ Forall (fun e => e_source e <> e_target e) edges
  /\ forall s t,
       GraphService.has_bar s = false -> GraphService.has_bar t = false ->
       (GraphService.calls_between s t calls = [] ->
          forall e, e ∈ edges -> (e_source e, e_target e) <> (s, t))
       /\ (GraphService.calls_between s t calls <> [] ->
             exists v,
               GraphService.em_get (s +:+ "|" +:+ t)
                 (GraphService.final_edgeMap basename files semanticMap
                    virtualRootLabel includeFiles oracle schedule) = Some v
               /\ GraphService.m_count v
                  = length (GraphService.calls_between s t calls)
               /\ NoDup (GraphService.m_calls v)
               /\ (forall d, d ∈ GraphService.m_calls v
                     <-> d ∈ map GraphService.rc_desc
                               (GraphService.calls_between s t calls))
               /\ GraphService.edge_between s t v ∈ edges).
Proof.
  intros b calls edges Hbar. unfold edges.
  rewrite generateGraph_edges, final_edgeMap_calls.
  apply edges_of_bar_free_owners; [done|].
  apply resolved_calls_distinct.
Qed.

Section CoverageFacts.

Import GraphService.

Variable basename : string -> string.

Lemma owners_grow_refl b : owners_grow b b.
Proof. by intros id. Qed.

Lemma owners_grow_trans b1 b2 b3 :
  owners_grow b1 b2 -> owners_grow b2 b3 -> owners_grow b1 b3.
Proof. intros H12 H23 id H. by apply H23, H12. Qed.

Lemma owners_grow_same b b' :
  b_symbolOwnerMap b' = b_symbolOwnerMap b -> owners_grow b b'.
Proof. intros H id. unfold owned. by rewrite H. Qed.

Lemma owners_grow_set_owner k o b : owners_grow b (set_owner k o b).
Proof.
  intros id [v Hv]. unfold owned. simpl.
  destruct (decide (k = id)) as [->|Hne].
  - rewrite lookup_insert_eq. by eexists.
  - rewrite lookup_insert_ne by done. by eexists.
Qed.

Lemma owned_set_owner k o b : owned (set_owner k o b) k.
Proof. unfold owned. simpl. rewrite lookup_insert_eq. by eexists. Qed.

Lemma foldl_owners_grow {B} (f : Builder -> B -> Builder) (l : list B) :
  (forall b x, owners_grow b (f b x)) ->
  forall b, owners_grow b (foldl f b l).
Proof.
  intros Hf. induction l as [|x l IH]; intros b; simpl.
  - apply owners_grow_refl.
  - eapply owners_grow_trans; [apply Hf|apply IH].
Qed.

(** Every symbol of the list is owned after the fold, when each step maps
    its own symbol and no step drops an owner. *)
Lemma foldl_owned {B} (f : Builder -> B -> Builder) (g : B -> list string)
    (l : list B) :
  (forall b x, owners_grow b (f b x)) ->
  (forall b x id, id ∈ g x -> owned (f b x) id) ->
  forall b x id, x ∈ l -> id ∈ g x -> owned (foldl f b l) id.
Proof.
  intros Hgrow Hown. induction l as [|y l IH]; intros b x id Hx Hid.
  - by inversion Hx.
  - simpl. apply elem_of_cons in Hx as [->|Hx].
    + apply (foldl_owners_grow f l Hgrow). by apply Hown.
    + by eapply IH.
Qed.

Lemma foldl_owners_grow_Forall {B} (f : Builder -> B -> Builder)
    (l : list B) :
  Forall (fun x => forall b, owners_grow b (f b x)) l ->
  forall b, owners_grow b (foldl f b l).
Proof.
  induction 1 as [|x l Hx _ IH]; intros b; simpl.
  - apply owners_grow_refl.
  - eapply owners_grow_trans; [apply Hx|apply IH].
Qed.

Lemma owners_grow_set_owner_after k o b b0 :
  b_symbolOwnerMap b0 = b_symbolOwnerMap b ->
  owners_grow b (set_owner k o b0).
Proof.
  intros H. apply (owners_grow_trans _ b0).
  - by apply owners_grow_same.
  - apply owners_grow_set_owner.
Qed.

Lemma assignOwner_symbol_grow uri owner sub :
  forall b, owners_grow b (assignOwner_symbol uri owner b sub).
Proof.
  induction sub as [name detail kind line selLine selChar children IH]
    using symbol_ind.
  intros b. simpl. set (b1 := set_owner _ _ _).
  apply (owners_grow_trans _ b1).
  - by apply owners_grow_set_owner_after.
  - by apply foldl_owners_grow_Forall.
Qed.

(** [assignOwner] maps the symbol it is given and every symbol below. *)
Lemma assignOwner_symbol_owned uri owner sub :
  forall b d, d ∈ all_symbols sub ->
    owned (assignOwner_symbol uri owner b sub) (symbol_id uri d).
Proof.
  induction sub as [name detail kind line selLine selChar children IH]
    using symbol_ind.
  intros b d Hd. simpl. set (b1 := set_owner _ _ _).
  simpl in Hd. apply elem_of_cons in Hd as [->|Hd].
  - apply (foldl_owners_grow _ children).
    + intros b' c. apply assignOwner_symbol_grow.
    + apply owned_set_owner.
  - apply list_elem_of_In, in_flat_map in Hd as (c & Hc & Hd).
    apply list_elem_of_In in Hc, Hd.
    generalize b1. clear b1.
    induction IH as [|c' children Hc' _ IHc]; intros b'; [by inversion Hc|].
    simpl. apply elem_of_cons in Hc as [->|Hc].
    + apply (foldl_owners_grow _ children).
      * intros b'' c''. apply assignOwner_symbol_grow.
      * by apply Hc'.
    + by apply IHc.
Qed.

Lemma assignOwner_grow uri owner subItems b :
  owners_grow b (assignOwner uri owner subItems b).
Proof.
  unfold assignOwner. apply foldl_owners_grow.
  intros b' c. apply assignOwner_symbol_grow.
Qed.

Lemma assignOwner_owned uri owner subItems b d :
  d ∈ flat_map all_symbols subItems ->
  owned (assignOwner uri owner subItems b) (symbol_id uri d).
Proof.
  intros Hd. apply list_elem_of_In, in_flat_map in Hd as (c & Hc & Hd).
  apply list_elem_of_In in Hc, Hd. unfold assignOwner.
  apply (foldl_owned _ (fun c => map (symbol_id uri) (all_symbols c))
           subItems) with (x := c); [| |done|].
  - intros b' c'. apply assignOwner_symbol_grow.
  - intros b' c' id Hid.
    apply (list_elem_of_fmap_1 _) in Hid as (d' & -> & Hd').
    by apply assignOwner_symbol_owned.
  - by apply (list_elem_of_fmap_2 (symbol_id uri)).
Qed.

Lemma own_direct_child_grow uri owner b child :
  owners_grow b (own_direct_child uri owner b child).
Proof.
  unfold own_direct_child. simpl. by apply owners_grow_set_owner_after.
Qed.

Lemma own_direct_children_owned uri owner children b child :
  child ∈ children ->
  owned (foldl (own_direct_child uri owner) b children) (symbol_id uri child).
Proof.
  intros Hc.
  apply (foldl_owned _ (fun c => [symbol_id uri c]) children) with (x := child);
    [| |done|by left].
  - intros b' c. apply own_direct_child_grow.
  - intros b' c id Hid. apply list_elem_of_singleton in Hid as ->.
    unfold own_direct_child. simpl. apply owned_set_owner.
Qed.

Lemma processSymbol_grow uri fileId includeFiles ownerId systemParentId b item :
  owners_grow b (processSymbol uri fileId includeFiles ownerId systemParentId
                   b item).
Proof.
  unfold processSymbol. simpl.
  destruct (is_class_like (sym_kind item)).
  - set (b1 := set_owner _ _ _). apply (owners_grow_trans _ b1).
    + by apply owners_grow_set_owner_after.
    + apply foldl_owners_grow. intros. apply own_direct_child_grow.
  - destruct (is_member_like (sym_kind item)); [|by apply owners_grow_same].
    destruct (_ && _).
    + set (b1 := set_owner _ _ _). apply (owners_grow_trans _ b1).
      * by apply owners_grow_set_owner_after.
      * apply assignOwner_grow.
    + set (b1 := set_owner _ _ _). apply (owners_grow_trans _ b1).
      * by apply owners_grow_set_owner_after.
      * apply assignOwner_grow.
Qed.

(** One iteration of [processSymbols] maps [mapped_symbols item]. *)
Lemma processSymbol_owned uri fileId includeFiles ownerId systemParentId b
    item d :
  d ∈ mapped_symbols item ->
  owned (processSymbol uri fileId includeFiles ownerId systemParentId b item)
    (symbol_id uri d).
Proof.
  unfold mapped_symbols, processSymbol. simpl.
  destruct (is_class_like (sym_kind item)).
  - intros Hd. apply elem_of_cons in Hd as [->|Hd].
    + apply (foldl_owners_grow _ (sym_children item)).
      * intros b' c. apply own_direct_child_grow.
      * apply owned_set_owner.
    + by apply own_direct_children_owned.
  - destruct (is_member_like (sym_kind item)); [|by inversion 1].
    intros Hd. destruct item as [name detail kind line selLine selChar children].
    simpl in Hd. apply elem_of_cons in Hd as [->|Hd].
    + destruct (_ && _); apply assignOwner_grow, owned_set_owner.
    + destruct (_ && _); by apply assignOwner_owned.
Qed.

Lemma processFile_grow virtualRootLabel semanticMap includeFiles b file :
  owners_grow b (processFile basename virtualRootLabel semanticMap
                   includeFiles b file).
Proof.
  unfold processFile.
  assert (Hp : b_symbolOwnerMap
                 (snd (file_parent virtualRootLabel semanticMap
                         (doc_fsPath (f_document file)) b))
               = b_symbolOwnerMap b).
  { unfold file_parent. destruct semanticMap as [sm|]; [|done].
    destruct (sm !! _) as [mn|]; [|done]. simpl.
    by destruct (b_moduleGroups b !! mn). }
  destruct (file_parent _ _ _ b) as [parentId b1]. simpl in Hp.
  set (b2 := set_hasChildren false _).
  assert (H2 : owners_grow b b2).
  { apply owners_grow_same. unfold b2. by destruct includeFiles. }
  assert (H3 : owners_grow b2
                 (processSymbols (doc_uri (f_document file))
                    ("file-" +:+ doc_uri (f_document file)) includeFiles
                    (f_symbols file) ("file-" +:+ doc_uri (f_document file))
                    (JS.or_else parentId ROOT_ID) b2)).
  { unfold processSymbols. apply foldl_owners_grow.
    intros b' item. apply processSymbol_grow. }
  destruct (includeFiles && negb _).
  - eapply owners_grow_trans; [exact H2|].
    eapply owners_grow_trans; [exact H3|]. by apply owners_grow_same.
  - eapply owners_grow_trans; [exact H2|exact H3].
Qed.

Lemma processFile_owned virtualRootLabel semanticMap includeFiles b file
    item d :
  item ∈ f_symbols file ->
  d ∈ mapped_symbols item ->
  owned (processFile basename virtualRootLabel semanticMap includeFiles b file)
    (symbol_id (doc_uri (f_document file)) d).
Proof.
  intros Hitem Hd. unfold processFile.
  destruct (file_parent _ _ _ b) as [parentId b1].
  set (b2 := set_hasChildren false _).
  assert (H3 : owned (processSymbols (doc_uri (f_document file))
                        ("file-" +:+ doc_uri (f_document file)) includeFiles
                        (f_symbols file)
                        ("file-" +:+ doc_uri (f_document file))
                        (JS.or_else parentId ROOT_ID) b2)
                 (symbol_id (doc_uri (f_document file)) d)).
  { unfold processSymbols.
    apply (foldl_owned _
             (fun item => map (symbol_id (doc_uri (f_document file)))
                            (mapped_symbols item))
             (f_symbols file)) with (x := item); [| |done|].
    - intros b' item'. apply processSymbol_grow.
    - intros b' item' id Hid.
      apply (list_elem_of_fmap_1 _) in Hid as (d' & -> & Hd').
      by apply processSymbol_owned.
    - by apply (list_elem_of_fmap_2 (symbol_id _)). }
  by destruct (includeFiles && negb _).
Qed.

(** What the owner map covers: for every file of the batch, every
    top-level class, interface, function, method, constant and variable,
    the direct children of the classes and interfaces, and all the symbols
    below the functions, methods, constants and variables. *)
Lemma mapped_symbols_are_owned (files : list FileEntry)
    (semanticMap : option (gmap string string))
    (virtualRootLabel : option string) (includeFiles : bool)
    (file : FileEntry) (item d : DocumentSymbol) :
  file ∈ files ->
  item ∈ f_symbols file ->
  d ∈ mapped_symbols item ->
  owned (final_builder basename files semanticMap virtualRootLabel
           includeFiles)
    (symbol_id (doc_uri (f_document file)) d).
Proof.
  intros Hfile Hitem Hd. unfold final_builder, owned.
  rewrite startCalls_owners. unfold createNodes.
  apply (foldl_owned _
           (fun file => flat_map
              (fun item => map (symbol_id (doc_uri (f_document file)))
                             (mapped_symbols item))
              (f_symbols file))
           files) with (x := file); [| |done|].
  - intros b f. apply processFile_grow.
  - intros b f id Hid.
    apply list_elem_of_In, in_flat_map in Hid as (item' & Hitem' & Hid).
    apply list_elem_of_In in Hitem', Hid.
    apply (list_elem_of_fmap_1 _) in Hid as (d' & -> & Hd').
    by eapply processFile_owned.
  - apply list_elem_of_In, in_flat_map. exists item.
    split; [by apply list_elem_of_In|].
    apply list_elem_of_In. by apply (list_elem_of_fmap_2 (symbol_id _)).
Qed.

End CoverageFacts.

(* ===================================================================== *)
(** * Further properties of the graph assembler *)
(* ===================================================================== *)

Section OwnershipProperties.

Import GraphService.

Variable basename : string -> string.

(** X1: every owner that [generateGraph] has recorded in its owner map
    when it returns is the id of a node of the graph it returns, in both
    views and whatever the grouping and the root label are. *)
Theorem every_owner_is_a_node (files : list FileEntry)
    (semanticMap : option (gmap string string))
    (virtualRootLabel : option string) (includeFiles : bool)
    (oracle : CallOracle) (schedule : list Probe -> list Probe)
    (symbolId owner : string) :
  b_symbolOwnerMap
    (final_builder basename files semanticMap virtualRootLabel includeFiles)
    !! symbolId = Some owner ->
  exists n,
    n ∈ g_nodes (generateGraph basename files semanticMap virtualRootLabel
                   includeFiles oracle schedule)
    /\ n_id n = owner.
Proof.
  intros H.
  apply (owners_resolve_to_nodes basename files semanticMap virtualRootLabel
           includeFiles oracle schedule) in H.
  apply (list_elem_of_fmap_1 _) in H as (n & -> & Hn). by exists n.
Qed.

(** X2: the first pass gives an owner to every top-level class,
    interface, function, method, constant and variable of every file of
    the batch, to the direct children of the classes and interfaces, and
    to every symbol below the functions, methods, constants and
    variables. *)
Theorem first_pass_owns_the_mapped_symbols (files : list FileEntry)
    (semanticMap : option (gmap string string))
    (virtualRootLabel : option string) (includeFiles : bool)
    (file : FileEntry) (item d : DocumentSymbol) :
  file ∈ files ->
  item ∈ f_symbols file ->
  d ∈ mapped_symbols item ->
  exists owner,
    b_symbolOwnerMap
      (final_builder basename files semanticMap virtualRootLabel
         includeFiles)
      !! symbol_id (doc_uri (f_document file)) d = Some owner.
Proof.
  intros Hfile Hitem Hd.
  exact (mapped_symbols_are_owned basename files semanticMap virtualRootLabel
           includeFiles file item d Hfile Hitem Hd).
Qed.

End OwnershipProperties.

(** X1, witness: the three functions of [b.ts] in the flattened view; [f]
    owns itself. *)
Lemma every_owner_is_a_node_witness :
  GraphService.b_symbolOwnerMap
    (GraphService.final_builder (fun p => p) [Session.b_ts] None None false)
    !! "file:///w/b.ts::f::0" = Some "file:///w/b.ts::f::0"
  /\ exists n,
       n ∈ g_nodes (GraphService.generateGraph (fun p => p) [Session.b_ts]
                      None None false Session.b_calls (fun l => l))
       /\ n_id n = "file:///w/b.ts::f::0".
Proof.
  assert (H : GraphService.b_symbolOwnerMap
                (GraphService.final_builder (fun p => p) [Session.b_ts] None
                   None false)
              !! "file:///w/b.ts::f::0" = Some "file:///w/b.ts::f::0")
    by (vm_compute; reflexivity).
  split; [exact H|].
  exact (every_owner_is_a_node (fun p => p) [Session.b_ts] None None false
           Session.b_calls (fun l => l) _ _ H).
Defined.

(** X2, witness: the method [m] of the class [A] of [c.ts] is a direct
    child of a top-level class. *)
Lemma first_pass_owns_the_mapped_symbols_witness :
  let m := GraphService.mkSymbol "m" "" GraphService.SK_Method 1 1 2
             [Session.helper] in
  let A := GraphService.mkSymbol "A" "" GraphService.SK_Class 0 0 6 [m] in
  Session.c_ts ∈ [Session.c_ts]
  /\ A ∈ GraphService.f_symbols Session.c_ts
  /\ m ∈ GraphService.mapped_symbols A
  /\ exists owner,
       GraphService.b_symbolOwnerMap
         (GraphService.final_builder (fun p => p) [Session.c_ts] None None
            true)
         !! GraphService.symbol_id "file:///w/c.ts" m = Some owner.
Proof.
  intros m A.
  assert (H1 : Session.c_ts ∈ [Session.c_ts]) by apply list_elem_of_here.
  assert (H2 : A ∈ GraphService.f_symbols Session.c_ts)
    by apply list_elem_of_here.
  assert (H3 : m ∈ GraphService.mapped_symbols A).
  { simpl. apply list_elem_of_further, list_elem_of_here. }
  split_and!; [exact H1|exact H2|exact H3|].
  exact (first_pass_owns_the_mapped_symbols (fun p => p) [Session.c_ts] None
           None true Session.c_ts A m H1 H2 H3).
Defined.

Section EdgeProperties.

Import GraphService GraphShape.

Variable basename : string -> string.

(** The first pass starts no lookup. *)
Lemma assignOwner_symbol_promises uri owner sub :
  forall b,
    b_callsPromises (assignOwner_symbol uri owner b sub) = b_callsPromises b.
Proof.
  induction sub as [name detail kind line selLine selChar children IH]
    using symbol_ind.
  intros b. simpl.
  by rewrite (foldl_preserves _ b_callsPromises children IH).
Qed.

Lemma processSymbol_promises uri fileId includeFiles ownerId systemParentId
    b item :
  b_callsPromises
    (processSymbol uri fileId includeFiles ownerId systemParentId b item)
  = b_callsPromises b.
Proof.
  unfold processSymbol. simpl.
  destruct (is_class_like (sym_kind item)).
  - rewrite (foldl_preserves _ b_callsPromises); [done|].
    apply Forall_forall. by intros child _ a.
  - destruct (is_member_like (sym_kind item)); [|done].
    destruct (_ && _); unfold assignOwner;
      (rewrite (foldl_preserves _ b_callsPromises); [done|]);
      apply Forall_forall; intros sub _ a; apply assignOwner_symbol_promises.
Qed.

Lemma file_parent_promises virtualRootLabel semanticMap fsPath b :
  b_callsPromises (snd (file_parent virtualRootLabel semanticMap fsPath b))
  = b_callsPromises b.
Proof.
  unfold file_parent. destruct semanticMap as [sm|]; [|done].
  destruct (sm !! fsPath) as [moduleName|]; [|done]. simpl.
  by destruct (b_moduleGroups b !! moduleName).
Qed.

Lemma processFile_promises virtualRootLabel semanticMap includeFiles b file :
  b_callsPromises
    (processFile basename virtualRootLabel semanticMap includeFiles b file)
  = b_callsPromises b.
Proof.
  unfold processFile.
  pose proof (file_parent_promises virtualRootLabel semanticMap
                (doc_fsPath (f_document file)) b) as Hp.
  destruct (file_parent _ _ _ b) as [parentId b1]. simpl in Hp.
  set (b2 := set_hasChildren false _).
  assert (H2 : b_callsPromises b2 = b_callsPromises b).
  { unfold b2. by destruct includeFiles. }
  set (b3 := processSymbols _ _ _ _ _ _ b2).
  assert (H3 : b_callsPromises b3 = b_callsPromises b).
  { unfold b3, processSymbols. rewrite (foldl_preserves _ b_callsPromises).
    - done.
    - apply Forall_forall. intros item _ a. apply processSymbol_promises. }
  by destruct (_ && _).
Qed.

Lemma createNodes_promises files semanticMap virtualRootLabel includeFiles :
  b_callsPromises
    (createNodes basename files semanticMap virtualRootLabel includeFiles)
  = [].
Proof.
  unfold createNodes. rewrite (foldl_preserves _ b_callsPromises).
  - destruct virtualRootLabel as [l|]; [|done].
    by destruct (JS.truthy (Some l)).
  - apply Forall_forall. intros file _ a. apply processFile_promises.
Qed.

Lemma start_aggregate_owned M uri symbol id b :
  promises_owned M b -> promises_owned M (start_aggregate uri symbol id b).
Proof.
  intros [HM Hp]. unfold start_aggregate.
  destruct (b_symbolOwnerMap b !! id) as [o|] eqn:E; simpl; [|done].
  destruct (String.eqb o "") eqn:Eo; simpl; [done|].
  destruct (is_callable (sym_kind symbol)); simpl; [|done].
  split; [done|]. simpl. apply Forall_app. split; [done|].
  apply Forall_singleton. simpl. exists id. by rewrite <- HM.
Qed.

Lemma processCalls_symbol_owned M uri item :
  forall b, promises_owned M b ->
            promises_owned M (processCalls_symbol uri b item).
Proof.
  induction item as [name detail kind line selLine selChar children IH]
    using symbol_ind.
  intros b Hb. simpl. destruct (bool_decide _); [done|].
  apply foldl_invariant; [exact IH|].
  apply start_aggregate_owned. done.
Qed.

Lemma startCalls_owned M files b :
  promises_owned M b -> promises_owned M (startCalls files b).
Proof.
  unfold startCalls. apply foldl_invariant, Forall_forall.
  intros file _ a Ha. unfold processFileCalls.
  destruct (negb (JS.truthy _)); [done|].
  unfold processCalls. apply foldl_invariant; [|done].
  apply Forall_forall. intros item _. apply processCalls_symbol_owned.
Qed.

Lemma final_promises_owned files semanticMap virtualRootLabel includeFiles :
  let b := final_builder basename files semanticMap virtualRootLabel
             includeFiles in
  Forall (fun p => exists k, b_symbolOwnerMap b !! k = Some (p_sourceOwnerId p))
    (b_callsPromises b).
Proof.
  intros b.
  assert (H : promises_owned
                (b_symbolOwnerMap
                   (createNodes basename files semanticMap virtualRootLabel
                      includeFiles)) b).
  { apply startCalls_owned. split; [done|].
    by rewrite createNodes_promises. }
  destruct H as [HM Hp]. by rewrite HM.
Qed.

(** The owners of a resolved call are values of the owner map. *)
Lemma resolve_call_owners nodeIdMap ownerMap p call rc :
  resolve_call nodeIdMap ownerMap p call = Some rc ->
  rc_source rc = p_sourceOwnerId p
  /\ exists k, ownerMap !! k = Some (rc_target rc).
Proof.
  unfold resolve_call.
  destruct (nodeIdMap !! _) as [t|]; simpl; [|done].
  destruct (String.eqb t ""); simpl; [done|].
  destruct (ownerMap !! t) as [o|] eqn:E; simpl; [|done].
  destruct (String.eqb o "") eqn:Eo; simpl; [done|].
  destruct (negb _); [|done].
  intros [= <-]. simpl. split; [done|]. by exists t.
Qed.

(** X3: when no owner of a resolved call holds a bar, the edges that
    [generateGraph] returns are exactly the aggregation of the resolved
    calls: at most one edge per ordered pair of owners, no edge from an
    owner to itself, no edge for a pair without a resolved call, and for a
    pair with resolved calls one edge whose count is the number of those
    calls and whose call list holds each distinct description once. *)
Theorem edges_aggregate_the_resolved_calls (files : list FileEntry)
    (semanticMap : option (gmap string string))
    (virtualRootLabel : option string) (includeFiles : bool)
    (oracle : CallOracle) (schedule : list Probe -> list Probe) :
  let b := final_builder basename files semanticMap virtualRootLabel
             includeFiles in
  let calls := resolved_calls oracle b (schedule (b_callsPromises b)) in
  let edges := g_edges (generateGraph basename files semanticMap
                          virtualRootLabel includeFiles oracle schedule) in
  Forall (fun rc => has_bar (rc_source rc) = false
                    /\ has_bar (rc_target rc) = false) calls ->
  NoDup (map (fun e => (e_source e, e_target e)) edges)
  /\ Forall (fun e => e_source e <> e_target e) edges
  /\ forall s t, has_bar s = false -> has_bar t = false ->
       (calls_between s t calls = [] ->
          forall e, e ∈ edges -> (e_source e, e_target e) <> (s, t))
       /\ (calls_between s t calls <> [] ->
             exists e, e ∈ edges
               /\ e_id e = "e-" +:+ s +:+ "-" +:+ t
               /\ e_source e = s /\ e_target e = t
               /\ e_label e
                  = (if (1 <? length (calls_between s t calls))%nat
                     then Some (pretty (length (calls_between s t calls))
                                +:+ " calls")
                     else None)
               /\ exists descs,
                    e_calls e = Some descs /\ NoDup descs
                    /\ forall d, d ∈ descs
                         <-> d ∈ map rc_desc (calls_between s t calls)).
Proof.
  intros b calls edges Hbar.
  destruct (generateGraph_edges_of_bar_free_owners basename files semanticMap
              virtualRootLabel includeFiles oracle schedule Hbar)
    as (Hnd & Hne & Hst).
  split_and!; [exact Hnd|exact Hne|].
  intros s t Hs Ht. destruct (Hst s t Hs Ht) as [H0 H1].
  split; [exact H0|].
  intros Hbetween. destruct (H1 Hbetween) as (v & _ & Hc & Hndv & Hd & He).
  exists (edge_between s t v). split; [exact He|].
  unfold edge_between. simpl. rewrite Hc.
  split_and!; try done. by exists (m_calls v).
Qed.

(** X4: when no owner of a resolved call holds a bar and the lookups
    complete in some order of their start, both ends of every edge that
    [generateGraph] returns are ids of nodes that it returns. *)
Theorem edges_connect_nodes_of_the_graph (files : list FileEntry)
    (semanticMap : option (gmap string string))
    (virtualRootLabel : option string) (includeFiles : bool)
    (oracle : CallOracle) (schedule : list Probe -> list Probe) :
  let b := final_builder basename files semanticMap virtualRootLabel
             includeFiles in
  let calls := resolved_calls oracle b (schedule (b_callsPromises b)) in
  let g := generateGraph basename files semanticMap virtualRootLabel
             includeFiles oracle schedule in
  (forall l, schedule l ≡ₚ l) ->
  Forall (fun rc => has_bar (rc_source rc) = false
                    /\ has_bar (rc_target rc) = false) calls ->
  forall e, e ∈ g_edges g ->
    e_source e ∈ map n_id (g_nodes g) /\ e_target e ∈ map n_id (g_nodes g).
Proof.
  intros b calls g Hsched Hbar e He.
  unfold g in He. rewrite generateGraph_edges, final_edgeMap_calls in He.
  fold b in He. fold calls in He.
  unfold edges_of_map in He.
  apply list_elem_of_In, in_flat_map in He as ([k v] & Hkv & He).
  apply list_elem_of_In in Hkv, He.
  assert (Hk : k ∈ map fst (foldl register_call [] calls)).
  { apply (list_elem_of_fmap_2 fst) in Hkv. exact Hkv. }
  apply settled_keys in Hk as (rc & Hrc & <-).
  rewrite Forall_forall in Hbar. destruct (Hbar rc Hrc) as [Hs Ht].
  assert (Hne : rc_source rc <> rc_target rc).
  { pose proof (resolved_calls_distinct oracle b (schedule (b_callsPromises b)))
      as Hd. rewrite Forall_forall in Hd. by apply Hd. }
  unfold rc_key in He. rewrite edge_of_bar_free_entry in He by done.
  apply list_elem_of_singleton in He as ->. simpl.
  unfold calls, resolved_calls in Hrc.
  apply list_elem_of_In, in_flat_map in Hrc as (p & Hp & Hrc).
  apply list_elem_of_In in Hp, Hrc.
  rewrite Hsched in Hp.
  unfold probe_calls in Hrc.
  destruct (oracle _ _ _) as [outgoing|]; [|by inversion Hrc].
  apply list_elem_of_omap in Hrc as (call & _ & Hcall).
  apply resolve_call_owners in Hcall as [Hsrc (kt & Hkt)].
  pose proof (final_promises_owned files semanticMap virtualRootLabel
                includeFiles) as Hown.
  simpl in Hown. fold b in Hown. rewrite Forall_forall in Hown.
  destruct (Hown p Hp) as (ks & Hks). rewrite <- Hsrc in Hks.
  split.
  - exact (owners_resolve_to_nodes basename files semanticMap virtualRootLabel
             includeFiles oracle schedule ks _ Hks).
  - exact (owners_resolve_to_nodes basename files semanticMap virtualRootLabel
             includeFiles oracle schedule kt _ Hkt).
Qed.

(** X5: a reported call whose target is not in the reverse index of the
    batch (a symbol of a file that is not analysed) adds nothing: when
    every reported call is of that kind, the graph has no edge. *)
Theorem calls_outside_the_batch_add_no_edge (files : list FileEntry)
    (semanticMap : option (gmap string string))
    (virtualRootLabel : option string) (includeFiles : bool)
    (oracle : CallOracle) (schedule : list Probe -> list Probe) :
  let b := final_builder basename files semanticMap virtualRootLabel
             includeFiles in
  (forall uri line char outgoing call,
     oracle uri line char = Some outgoing -> call ∈ outgoing ->
     b_nodeIdMap b !! index_key (to_uri call) (to_selLine call) = None) ->
  g_edges (generateGraph basename files semanticMap virtualRootLabel
             includeFiles oracle schedule) = [].
Proof.
  intros b Hout.
  rewrite generateGraph_edges, final_edgeMap_calls. fold b.
  assert (Hcalls : resolved_calls oracle b (schedule (b_callsPromises b)) = []).
  { unfold resolved_calls.
    induction (schedule (b_callsPromises b)) as [|p ps IH]; [done|]. simpl.
    rewrite IH, app_nil_r. unfold probe_calls.
    destruct (oracle (p_uri p) (p_selLine p) (p_selChar p)) as [outgoing|]
      eqn:E; [|done].
    assert (Hall : forall call, call ∈ outgoing ->
              resolve_call (b_nodeIdMap b) (b_symbolOwnerMap b) p call = None).
    { intros call Hc. unfold resolve_call.
      by rewrite (Hout _ _ _ _ call E Hc). }
    clear E. induction outgoing as [|c cs IHc]; [done|]. simpl.
    rewrite (Hall c) by left. apply IHc. intros call Hc. apply Hall.
    by right. }
  by rewrite Hcalls.
Qed.

End EdgeProperties.

(** X3, witness: in [b.ts], [f] and [g] both call [h]; the two edges
    [f -> h] and [g -> h] have distinct ends. *)
Lemma edges_aggregate_the_resolved_calls_witness :
  let b := GraphService.final_builder (fun p => p) [Session.b_ts] None None
             false in
  let calls := GraphService.resolved_calls Session.b_calls b
                 ((fun l => l) (GraphService.b_callsPromises b)) in
  let edges := g_edges (GraphService.generateGraph (fun p => p)
                          [Session.b_ts] None None false Session.b_calls
                          (fun l => l)) in
  Forall (fun rc => GraphService.has_bar (GraphService.rc_source rc) = false
                    /\ GraphService.has_bar (GraphService.rc_target rc) = false)
    calls
  /\ NoDup (map (fun e => (e_source e, e_target e)) edges).
Proof.
  intros b calls edges.
  assert (H : Forall (fun rc =>
                GraphService.has_bar (GraphService.rc_source rc) = false
                /\ GraphService.has_bar (GraphService.rc_target rc) = false)
              calls).
  { vm_compute. repeat constructor. }
  split; [exact H|].
  destruct (edges_aggregate_the_resolved_calls (fun p => p) [Session.b_ts]
              None None false Session.b_calls (fun l => l) H) as (Hnd & _).
  exact Hnd.
Defined.

(** X4, witness: the same graph; both ends of its edges are nodes. *)
Lemma edges_connect_nodes_of_the_graph_witness :
  let b := GraphService.final_builder (fun p => p) [Session.b_ts] None None
             false in
  let calls := GraphService.resolved_calls Session.b_calls b
                 ((fun l => l) (GraphService.b_callsPromises b)) in
  let g := GraphService.generateGraph (fun p => p) [Session.b_ts] None None
             false Session.b_calls (fun l => l) in
  (forall l : list GraphService.Probe, (fun l => l) l ≡ₚ l)
  /\ Forall (fun rc =>
               GraphService.has_bar (GraphService.rc_source rc) = false
               /\ GraphService.has_bar (GraphService.rc_target rc) = false)
       calls
  /\ forall e, e ∈ g_edges g ->
       e_source e ∈ map n_id (g_nodes g) /\ e_target e ∈ map n_id (g_nodes g).
Proof.
  intros b calls g.
  assert (H1 : forall l : list GraphService.Probe, (fun l => l) l ≡ₚ l)
    by reflexivity.
  assert (H2 : Forall (fun rc =>
                 GraphService.has_bar (GraphService.rc_source rc) = false
                 /\ GraphService.has_bar (GraphService.rc_target rc) = false)
               calls).
  { vm_compute. repeat constructor. }
  split_and!; [exact H1|exact H2|].
  exact (edges_connect_nodes_of_the_graph (fun p => p) [Session.b_ts] None
           None false Session.b_calls (fun l => l) H1 H2).
Defined.

(** X5, witness: every function of [b.ts] is reported to call a symbol of
    a file that is not in the batch. *)
Lemma calls_outside_the_batch_add_no_edge_witness :
  let oracle : GraphService.CallOracle :=
    fun _ _ _ => Some [GraphService.mkCall "file:///w/other.ts" 3 "x"] in
  let b := GraphService.final_builder (fun p => p) [Session.b_ts] None None
             false in
  (forall uri line char outgoing call,
     oracle uri line char = Some outgoing -> call ∈ outgoing ->
     GraphService.b_nodeIdMap b
       !! GraphService.index_key (GraphService.to_uri call)
            (GraphService.to_selLine call) = None)
  /\ g_edges (GraphService.generateGraph (fun p => p) [Session.b_ts] None
                None false oracle (fun l => l)) = [].
Proof.
  intros oracle b.
  assert (H : forall uri line char outgoing call,
            oracle uri line char = Some outgoing -> call ∈ outgoing ->
            GraphService.b_nodeIdMap b
              !! GraphService.index_key (GraphService.to_uri call)
                   (GraphService.to_selLine call) = None).
  { intros uri line char outgoing call [= <-] Hc.
    apply list_elem_of_singleton in Hc as ->. vm_compute. reflexivity. }
  split; [exact H|].
  exact (calls_outside_the_batch_add_no_edge (fun p => p) [Session.b_ts] None
           None false oracle (fun l => l) H).
Defined.

(* ===================================================================== *)
(** * The node list of the assembler *)
(* ===================================================================== *)

Section NodeShape.

Import GraphService GraphShape.

Variable basename : string -> string.

Lemma same_frame_refl b : same_frame b b.
Proof. done. Qed.

Lemma same_frame_trans b1 b2 b3 :
  same_frame b1 b2 -> same_frame b2 b3 -> same_frame b1 b3.
Proof.
  intros (H1 & H2 & H3) (H4 & H5 & H6). unfold same_frame.
  by rewrite H4, H5, H6.
Qed.

Lemma foldl_same_frame {B} (f : Builder -> B -> Builder) (l : list B) :
  Forall (fun x => forall a, same_frame a (f a x)) l ->
  forall b, same_frame b (foldl f b l).
Proof.
  induction 1 as [|x l Hx _ IH]; intros b; simpl; [done|].
  eapply same_frame_trans; [apply Hx|apply IH].
Qed.

Lemma assignOwner_symbol_frame uri owner sub :
  forall b, same_frame b (assignOwner_symbol uri owner b sub).
Proof.
  induction sub as [name detail kind line selLine selChar children IH]
    using symbol_ind.
  intros b. simpl.
  eapply same_frame_trans; [|apply (foldl_same_frame _ children IH)]. done.
Qed.

Lemma assignOwner_frame uri owner subItems b :
  same_frame b (assignOwner uri owner subItems b).
Proof.
  unfold assignOwner. apply foldl_same_frame, Forall_forall.
  intros sub _. apply assignOwner_symbol_frame.
Qed.

Lemma own_direct_children_frame uri owner children b :
  same_frame b (foldl (own_direct_child uri owner) b children).
Proof. apply foldl_same_frame, Forall_forall. by intros child _ a. Qed.

(** One top-level symbol of a file adds the node of [component_of], sets
    [hasChildren] when it is a class or an interface, and leaves the
    module containers alone. *)
Lemma processSymbol_shape uri fileId includeFiles systemParentId b item :
  let b' := processSymbol uri fileId includeFiles fileId systemParentId b
              item in
  b_nodes b'
  = b_nodes b
    ++ opt_nodes (component_of uri includeFiles fileId systemParentId item)
  /\ b_hasChildren b' = b_hasChildren b || is_class_like (sym_kind item)
  /\ b_moduleGroups b' = b_moduleGroups b.
Proof.
  unfold processSymbol, component_of. simpl.
  destruct (is_class_like (sym_kind item)).
  - destruct (own_direct_children_frame uri (symbol_id uri item)
                (sym_children item)
                (set_owner (symbol_id uri item) (symbol_id uri item)
                   (set_class (uri +:+ "::" +:+ sym_name item)
                      (symbol_id uri item)
                      (push_node
                         (class_node (symbol_id uri item)
                            (if includeFiles then fileId else systemParentId)
                            item)
                         (set_hasChildren true
                            (set_nodeId (index_key uri (sym_selLine item))
                               (symbol_id uri item) b))))))
      as (Hn & Hm & Hc).
    rewrite Hn, Hm, Hc. simpl. by rewrite orb_true_r.
  - rewrite orb_false_r, String.eqb_refl. simpl.
    destruct (is_member_like (sym_kind item)); simpl.
    + destruct includeFiles; simpl.
      * destruct (assignOwner_frame uri fileId (sym_children item)
                    (set_owner (symbol_id uri item) fileId
                       (set_nodeId (index_key uri (sym_selLine item))
                          (symbol_id uri item) b))) as (Hn & Hm & Hc).
        rewrite Hn, Hm, Hc. simpl. by rewrite app_nil_r.
      * destruct (assignOwner_frame uri (symbol_id uri item)
                    (sym_children item)
                    (set_owner (symbol_id uri item) (symbol_id uri item)
                       (push_node
                          (function_node (symbol_id uri item) systemParentId
                             item)
                          (set_nodeId (index_key uri (sym_selLine item))
                             (symbol_id uri item) b)))) as (Hn & Hm & Hc).
        by rewrite Hn, Hm, Hc.
    + by rewrite app_nil_r.
Qed.

Lemma processSymbols_shape uri fileId includeFiles systemParentId items :
  forall b,
    let b' := processSymbols uri fileId includeFiles items fileId
                systemParentId b in
    b_nodes b'
    = b_nodes b
      ++ omap (component_of uri includeFiles fileId systemParentId) items
    /\ b_hasChildren b' = b_hasChildren b || has_class items
    /\ b_moduleGroups b' = b_moduleGroups b.
Proof.
  unfold processSymbols, has_class.
  induction items as [|item items IH]; intros b; simpl.
  - by rewrite app_nil_r, orb_false_r.
  - destruct (IH (processSymbol uri fileId includeFiles fileId systemParentId
                    b item)) as (Hn & Hc & Hm).
    destruct (processSymbol_shape uri fileId includeFiles systemParentId b
                item) as (Hn1 & Hc1 & Hm1).
    simpl in Hn1, Hc1, Hm1.
    rewrite Hn, Hc, Hm, Hn1, Hc1, Hm1. split_and!; [|by rewrite orb_assoc|done].
    rewrite <- app_assoc. f_equal.
    by destruct (component_of uri includeFiles fileId systemParentId item).
Qed.

Lemma groups_ok_lookup seen b moduleName :
  groups_ok seen b ->
  b_moduleGroups b !! moduleName
  = if bool_decide (moduleName ∈ seen)
    then Some (module_group_id moduleName) else None.
Proof.
  intros H. destruct (H moduleName) as [H1 H2].
  case_bool_decide; [by apply H1|by apply H2].
Qed.

(** "Determine Parent" on a builder whose module containers are those of
    [seen]. *)
Lemma file_parent_shape virtualRootLabel semanticMap fsPath seen b :
  groups_ok seen b ->
  let r := file_parent virtualRootLabel semanticMap fsPath b in
  fst r = parent_of semanticMap virtualRootLabel fsPath
  /\ b_nodes (snd r)
     = b_nodes b
       ++ match module_of semanticMap fsPath with
          | Some moduleName =>
              if bool_decide (moduleName ∈ seen) then []
              else [module_node moduleName]
          | None => []
          end
  /\ groups_ok (match module_of semanticMap fsPath with
                | Some moduleName => {[moduleName]} ∪ seen
                | None => seen
                end) (snd r).
Proof.
  intros Hg. unfold file_parent, parent_of, module_of.
  destruct semanticMap as [sm|]; [destruct (sm !! fsPath) as [moduleName|]|];
    simpl; try by rewrite app_nil_r.
  rewrite (groups_ok_lookup seen b moduleName Hg).
  case_bool_decide as Hin; simpl.
  - rewrite (groups_ok_lookup seen b moduleName Hg), bool_decide_eq_true_2
      by done.
    split_and!; [done|by rewrite app_nil_r|].
    intros m. destruct (Hg m) as [H1 H2]. split.
    + intros Hm. apply elem_of_union in Hm as [Hm|Hm]; [|by apply H1].
      apply elem_of_singleton in Hm as ->. by apply H1.
    + intros Hm. apply H2. set_solver.
  - rewrite lookup_insert_eq. split_and!; [done|done|].
    intros m. destruct (Hg m) as [H1 H2]. simpl. split.
    + intros Hm. apply elem_of_union in Hm as [Hm|Hm].
      * apply elem_of_singleton in Hm as ->. by rewrite lookup_insert_eq.
      * destruct (decide (m = moduleName)) as [->|Hne]; [done|].
        rewrite lookup_insert_ne by done. by apply H1.
    + intros Hm. rewrite lookup_insert_ne by set_solver. apply H2. set_solver.
Qed.

(** One file of the batch adds its [file_block]. *)
Lemma processFile_shape virtualRootLabel semanticMap includeFiles seen b file :
  groups_ok seen b ->
  let b' := processFile basename virtualRootLabel semanticMap includeFiles b
              file in
  b_nodes b'
  = b_nodes b
    ++ file_block basename semanticMap virtualRootLabel includeFiles seen file
  /\ groups_ok (seen_after semanticMap seen file) b'.
Proof.
  intros Hg. unfold processFile, file_block, seen_after, shown_file_node.
  destruct (file_parent_shape virtualRootLabel semanticMap
              (doc_fsPath (f_document file)) seen b Hg) as (Hp & Hn & Hg1).
  destruct (file_parent virtualRootLabel semanticMap
              (doc_fsPath (f_document file)) b) as [parentId b1].
  simpl in Hp, Hn, Hg1. subst parentId.
  set (uri := doc_uri (f_document file)) in *.
  set (fsPath := doc_fsPath (f_document file)) in *.
  set (parentId := parent_of semanticMap virtualRootLabel fsPath).
  set (fileNode := file_node basename ("file-" +:+ uri) parentId fsPath).
  set (mods := match module_of semanticMap fsPath with
               | Some moduleName =>
                   if bool_decide (moduleName ∈ seen) then []
                   else [module_node moduleName]
               | None => []
               end) in *.
  set (b2 := set_hasChildren false _).
  assert (Hb2 : b_nodes b2
                = (b_nodes b ++ mods)
                  ++ (if includeFiles then [fileNode] else [])
                /\ b_hasChildren b2 = false
                /\ b_moduleGroups b2 = b_moduleGroups b1).
  { unfold b2. destruct includeFiles; simpl.
    - by rewrite Hn.
    - by rewrite Hn, app_nil_r. }
  destruct Hb2 as (Hn2 & Hc2 & Hm2). clearbody b2.
  destruct (processSymbols_shape uri ("file-" +:+ uri) includeFiles
              (JS.or_else parentId ROOT_ID) (f_symbols file) b2)
    as (Hn3 & Hc3 & Hm3).
  set (b3 := processSymbols uri ("file-" +:+ uri) includeFiles
               (f_symbols file) ("file-" +:+ uri)
               (JS.or_else parentId ROOT_ID) b2) in *.
  simpl in Hn3, Hc3, Hm3. rewrite Hc2 in Hc3. simpl in Hc3.
  assert (Hg3 : forall b4, b_moduleGroups b4 = b_moduleGroups b3 ->
            groups_ok (match module_of semanticMap fsPath with
                       | Some moduleName => {[moduleName]} ∪ seen
                       | None => seen
                       end) b4).
  { intros b4 H4 m. rewrite H4, Hm3, Hm2. apply Hg1. }
  rewrite Hc3.
  destruct includeFiles; simpl.
  - destruct (has_class (f_symbols file)); simpl.
    + split; [|by apply Hg3].
      rewrite Hn3, Hn2. by rewrite <- !app_assoc.
    + split; [|by apply Hg3].
      rewrite Hn3, Hn2, Hn.
      replace (length (b_nodes b ++ mods))
        with (length (b_nodes b ++ mods) + 0) by lia.
      rewrite <- (app_assoc (b_nodes b ++ mods)).
      rewrite alter_app_r. simpl. by rewrite <- app_assoc.
  - split; [|by apply Hg3].
    rewrite Hn3, Hn2. by rewrite <- !app_assoc.
Qed.

Lemma foldl_processFile_shape virtualRootLabel semanticMap includeFiles files :
  forall seen b,
    groups_ok seen b ->
    b_nodes (foldl (processFile basename virtualRootLabel semanticMap
                      includeFiles) b files)
    = b_nodes b
      ++ file_blocks basename semanticMap virtualRootLabel includeFiles seen
           files.
Proof.
  induction files as [|file files IH]; intros seen b Hg; simpl.
  - by rewrite app_nil_r.
  - destruct (processFile_shape virtualRootLabel semanticMap includeFiles seen
                b file Hg) as (Hn & Hg').
    rewrite (IH _ _ Hg'), Hn. by rewrite <- app_assoc.
Qed.

(** The nodes that [generateGraph] returns: the virtual root if there is
    one, then the block of every file in turn. *)
Lemma generateGraph_shape (files : list FileEntry)
    (semanticMap : option (gmap string string))
    (virtualRootLabel : option string) (includeFiles : bool)
    (oracle : CallOracle) (schedule : list Probe -> list Probe) :
  g_nodes (generateGraph basename files semanticMap virtualRootLabel
             includeFiles oracle schedule)
  = (if JS.truthy virtualRootLabel
     then [root_node (JS.or_else virtualRootLabel "")] else [])
    ++ file_blocks basename semanticMap virtualRootLabel includeFiles ∅ files.
Proof.
  rewrite generateGraph_nodes. unfold createNodes.
  rewrite (foldl_processFile_shape _ _ _ _ ∅).
  - f_equal. destruct virtualRootLabel as [l|]; [|done]. simpl.
    by destruct (String.eqb l "").
  - intros m. split; [set_solver|]. intros _.
    destruct virtualRootLabel as [l|]; [|done].
    by destruct (JS.truthy (Some l)).
Qed.

End NodeShape.

Section NodeProperties.

Import GraphService GraphShape.

Variable basename : string -> string.

Lemma components_of_class_free uri fileId systemParentId symbols :
  has_class symbols = false ->
  omap (component_of uri true fileId systemParentId) symbols = [].
Proof.
  unfold has_class. induction symbols as [|item items IH]; [done|]. simpl.
  intros H. apply orb_false_iff in H as [Hc Hr].
  unfold component_of at 1. rewrite Hc, andb_false_r. by apply IH.
Qed.

Lemma component_of_type uri includeFiles fileId systemParentId item n :
  component_of uri includeFiles fileId systemParentId item = Some n ->
  n_type n = Some "component"
  /\ n_parentNode n = Some (if includeFiles then fileId else systemParentId).
Proof.
  unfold component_of. destruct (is_class_like (sym_kind item)).
  - by intros [= <-].
  - destruct (is_member_like (sym_kind item)); simpl; [|done].
    destruct includeFiles; simpl; [done|]. by intros [= <-].
Qed.

Lemma shown_file_node_fields semanticMap virtualRootLabel file :
  let n := shown_file_node basename semanticMap virtualRootLabel file in
  n_id n = "file-" +:+ doc_uri (f_document file)
  /\ n_parentNode n
     = parent_of semanticMap virtualRootLabel (doc_fsPath (f_document file))
  /\ d_type (n_data n) = Some "file".
Proof.
  unfold shown_file_node. by destruct (has_class (f_symbols file)).
Qed.

(** X6: in the full view, when no file of the batch declares a class or
    an interface at top level, every file is one leaf: a component node
    with the file's id and base name, the detail ['Source File'] and the
    file's container as parent.  These leaves, in the order of the batch,
    are all the component nodes of the graph; its other nodes are the
    containers. *)
Theorem class_free_files_are_leaves (files : list FileEntry)
    (semanticMap : option (gmap string string))
    (virtualRootLabel : option string) (oracle : CallOracle)
    (schedule : list Probe -> list Probe) :
  Forall (fun file => has_class (f_symbols file) = false) files ->
  let g := generateGraph basename files semanticMap virtualRootLabel true
             oracle schedule in
  filter (fun n => n_type n = Some "component") (g_nodes g)
  = map (fun file =>
           to_leaf
             (file_node basename ("file-" +:+ doc_uri (f_document file))
                (parent_of semanticMap virtualRootLabel
                   (doc_fsPath (f_document file)))
                (doc_fsPath (f_document file))))
      files
  /\ Forall (fun n => n_type n = Some "component"
                      \/ (n_type n = Some "group"
                          /\ d_type (n_data n) = Some "system"))
       (g_nodes g).
Proof.
  intros Hfree g. unfold g. rewrite generateGraph_shape.
  assert (Hblocks : forall seen,
    filter (fun n => n_type n = Some "component")
      (file_blocks basename semanticMap virtualRootLabel true seen files)
    = map (fun file =>
             to_leaf
               (file_node basename ("file-" +:+ doc_uri (f_document file))
                  (parent_of semanticMap virtualRootLabel
                     (doc_fsPath (f_document file)))
                  (doc_fsPath (f_document file))))
        files
    /\ Forall (fun n => n_type n = Some "component"
                        \/ (n_type n = Some "group"
                            /\ d_type (n_data n) = Some "system"))
         (file_blocks basename semanticMap virtualRootLabel true seen files)).
  { induction Hfree as [|file files Hf _ IH]; intros seen; [done|].
    simpl. destruct (IH (seen_after semanticMap seen file)) as [IH1 IH2].
    unfold file_block, shown_file_node.
    rewrite Hf, components_of_class_free by done.
    rewrite app_nil_r.
    set (mods := match module_of semanticMap (doc_fsPath (f_document file))
                 with
                 | Some moduleName =>
                     if bool_decide (moduleName ∈ seen) then []
                     else [module_node moduleName]
                 | None => []
                 end).
    assert (Hmods : Forall (fun n => n_type n = Some "group"
                                     /\ d_type (n_data n) = Some "system")
                      mods).
    { unfold mods. destruct (module_of _ _); [|done].
      destruct (bool_decide _); [done|]. by apply Forall_singleton. }
    split.
    - rewrite !filter_app, IH1.
      rewrite (filter_drops_all _ mods).
      + by rewrite filter_cons, decide_True.
      + eapply Forall_impl; [exact Hmods|]. intros n [H _]. by rewrite H.
    - rewrite !Forall_app. split_and!; [|by apply Forall_singleton; left|done].
      eapply Forall_impl; [exact Hmods|]. intros n H. by right. }
  destruct (Hblocks ∅) as [H1 H2]. split.
  - rewrite filter_app, H1.
    destruct (JS.truthy virtualRootLabel); [|done].
    by rewrite filter_cons, decide_False.
  - apply Forall_app. split; [|done].
    destruct (JS.truthy virtualRootLabel); [|done].
    apply Forall_singleton. by right.
Qed.

Lemma block_parents semanticMap virtualRootLabel includeFiles seen pre file :
  (includeFiles = true \/ JS.truthy virtualRootLabel = true
   \/ is_Some (module_of semanticMap (doc_fsPath (f_document file)))) ->
  (forall moduleName, moduleName ∈ seen ->
     module_group_id moduleName ∈ map n_id pre) ->
  (JS.truthy virtualRootLabel = true -> ROOT_ID ∈ map n_id pre) ->
  let block := file_block basename semanticMap virtualRootLabel includeFiles
                 seen file in
  Forall (parent_resolves (pre ++ block)) block
  /\ forall moduleName,
       moduleName ∈ seen_after semanticMap seen file ->
       module_group_id moduleName ∈ map n_id (pre ++ block).
Proof.
  intros Hcond Hseen Hroot block.
  set (fsPath := doc_fsPath (f_document file)).
  set (uri := doc_uri (f_document file)).
  set (mods := match module_of semanticMap fsPath with
               | Some moduleName =>
                   if bool_decide (moduleName ∈ seen) then []
                   else [module_node moduleName]
               | None => []
               end).
  assert (Hblock : block
            = mods
              ++ (if includeFiles
                  then [shown_file_node basename semanticMap virtualRootLabel
                          file] else [])
              ++ omap (component_of uri includeFiles ("file-" +:+ uri)
                         (JS.or_else
                            (parent_of semanticMap virtualRootLabel fsPath)
                            ROOT_ID))
                   (f_symbols file)) by done.
  (* the container of the file's module is at hand *)
  assert (Hmod : forall moduleName,
            module_of semanticMap fsPath = Some moduleName ->
            module_group_id moduleName ∈ map n_id (pre ++ mods)).
  { intros moduleName Hm. rewrite map_app. apply elem_of_app.
    unfold mods. rewrite Hm. case_bool_decide as Hin.
    - left. by apply Hseen.
    - right. apply list_elem_of_singleton. done. }
  assert (Hsub : forall x, x ∈ map n_id (pre ++ mods) ->
                           x ∈ map n_id (pre ++ block)).
  { intros x Hx. rewrite Hblock, !map_app in *.
    apply elem_of_app in Hx as [Hx|Hx]; apply elem_of_app; [by left|].
    right. apply elem_of_app. by left. }
  (* the parent determined for the file *)
  assert (Hparent : forall p,
            parent_of semanticMap virtualRootLabel fsPath = Some p ->
            p ∈ map n_id (pre ++ block)
            /\ JS.or_else (Some p) ROOT_ID = p).
  { intros p. unfold parent_of.
    destruct (module_of semanticMap fsPath) as [moduleName|] eqn:Em.
    - intros [= <-]. split; [by apply Hsub, Hmod|done].
    - destruct (JS.truthy virtualRootLabel) eqn:Et; [|done].
      intros [= <-]. split; [|done].
      rewrite map_app. apply elem_of_app. left. by apply Hroot. }
  split.
  - rewrite Hblock at 2. rewrite !Forall_app. split_and!.
    + unfold mods. destruct (module_of _ _); [|done].
      destruct (bool_decide _); [done|]. apply Forall_singleton.
      by intros p.
    + destruct includeFiles; [|done]. apply Forall_singleton.
      intros p Hp.
      destruct (shown_file_node_fields semanticMap virtualRootLabel file)
        as (_ & Hpar & _).
      simpl in Hpar. rewrite Hpar in Hp. by apply Hparent.
    + apply Forall_forall. intros n Hn.
      apply list_elem_of_omap in Hn as (item & _ & Hn).
      apply component_of_type in Hn as [_ Hpar].
      intros p Hp. rewrite Hpar in Hp. injection Hp as <-.
      destruct includeFiles.
      * rewrite Hblock, !map_app. apply elem_of_app. right.
        apply elem_of_app. right. apply elem_of_app. left.
        apply list_elem_of_singleton.
        by destruct (shown_file_node_fields semanticMap virtualRootLabel file)
          as (-> & _).
      * destruct (parent_of semanticMap virtualRootLabel fsPath) as [p|] eqn:Ep.
        -- destruct (Hparent p eq_refl) as [Hin ->]. done.
        -- exfalso. unfold parent_of in Ep.
           destruct Hcond as [?|[Ht|[m Hm]]]; [done| |].
           ++ rewrite Ht in Ep. by destruct (module_of _ _).
           ++ fold fsPath in Hm. by rewrite Hm in Ep.
  - intros moduleName. unfold seen_after. fold fsPath.
    destruct (module_of semanticMap fsPath) as [m|] eqn:Em.
    + intros Hin. apply elem_of_union in Hin as [Hin|Hin].
      * apply elem_of_singleton in Hin as ->. by apply Hsub, Hmod.
      * rewrite map_app. apply elem_of_app. left. by apply Hseen.
    + intros Hin. rewrite map_app. apply elem_of_app. left. by apply Hseen.
Qed.

Lemma blocks_parents semanticMap virtualRootLabel includeFiles files :
  forall seen pre,
    (includeFiles = true \/ JS.truthy virtualRootLabel = true
     \/ Forall (fun file =>
                  is_Some (module_of semanticMap
                             (doc_fsPath (f_document file)))) files) ->
    (forall moduleName, moduleName ∈ seen ->
       module_group_id moduleName ∈ map n_id pre) ->
    (JS.truthy virtualRootLabel = true -> ROOT_ID ∈ map n_id pre) ->
    Forall (parent_resolves
              (pre ++ file_blocks basename semanticMap virtualRootLabel
                        includeFiles seen files))
      (file_blocks basename semanticMap virtualRootLabel includeFiles seen
         files).
Proof.
  induction files as [|file files IH]; intros seen pre Hcond Hseen Hroot;
    [done|].
  simpl.
  destruct (block_parents semanticMap virtualRootLabel includeFiles seen pre
              file) as [Hb Hs]; [|done|done|].
  { destruct Hcond as [?|[?|Hall]]; [by left|by right; left|].
    right. right. by inversion Hall. }
  apply Forall_app. split.
  - eapply Forall_impl; [exact Hb|]. intros n Hn p Hp.
    specialize (Hn p Hp). rewrite app_assoc, map_app. apply elem_of_app.
    by left.
  - rewrite app_assoc. apply IH.
    + destruct Hcond as [?|[?|Hall]]; [by left|by right; left|].
      right. right. by inversion Hall.
    + exact Hs.
    + intros Ht. rewrite map_app. apply elem_of_app. left. by apply Hroot.
Qed.

(** X7: the parent of every node that [generateGraph] returns is the id
    of a node that it returns, in the full view always, and in the
    flattened view as soon as a virtual root label is given or every file
    of the batch has a module in the grouping. *)
Theorem parents_are_nodes_of_the_graph (files : list FileEntry)
    (semanticMap : option (gmap string string))
    (virtualRootLabel : option string) (includeFiles : bool)
    (oracle : CallOracle) (schedule : list Probe -> list Probe) :
  (includeFiles = true \/ JS.truthy virtualRootLabel = true
   \/ Forall (fun file =>
                is_Some (module_of semanticMap
                           (doc_fsPath (f_document file)))) files) ->
  let g := generateGraph basename files semanticMap virtualRootLabel
             includeFiles oracle schedule in
  forall n p, n ∈ g_nodes g -> n_parentNode n = Some p ->
    exists parent, parent ∈ g_nodes g /\ n_id parent = p.
Proof.
  intros Hcond g n p Hn Hp.
  assert (Hin : p ∈ map n_id (g_nodes g)).
  { unfold g in *. rewrite generateGraph_shape in *.
    apply elem_of_app in Hn as [Hn|Hn].
    - destruct (JS.truthy virtualRootLabel); [|by inversion Hn].
      apply list_elem_of_singleton in Hn as ->. done.
    - pose proof (blocks_parents semanticMap virtualRootLabel includeFiles
                    files ∅
                    (if JS.truthy virtualRootLabel
                     then [root_node (JS.or_else virtualRootLabel "")]
                     else []) Hcond) as H.
      assert (H' : Forall
                (parent_resolves
                   ((if JS.truthy virtualRootLabel
                     then [root_node (JS.or_else virtualRootLabel "")]
                     else [])
                    ++ file_blocks basename semanticMap virtualRootLabel
                         includeFiles ∅ files))
                (file_blocks basename semanticMap virtualRootLabel
                   includeFiles ∅ files)).
      { apply H; [set_solver|]. intros Ht. rewrite Ht.
        apply list_elem_of_singleton. done. }
      rewrite Forall_forall in H'. exact (H' n Hn p Hp). }
  apply (list_elem_of_fmap_1 _) in Hin as (parent & -> & Hparent).
  by exists parent.
Qed.

Lemma module_node_inj m1 m2 : module_node m1 = module_node m2 -> m1 = m2.
Proof. by intros [= _ H]. Qed.

Lemma block_containers semanticMap virtualRootLabel includeFiles seen file
    moduleName :
  length (filter (fun n => n = module_node moduleName)
            (file_block basename semanticMap virtualRootLabel includeFiles
               seen file))
  = if bool_decide (moduleName ∈ seen) then 0
    else if bool_decide (module_of semanticMap
                           (doc_fsPath (f_document file)) = Some moduleName)
         then 1 else 0.
Proof.
  unfold file_block. rewrite !filter_app, !length_app.
  set (fsPath := doc_fsPath (f_document file)).
  assert (H2 : filter (fun n => n = module_node moduleName)
                 (if includeFiles
                  then [shown_file_node basename semanticMap virtualRootLabel
                          file] else []) = []).
  { destruct includeFiles; [|done].
    rewrite filter_cons, decide_False; [done|]. intros H.
    destruct (shown_file_node_fields semanticMap virtualRootLabel file)
      as (_ & _ & Ht).
    simpl in Ht. rewrite H in Ht. done. }
  assert (H3 : filter (fun n => n = module_node moduleName)
                 (omap (component_of (doc_uri (f_document file)) includeFiles
                          ("file-" +:+ doc_uri (f_document file))
                          (JS.or_else
                             (parent_of semanticMap virtualRootLabel fsPath)
                             ROOT_ID))
                    (f_symbols file)) = []).
  { apply filter_drops_all, Forall_forall. intros n Hn.
    apply list_elem_of_omap in Hn as (item & _ & Hn).
    apply component_of_type in Hn as [Ht _]. intros ->. done. }
  rewrite H2, H3. simpl. rewrite Nat.add_0_r.
  destruct (module_of semanticMap fsPath) as [m|] eqn:Em.
  - destruct (bool_decide (m ∈ seen)) eqn:Hin.
    + apply bool_decide_eq_true in Hin. simpl.
      case_bool_decide as Hs; [done|].
      case_bool_decide as He; [|done]. by injection He as ->.
    + apply bool_decide_eq_false in Hin.
      rewrite filter_cons.
      destruct (decide (module_node m = module_node moduleName)) as [He|He].
      * apply module_node_inj in He as ->.
        rewrite bool_decide_eq_false_2, bool_decide_eq_true_2 by done. done.
      * simpl. case_bool_decide as Hs; [done|].
        rewrite bool_decide_eq_false_2; [done|]. intros [= ->]. done.
  - simpl. by case_bool_decide.
Qed.

Lemma blocks_containers semanticMap virtualRootLabel includeFiles files
    moduleName :
  forall seen,
    length (filter (fun n => n = module_node moduleName)
              (file_blocks basename semanticMap virtualRootLabel includeFiles
                 seen files))
    = if bool_decide (moduleName ∈ seen) then 0
      else if bool_decide
                (Exists (fun file =>
                           module_of semanticMap
                             (doc_fsPath (f_document file)) = Some moduleName)
                   files)
           then 1 else 0.
Proof.
  induction files as [|file files IH]; intros seen; simpl.
  - case_bool_decide; [done|].
    first [done | case_bool_decide as H; [by inversion H|done]].
  - rewrite filter_app, length_app, block_containers, IH.
    unfold seen_after.
    destruct (decide (moduleName ∈ seen)) as [Hs|Hs].
    + rewrite !(bool_decide_eq_true_2 (moduleName ∈ seen)) by done.
      rewrite bool_decide_eq_true_2; [done|].
      destruct (module_of _ _); [set_solver|done].
    + rewrite !(bool_decide_eq_false_2 (moduleName ∈ seen)) by done.
      destruct (decide (module_of semanticMap (doc_fsPath (f_document file))
                        = Some moduleName)) as [Hm|Hm].
      * rewrite (bool_decide_eq_true_2 _ Hm), Hm.
        rewrite bool_decide_eq_true_2 by set_solver.
        rewrite bool_decide_eq_true_2; [done|]. by left.
      * rewrite (bool_decide_eq_false_2 _ Hm). simpl.
        assert (Hs' : moduleName ∉
                  match module_of semanticMap (doc_fsPath (f_document file))
                  with
                  | Some m => {[m]} ∪ seen
                  | None => seen
                  end).
        { destruct (module_of _ _) as [m|]; [|done].
          intros Hin. apply elem_of_union in Hin as [Hin|Hin]; [|done].
          apply elem_of_singleton in Hin as ->. done. }
        rewrite (bool_decide_eq_false_2 _ Hs').
        destruct (decide (Exists (fun file =>
                            module_of semanticMap
                              (doc_fsPath (f_document file))
                            = Some moduleName) files)) as [He|He].
        -- rewrite (bool_decide_eq_true_2 _ He).
           rewrite bool_decide_eq_true_2; [done|]. by right.
        -- rewrite (bool_decide_eq_false_2 _ He).
           rewrite bool_decide_eq_false_2; [done|].
           intros H. inversion H; done.
Qed.

(** X8: the graph holds one container per module name in use, however
    many files share the module: the container of a module name occurs
    once among the nodes when some file of the batch has that module in
    the grouping, and not at all otherwise. *)
Theorem one_container_per_module (files : list FileEntry)
    (semanticMap : option (gmap string string))
    (virtualRootLabel : option string) (includeFiles : bool)
    (oracle : CallOracle) (schedule : list Probe -> list Probe)
    (moduleName : string) :
  length (filter (fun n => n = module_node moduleName)
            (g_nodes (generateGraph basename files semanticMap
                        virtualRootLabel includeFiles oracle schedule)))
  = if bool_decide
         (Exists (fun file =>
                    module_of semanticMap (doc_fsPath (f_document file))
                    = Some moduleName) files)
    then 1 else 0.
Proof.
  rewrite generateGraph_shape, filter_app, length_app, blocks_containers.
  rewrite bool_decide_eq_false_2 by set_solver.
  destruct (JS.truthy virtualRootLabel); [|done].
  rewrite filter_cons, decide_False; [done|].
  intros H. apply (f_equal n_id) in H. discriminate H.
Qed.

End NodeProperties.

(** X6, witness: [b.ts] holds three functions and no class; in the full
    view it is one leaf. *)
Lemma class_free_files_are_leaves_witness :
  Forall (fun file =>
            GraphShape.has_class (GraphService.f_symbols file) = false)
    [Session.b_ts]
  /\ filter (fun n => n_type n = Some "component")
       (g_nodes (GraphService.generateGraph (fun p => p) [Session.b_ts] None
                   None true Session.b_calls (fun l => l)))
     = [GraphService.to_leaf
          (GraphService.file_node (fun p => p) "file-file:///w/b.ts" None
             "/w/b.ts")].
Proof.
  assert (H : Forall (fun file =>
                GraphShape.has_class (GraphService.f_symbols file) = false)
              [Session.b_ts]).
  { repeat constructor. }
  split; [exact H|].
  destruct (class_free_files_are_leaves (fun p => p) [Session.b_ts] None None
              Session.b_calls (fun l => l) H) as [Hc _].
  exact Hc.
Defined.

(** X7, witness: the flattened graph of [a.ts] under the virtual root
    ['Execute a.ts']; the component of [main] has the root as parent. *)
Lemma parents_are_nodes_of_the_graph_witness :
  let n := GraphService.function_node "file:///w/a.ts::main::0" "root-system"
             (GraphService.mkSymbol "main" "" GraphService.SK_Function 0 0 9
                []) in
  (false = true \/ JS.truthy (Some "Execute a.ts") = true
   \/ Forall (fun file =>
                is_Some (GraphShape.module_of None
                           (GraphService.doc_fsPath
                              (GraphService.f_document file))))
        [Session.a_ts])
  /\ n ∈ g_nodes Session.component_reply
  /\ n_parentNode n = Some "root-system"
  /\ exists parent,
       parent ∈ g_nodes Session.component_reply
       /\ n_id parent = "root-system".
Proof.
  intros n.
  assert (H : false = true \/ JS.truthy (Some "Execute a.ts") = true
              \/ Forall (fun file =>
                           is_Some (GraphShape.module_of None
                                      (GraphService.doc_fsPath
                                         (GraphService.f_document file))))
                   [Session.a_ts]).
  { right. left. reflexivity. }
  assert (Hn : n ∈ g_nodes Session.component_reply).
  { vm_compute. apply list_elem_of_further, list_elem_of_here. }
  assert (Hp : n_parentNode n = Some "root-system") by reflexivity.
  split_and!; [exact H|exact Hn|exact Hp|].
  exact (parents_are_nodes_of_the_graph (fun p => p) [Session.a_ts] None
           (Some "Execute a.ts") false (fun _ _ _ => None) (fun l => l) H
           n "root-system" Hn Hp).
Defined.

(* ===================================================================== *)
(** * Further properties of the webview controller *)
(* ===================================================================== *)

Section NormalisationProperties.

Import Webview ControllerShape.

Lemma includes_knownTypes t :
  JS.includes knownTypes t = true -> t ∈ knownTypes.
Proof.
  unfold JS.includes, knownTypes. simpl. rewrite !orb_true_iff, !String.eqb_eq.
  intros H. repeat (destruct H as [->|H]; [set_solver|]). done.
Qed.

Lemma known_type_is_kept t :
  t ∈ knownTypes ->
  (let type := JS.toLowerCase (JS.or_else (Some t) "process") in
   if JS.includes knownTypes type then type else "process") = t.
Proof.
  unfold knownTypes. intros H.
  repeat (apply elem_of_cons in H as [->|H]; [by vm_compute|]).
  by inversion H.
Qed.

Lemma safeNode_type n :
  exists t, t ∈ knownTypes
    /\ n_type (safeNode n) = Some t
    /\ d_type (n_data (safeNode n)) = Some t.
Proof.
  unfold safeNode. cbn [n_type n_data d_type].
  set (type := JS.toLowerCase (JS.or_else (n_type n) "process")).
  destruct (JS.includes knownTypes type) eqn:E.
  - exists type. split; [by apply includes_knownTypes|done].
  - exists "process". split; [|done]. unfold knownTypes. set_solver.
Qed.

Lemma safeNode_normalised n : normalised (safeNode n).
Proof. apply safeNode_type. Qed.

(** X9: the normalisation of the webview always leaves a known type,
    written both in [type] and in [data.type]; it changes no other field;
    and normalising twice is normalising once. *)
Theorem safeNode_normalises_once_and_for_all (n : RFNode) :
  (exists t, t ∈ knownTypes
     /\ n_type (safeNode n) = Some t
     /\ d_type (n_data (safeNode n)) = Some t)
  /\ n_id (safeNode n) = n_id n
  /\ n_parentNode (safeNode n) = n_parentNode n
  /\ d_label (n_data (safeNode n)) = d_label (n_data n)
  /\ d_files (n_data (safeNode n)) = d_files (n_data n)
  /\ d_location (n_data (safeNode n)) = d_location (n_data n)
  /\ safeNode (safeNode n) = safeNode n.
Proof.
  split; [apply safeNode_type|]. split_and!; try done.
  destruct (safeNode_type n) as (t & Ht & Hn & Hd).
  remember (safeNode n) as m eqn:Em. clear Em.
  unfold safeNode. rewrite Hn.
  pose proof (known_type_is_kept t Ht) as Hk. cbv zeta in Hk. rewrite Hk.
  destruct m as [id ty par [l de ds fs dt k loc ex]].
  simpl in *. by subst.
Qed.

End NormalisationProperties.

Section ControllerProperties.

Import Webview ControllerShape.

Variable Box : Type.
Variable dagre_layout : DagreGraph -> string -> Box.
Variable locale_le : string -> string -> bool.

#[local] Abbreviation State' := (State Box).
#[local] Abbreviation step' := (step Box dagre_layout locale_le).
#[local] Abbreviation run' := (run Box dagre_layout locale_le).
#[local] Abbreviation handleMessage' :=
  (handleMessage Box dagre_layout locale_le).
#[local] Abbreviation applyUpdate' := (applyUpdate Box dagre_layout locale_le).
#[local] Abbreviation goBack' := (goBack Box dagre_layout locale_le).
#[local] Abbreviation onNodeDoubleClick' :=
  (onNodeDoubleClick Box dagre_layout locale_le).
#[local] Abbreviation getLayoutedElements' :=
  (getLayoutedElements Box dagre_layout locale_le).

Lemma toggle_twice id (s : gset string) : toggle id (toggle id s) = s.
Proof.
  unfold toggle. destruct (decide (id ∈ s)) as [Hin|Hout].
  - rewrite (bool_decide_eq_true_2 _ Hin).
    rewrite bool_decide_eq_false_2.
    + apply set_eq. intros x.
      rewrite elem_of_union, elem_of_difference, elem_of_singleton.
      split.
      * intros [->|[H _]]; done.
      * intros Hx. destruct (decide (x = id)) as [->|Hne]; [by left|by right].
    + rewrite elem_of_difference, elem_of_singleton. by intros [_ H].
  - rewrite (bool_decide_eq_false_2 _ Hout).
    rewrite bool_decide_eq_true_2.
    + apply set_eq. intros x.
      rewrite elem_of_difference, elem_of_union, elem_of_singleton.
      split.
      * intros [[->|H] Hne]; done.
      * intros Hx. split; [by right|]. by intros ->.
    + apply elem_of_union. left. by apply elem_of_singleton.
Qed.

(** The roots of an array are shown by every layout, which writes
    [data.isExpanded] in them. *)
Lemma written_roots E nodes edges :
  Forall (fun n => JS.truthy (n_parentNode n) = false ->
                   d_isExpanded (n_data n) = Some (bool_decide (n_id n ∈ E)))
    (written_nodes Box (getLayoutedElements' nodes edges E)).
Proof.
  unfold Webview.written_nodes, Webview.getLayoutedElements. cbn [fst].
  rewrite map_map. apply Forall_forall. intros m Hm.
  apply (list_elem_of_fmap_1 _) in Hm as (n & -> & Hn).
  destruct (place_node_hidden Box dagre_layout locale_le nodes edges E n Hn)
    as (Hh & _ & Hp).
  cbv zeta in Hh, Hp. rewrite Hp. intros Hroot.
  destruct (place_node_cases Box dagre_layout E (visibleNodes nodes E)
              (build_dagre locale_le nodes edges E) n) as [[Hy _]|[_ ->]];
    [|done].
  rewrite Hh in Hy. apply negb_true_iff, bool_decide_eq_false in Hy.
  destruct Hy. apply elem_of_visibleNodes. exists n.
  split_and!; [done|done|]. unfold parent_rule. by rewrite Hroot.
Qed.

(** X10: a double click on a group node toggles its id in the expansion
    set and lays the raw graph out again, which writes the new
    [data.isExpanded] onto the raw nodes that are shown.  A second double
    click on the same node brings back the expansion set, and the graph is
    drawn as the layout of the first raw graph with that set draws it: the
    same nodes are shown, with the same fields and boxes.  Neither click
    posts a message, changes the array of [rawNodes], the navigation stack
    or the request id, or writes anything but [data.isExpanded] in a raw
    node. *)
Theorem group_double_click_twice_restores (node : RFNode) (now1 now2 : N)
    (st : State') :
  n_type node = Some "group" ->
  let E := s_expandedIdsRef st in
  let E' := toggle (n_id node) E in
  let r1 := onNodeDoubleClick' node now1 st in
  let r2 := onNodeDoubleClick' node now2 (fst r1) in
  let layout1 := getLayoutedElements' (s_rawNodes st) (s_rawEdges st) E' in
  s_expandedIdsRef (fst r1) = E'
  /\ (s_nodes (fst r1), s_edges (fst r1)) = layout1
  /\ s_rawNodes (fst r1) = written_nodes Box layout1
  /\ s_expandedIdsRef (fst r2) = E
  /\ s_expandedIds (fst r2) = E
  /\ (s_nodes (fst r2), s_edges (fst r2))
     = getLayoutedElements' (written_nodes Box layout1) (s_rawEdges st) E
  /\ map (rendered Box) (s_nodes (fst r2))
     = map (rendered Box)
         (fst (getLayoutedElements' (s_rawNodes st) (s_rawEdges st) E))
  /\ snd r1 = [] /\ snd r2 = []
  /\ s_rawArray (fst r2) = s_rawArray st
  /\ map without_isExpanded (s_rawNodes (fst r2))
     = map without_isExpanded (s_rawNodes st)
  /\ s_rawEdges (fst r2) = s_rawEdges st
  /\ s_viewStack (fst r2) = s_viewStack st
  /\ s_activeRequestId (fst r2) = s_activeRequestId st.
Proof.
  intros Hg E E' r1 r2 layout1.
  assert (Hr1 : r1 = (triggerLayout Box dagre_layout locale_le (s_rawArray st)
                        (s_rawEdges st) E'
                        (mkState Box (s_nodes st) (s_edges st) E' E'
                           (s_rawArray st) (s_rawEdges st)
                           (s_activeRequestId st) (s_viewStack st)
                           (s_currentLabel st) (s_isLoading st)
                           (s_arrays st)), [])).
  { unfold r1, Webview.onNodeDoubleClick, is_drillable_type.
    rewrite Hg. by simpl. }
  set (st1 := fst r1).
  assert (Hraw1 : s_rawNodes st1 = written_nodes Box layout1).
  { unfold st1. rewrite Hr1. cbn [fst]. unfold Webview.s_rawNodes.
    rewrite array_nodes_triggerLayout. cbn [s_rawArray Webview.triggerLayout].
    by rewrite decide_True. }
  assert (Hf1 : s_expandedIdsRef st1 = E' /\ s_rawArray st1 = s_rawArray st
                /\ s_rawEdges st1 = s_rawEdges st
                /\ s_viewStack st1 = s_viewStack st
                /\ s_activeRequestId st1 = s_activeRequestId st).
  { unfold st1. rewrite Hr1. by cbn. }
  destruct Hf1 as (He1 & Ha1 & Hed1 & Hs1 & Ht1).
  assert (Hr2 : r2 = (triggerLayout Box dagre_layout locale_le (s_rawArray st1)
                        (s_rawEdges st1) E
                        (mkState Box (s_nodes st1) (s_edges st1) E E
                           (s_rawArray st1) (s_rawEdges st1)
                           (s_activeRequestId st1) (s_viewStack st1)
                           (s_currentLabel st1) (s_isLoading st1)
                           (s_arrays st1)), [])).
  { unfold r2. fold st1. unfold Webview.onNodeDoubleClick, is_drillable_type.
    rewrite Hg. simpl. rewrite He1. unfold E'. by rewrite toggle_twice. }
  assert (Hl2 : (s_nodes (fst r2), s_edges (fst r2))
                = getLayoutedElements' (written_nodes Box layout1)
                    (s_rawEdges st) E).
  { rewrite Hr2. cbn [fst]. unfold Webview.triggerLayout. cbn [s_nodes s_edges].
    change (array_nodes _ (s_rawArray st1)) with (s_rawNodes st1).
    rewrite Hraw1, Hed1. by destruct (Webview.getLayoutedElements _ _ _ _ _ _). }
  assert (Hraw2 : s_rawNodes (fst r2)
                  = written_nodes Box
                      (getLayoutedElements' (written_nodes Box layout1)
                         (s_rawEdges st) E)).
  { rewrite Hr2. cbn [fst]. unfold Webview.s_rawNodes.
    rewrite array_nodes_triggerLayout. cbn [s_rawArray Webview.triggerLayout].
    rewrite decide_True by done.
    change (array_nodes _ (s_rawArray st1)) with (s_rawNodes st1).
    by rewrite Hraw1, Hed1. }
  split_and!.
  - exact He1.
  - unfold st1. rewrite Hr1. cbn [fst]. unfold Webview.triggerLayout.
    cbn [s_nodes s_edges].
    change (array_nodes _ (s_rawArray st)) with (s_rawNodes st).
    by destruct (Webview.getLayoutedElements _ _ _ _ _ _).
  - exact Hraw1.
  - by rewrite Hr2.
  - by rewrite Hr2.
  - exact Hl2.
  - apply (f_equal fst) in Hl2. cbn [fst] in Hl2. rewrite Hl2.
    apply layout_same_payload. apply written_nodes_payload.
  - by rewrite Hr1.
  - by rewrite Hr2.
  - rewrite Hr2. cbn. exact Ha1.
  - rewrite Hraw2, written_nodes_payload. apply written_nodes_payload.
  - rewrite Hr2. cbn. exact Hed1.
  - rewrite Hr2. cbn. exact Hs1.
  - rewrite Hr2. cbn. exact Ht1.
Qed.

(** X11: a drill-down followed at once by "back" brings back the array of
    [rawNodes], the raw edges, the navigation stack and the label, and
    clears the request id.  The raw nodes do not come back as they were:
    the layout of "back", computed with the empty expansion set, writes
    onto the node objects of the restored array, so that every root of
    the raw graph ends up with [data.isExpanded = false], whatever it held
    before; the other fields of the raw nodes, and the other arrays, are
    untouched.  The expansion set of the controller is the one of before,
    and the loading flag that the drill-down raised stays raised. *)
Theorem drill_then_back_restores_the_view (node : RFNode) (now : N)
    (st : State') :
  is_drillable_type node = true ->
  has_files node = true ->
  let st' := goBack' (fst (onNodeDoubleClick' node now st)) in
  let layout := getLayoutedElements' (s_rawNodes st) (s_rawEdges st) ∅ in
  s_rawArray st' = s_rawArray st
  /\ s_rawNodes st' = written_nodes Box layout
  /\ map without_isExpanded (s_rawNodes st')
     = map without_isExpanded (s_rawNodes st)
  /\ Forall (fun n => JS.truthy (n_parentNode n) = false ->
                      d_isExpanded (n_data n) = Some false)
       (s_rawNodes st')
  /\ (forall a, a <> s_rawArray st -> array_nodes st' a = array_nodes st a)
  /\ s_rawEdges st' = s_rawEdges st
  /\ s_viewStack st' = s_viewStack st
  /\ s_currentLabel st' = s_currentLabel st
  /\ s_activeRequestId st' = None
  /\ (s_nodes st', s_edges st') = layout
  /\ s_expandedIdsRef st' = s_expandedIdsRef st
  /\ s_expandedIds st' = s_expandedIds st
  /\ s_isLoading st' = true.
Proof.
  intros Hd Hf st' layout.
  destruct (drill_request Box dagre_layout locale_le node now st Hd Hf)
    as (_ & Hstack & Harr & Hstore & _ & _ & _ & Href & Hexp).
  set (st1 := fst (onNodeDoubleClick' node now st)) in *.
  assert (Hload : s_isLoading st1 = true).
  { unfold st1, Webview.onNodeDoubleClick. by rewrite Hd, Hf. }
  assert (Hnodes : forall a, array_nodes st1 a = array_nodes st a).
  { intros a. unfold Webview.array_nodes. by rewrite Hstore. }
  destruct (goBack_fields Box dagre_layout locale_le _ _ _ Hstack)
    as (H1 & H2 & H3 & H4 & H5 & H6 & H7 & H8 & H9 & H10 & H11).
  fold st' in H1, H2, H3, H4, H5, H6, H7, H8, H9, H10, H11.
  unfold Webview.vf_nodes in H3, H7. cbn [vf_array vf_edges vf_label] in *.
  rewrite Hnodes in H3, H7.
  change (array_nodes st (s_rawArray st)) with (s_rawNodes st) in H3, H7.
  fold layout in H3, H7.
  split_and!; try done; try congruence.
  - rewrite H3. apply written_nodes_payload.
  - rewrite H3. eapply Forall_impl; [apply written_roots|].
    intros n Hn Hroot. rewrite (Hn Hroot).
    by rewrite bool_decide_eq_false_2 by apply not_elem_of_empty.
  - intros a Ha. rewrite H11 by done. apply Hnodes.
Qed.

(** *** What every reachable state satisfies *)

Lemma layout_of_nothing E :
  getLayoutedElements' [] [] E = ([], []).
Proof. done. Qed.

(** After a layout pass over the array of [rawNodes], the graph on display
    is the layout of the raw graph as the pass has left it. *)
Lemma triggerLayout_view_ok e E st :
  s_expandedIds st = s_expandedIdsRef st ->
  s_activeRequestId st <> Some "" ->
  s_rawEdges st = e ->
  (E = s_expandedIdsRef st \/ E = ∅) ->
  view_ok Box dagre_layout locale_le
    (triggerLayout Box dagre_layout locale_le (s_rawArray st) e E st).
Proof.
  intros He Ht Hed HE. unfold view_ok. split_and!; [done|done|].
  exists E. split; [done|].
  unfold Webview.s_rawNodes. rewrite array_nodes_triggerLayout.
  cbn [s_rawArray s_rawEdges s_nodes s_edges Webview.triggerLayout].
  rewrite decide_True by done. rewrite Hed, layout_of_written_nodes.
  by destruct (Webview.getLayoutedElements _ _ _ _ _ _).
Qed.

Lemma applyUpdate_view_ok data st :
  view_ok Box dagre_layout locale_le st ->
  view_ok Box dagre_layout locale_le (applyUpdate' data st).
Proof.
  intros (He & Ht & _). unfold Webview.applyUpdate. cbv zeta.
  match goal with
  | |- view_ok _ _ _ (Webview.triggerLayout _ _ _ ?a ?e ?E ?st1) =>
      apply (triggerLayout_view_ok e E st1)
  end; try done. by left.
Qed.

Lemma handleMessage_view_ok message st :
  view_ok Box dagre_layout locale_le st ->
  view_ok Box dagre_layout locale_le (handleMessage' message st).
Proof.
  intros H. destruct message as [data requestId|]; [|done]. simpl.
  destruct (JS.truthy _); [destruct (negb _)|]; try done;
    by apply applyUpdate_view_ok.
Qed.

Lemma goBack_view_ok st :
  view_ok Box dagre_layout locale_le st ->
  view_ok Box dagre_layout locale_le (goBack' st).
Proof.
  intros H. unfold Webview.goBack.
  destruct (last (s_viewStack st)) as [prev|] eqn:E; [|done].
  destruct H as (He & Ht & _). cbv zeta.
  match goal with
  | |- view_ok _ _ _ (Webview.triggerLayout _ _ _ ?a ?e ?E ?st1) =>
      apply (triggerLayout_view_ok e E st1)
  end; try done. by right.
Qed.

Lemma doubleClick_view_ok node now st :
  view_ok Box dagre_layout locale_le st ->
  view_ok Box dagre_layout locale_le (fst (onNodeDoubleClick' node now st)).
Proof.
  intros H. unfold Webview.onNodeDoubleClick.
  destruct (is_drillable_type node).
  - destruct (negb (has_files node)); [done|].
    destruct H as (He & Ht & E & HE & Hl). unfold view_ok. simpl.
    split_and!; [done| |by exists E].
    intros [= Hp]. by apply pretty_N_nonempty in Hp.
  - destruct (bool_decide (n_type node = Some "group")).
    + destruct H as (He & Ht & _). cbv zeta. cbn [fst].
      match goal with
      | |- view_ok _ _ _ (Webview.triggerLayout _ _ _ ?a ?e ?E ?st1) =>
          apply (triggerLayout_view_ok e E st1)
      end; try done. by left.
    + destruct (bool_decide _); [done|].
      by destruct (d_files (n_data node)) as [[|file files]|].
Qed.

(** X12: in every state that the controller reaches from its first
    render, by any sequence of messages, double clicks and "back", the
    expansion state and its ref hold the same set, the request id is
    never the empty string, and the graph on display is the layout of the
    raw graph (as the node objects of its array are then), computed with
    the expansion set of the controller or with the empty set. *)
Theorem display_is_a_layout_of_the_raw_graph (events : list Event) :
  let st := run' events (initial_state Box) in
  s_expandedIds st = s_expandedIdsRef st
  /\ s_activeRequestId st <> Some ""
  /\ exists E,
       (E = s_expandedIdsRef st \/ E = ∅)
       /\ (s_nodes st, s_edges st)
          = getLayoutedElements' (s_rawNodes st) (s_rawEdges st) E.
Proof.
  intros st. change (view_ok Box dagre_layout locale_le st).
  unfold st, Webview.run. apply foldl_invariant.
  - apply Forall_forall. intros ev _ a Ha. destruct ev as [m|node now|]; simpl.
    + by apply handleMessage_view_ok.
    + by apply doubleClick_view_ok.
    + by apply goBack_view_ok.
  - unfold view_ok. simpl. split_and!; [done|done|].
    exists ∅. split; [by left|done].
Qed.

(** The layout keeps the type of a node. *)
Lemma written_nodes_normalised E nodes edges :
  Forall normalised nodes ->
  Forall normalised (written_nodes Box (getLayoutedElements' nodes edges E)).
Proof.
  intros Hn. unfold Webview.written_nodes, Webview.getLayoutedElements.
  cbn [fst]. rewrite map_map. apply Forall_forall. intros m Hm.
  apply (list_elem_of_fmap_1 _) in Hm as (n & -> & Hin).
  rewrite Forall_forall in Hn. specialize (Hn n Hin).
  destruct (place_node_cases Box dagre_layout E (visibleNodes nodes E)
              (build_dagre locale_le nodes edges E) n) as [[_ ->]|[_ ->]];
    done.
Qed.

Lemma array_nodes_normalised st a :
  types_ok Box st -> Forall normalised (array_nodes st a).
Proof.
  intros H. unfold Webview.array_nodes.
  destruct (s_arrays st !! a) as [nodes|] eqn:E; [|done].
  unfold types_ok in H. rewrite Forall_lookup in H. by apply (H a).
Qed.

Lemma triggerLayout_types_ok n e E st :
  types_ok Box st ->
  types_ok Box (triggerLayout Box dagre_layout locale_le n e E st).
Proof.
  intros H. unfold types_ok, Webview.triggerLayout. cbn [s_arrays].
  apply Forall_insert; [done|].
  apply written_nodes_normalised. by apply array_nodes_normalised.
Qed.

Lemma applyUpdate_types_ok data st :
  types_ok Box st -> types_ok Box (applyUpdate' data st).
Proof.
  intros H. unfold Webview.applyUpdate. cbv zeta.
  apply triggerLayout_types_ok. unfold types_ok. cbn [s_arrays].
  apply Forall_app. split; [done|]. apply Forall_singleton.
  apply Forall_forall. intros n Hn.
  apply (list_elem_of_fmap_1 _) in Hn as (m & -> & _).
  apply safeNode_normalised.
Qed.

Lemma step_types_ok ev st :
  types_ok Box st -> types_ok Box (step' st ev).
Proof.
  intros H. destruct ev as [m|node now|]; simpl.
  - destruct m as [data requestId|]; [|done]. simpl.
    destruct (JS.truthy _); [destruct (negb _)|]; try done;
      by apply applyUpdate_types_ok.
  - unfold Webview.onNodeDoubleClick. destruct (is_drillable_type node).
    + by destruct (negb (has_files node)).
    + destruct (bool_decide (n_type node = Some "group")).
      * cbn [fst]. by apply triggerLayout_types_ok.
      * destruct (bool_decide _); [done|].
        by destruct (d_files (n_data node)) as [[|file files]|].
  - unfold Webview.goBack.
    destruct (last (s_viewStack st)) as [prev|] eqn:E; [|done].
    by apply triggerLayout_types_ok.
Qed.

(** X13: in every state that the controller reaches from its first
    render, every node of the raw graph and of every saved view carries
    one of the seven known types, in [type] and in [data.type], whatever
    the payloads of the updates held and whatever the layout has written
    since. *)
Theorem raw_nodes_are_always_normalised (events : list Event) :
  let st := run' events (initial_state Box) in
  Forall normalised (s_rawNodes st)
  /\ Forall (fun frame => Forall normalised (vf_nodes st frame))
       (s_viewStack st).
Proof.
  intros st.
  assert (H : types_ok Box st).
  { unfold st, Webview.run. apply foldl_invariant.
    - apply Forall_forall. intros ev _ a Ha. by apply step_types_ok.
    - unfold types_ok. simpl. by repeat constructor. }
  split.
  - by apply array_nodes_normalised.
  - apply Forall_forall. intros frame _. by apply array_nodes_normalised.
Qed.

Lemma triggerLayout_store_ok n e E st :
  store_ok Box st ->
  store_ok Box (triggerLayout Box dagre_layout locale_le n e E st).
Proof.
  intros [Hr Hs]. unfold store_ok, Webview.triggerLayout.
  cbn [s_rawArray s_arrays s_viewStack]. by rewrite length_insert.
Qed.

Lemma step_store_ok ev st :
  store_ok Box st -> store_ok Box (step' st ev).
Proof.
  intros H. destruct ev as [m|node now|]; simpl.
  - assert (Ha : forall data, store_ok Box (applyUpdate' data st)).
    { intros data. unfold Webview.applyUpdate. cbv zeta.
      apply triggerLayout_store_ok. destruct H as [Hr Hs].
      unfold store_ok. cbn [s_rawArray s_arrays s_viewStack].
      rewrite length_app. simpl. split; [lia|].
      eapply Forall_impl; [exact Hs|]. intros frame Hf. simpl in Hf. lia. }
    destruct m as [data requestId|]; [|done]. simpl.
    destruct (JS.truthy _); [destruct (negb _)|]; try done; apply Ha.
  - unfold Webview.onNodeDoubleClick. destruct (is_drillable_type node).
    + destruct (negb (has_files node)); [done|].
      destruct H as [Hr Hs]. unfold store_ok. simpl. split; [done|].
      apply Forall_app. split; [done|]. by apply Forall_singleton.
    + destruct (bool_decide (n_type node = Some "group")).
      * cbn [fst]. by apply triggerLayout_store_ok.
      * destruct (bool_decide _); [done|].
        by destruct (d_files (n_data node)) as [[|file files]|].
  - unfold Webview.goBack.
    destruct (last (s_viewStack st)) as [prev|] eqn:E; [|done].
    apply triggerLayout_store_ok. destruct H as [Hr Hs].
    unfold store_ok. cbn [s_rawArray s_arrays s_viewStack]. split.
    + rewrite Forall_forall in Hs. apply Hs.
      apply last_Some in E as (l' & ->). apply elem_of_app. right.
      by apply list_elem_of_singleton.
    + by apply Forall_take.
Qed.

(** X30: in every state that the controller reaches from its first
    render, the arrays that [rawNodes] and the saved frames refer to are
    in the store.  Hence an update that is applied, whose nodes go into a
    new array, leaves every saved view as it is: no frame shares its array
    with the new raw graph, and what the layout of the update writes does
    not reach the nodes of a frame. *)
Theorem saved_views_outlive_updates (events : list Event) (data : GraphData) :
  let st := run' events (initial_state Box) in
  let st' := applyUpdate' data st in
  s_rawArray st < length (s_arrays st)
  /\ Forall (fun frame => vf_array frame < length (s_arrays st))
       (s_viewStack st)
  /\ s_rawArray st' = length (s_arrays st)
  /\ s_viewStack st' = s_viewStack st
  /\ Forall (fun frame => vf_array frame <> s_rawArray st'
                          /\ vf_nodes st' frame = vf_nodes st frame)
       (s_viewStack st').
Proof.
  intros st st'.
  assert (H : store_ok Box st).
  { unfold st, Webview.run. apply foldl_invariant.
    - apply Forall_forall. intros ev _ a Ha. by apply step_store_ok.
    - unfold store_ok. simpl. split; [lia|constructor]. }
  destruct H as [Hr Hs].
  destruct (applyUpdate_fields Box dagre_layout locale_le data st)
    as (Ha & _ & _ & _ & _ & _ & _ & Hstack & _ & _ & Hold).
  fold st' in Ha, Hstack, Hold.
  split_and!; [done|done|done|done|].
  rewrite Hstack. eapply Forall_impl; [exact Hs|].
  intros frame Hf. simpl in Hf. split; [lia|].
  unfold Webview.vf_nodes. by apply Hold.
Qed.

End ControllerProperties.

Section LayoutProperties.

Import Webview.

Variable Box : Type.
Variable dagre_layout : DagreGraph -> string -> Box.
Variable locale_le : string -> string -> bool.

Lemma visible_id_has_node nodes edges E x :
  x ∈ visibleNodes nodes E ->
  has_node x (build_dagre locale_le nodes edges E) = true.
Proof.
  intros Hx. pose proof Hx as Hx'.
  apply elem_of_visibleNodes in Hx' as (n & Hn & <- & _).
  by apply visible_has_node.
Qed.

Lemma add_to_dagre_links E vis g node :
  dg_edges (add_to_dagre E vis g node) = dg_edges g
  /\ forall c p, (c, p) ∈ dg_parents (add_to_dagre E vis g node) ->
       (c, p) ∈ dg_parents g \/ (c ∈ vis /\ p ∈ vis).
Proof.
  unfold add_to_dagre. case_bool_decide as Hv; [|by split; [|left]].
  destruct (node_size E node) as [w h].
  destruct (JS.truthy (n_parentNode node)); simpl; [|by split; [|left]].
  case_bool_decide as Hp; simpl; [|by split; [|left]].
  split; [done|]. intros c p Hcp. apply elem_of_app in Hcp as [Hcp|Hcp].
  - by left.
  - apply list_elem_of_singleton in Hcp as [= -> ->]. by right.
Qed.

Lemma foldl_add_to_dagre_links E vis nodes :
  forall g,
    dg_edges (foldl (add_to_dagre E vis) g nodes) = dg_edges g
    /\ forall c p, (c, p) ∈ dg_parents (foldl (add_to_dagre E vis) g nodes) ->
         (c, p) ∈ dg_parents g \/ (c ∈ vis /\ p ∈ vis).
Proof.
  induction nodes as [|n nodes IH]; intros g; simpl; [by split; [|left]|].
  destruct (IH (add_to_dagre E vis g n)) as [He Hp].
  destruct (add_to_dagre_links E vis g n) as [He1 Hp1].
  split; [by rewrite He|].
  intros c p Hcp. destruct (Hp c p Hcp) as [H|H]; [|by right].
  by apply Hp1.
Qed.

Lemma foldl_add_edge_links vis edges :
  forall g,
    dg_parents (foldl (add_edge_to_dagre vis) g edges) = dg_parents g
    /\ forall s t, (s, t) ∈ dg_edges (foldl (add_edge_to_dagre vis) g edges) ->
         (s, t) ∈ dg_edges g
         \/ (s ∈ vis /\ t ∈ vis
             /\ exists e, e ∈ edges /\ e_source e = s /\ e_target e = t).
Proof.
  induction edges as [|e edges IH]; intros g; simpl; [by split; [|left]|].
  destruct (IH (add_edge_to_dagre vis g e)) as [Hp He].
  split.
  - rewrite Hp. unfold add_edge_to_dagre. by destruct (_ && _).
  - intros s t Hst. destruct (He s t Hst) as [H|(Hs & Ht & e' & He' & Hse)].
    + unfold add_edge_to_dagre in H.
      destruct (bool_decide (e_source e ∈ vis)) eqn:E1;
        [destruct (bool_decide (e_target e ∈ vis)) eqn:E2|];
        simpl in H; try by left.
      apply elem_of_app in H as [H|H]; [by left|].
      apply list_elem_of_singleton in H as [= -> ->].
      apply bool_decide_eq_true in E1, E2. right.
      split_and!; [done|done|]. exists e. split_and!; [left|done|done].
    + right. split_and!; [done|done|]. exists e'. split; [by right|done].
Qed.

(** X14: the compound graph that the layout hands to dagre is closed:
    both ends of each of its edges and both sides of each of its parent
    links are nodes of it, and each of its edges is an edge of the input
    whose two ends are shown. *)
Theorem dagre_graph_is_closed (nodes : list RFNode) (edges : list RFEdge)
    (expandedIds : gset string) :
  let g := build_dagre locale_le nodes edges expandedIds in
  (forall s t, (s, t) ∈ dg_edges g ->
     has_node s g = true /\ has_node t g = true
     /\ exists e, e ∈ edges /\ e_source e = s /\ e_target e = t)
  /\ (forall c p, (c, p) ∈ dg_parents g ->
        has_node c g = true /\ has_node p g = true).
Proof.
  intros g. unfold g, build_dagre.
  set (vis := visibleNodes nodes expandedIds).
  set (g1 := foldl (add_to_dagre expandedIds vis) empty_dagre
               (sort_by_id locale_le nodes)).
  destruct (foldl_add_to_dagre_links expandedIds vis
              (sort_by_id locale_le nodes) empty_dagre) as [He1 Hp1].
  destruct (foldl_add_edge_links vis edges g1) as [Hp2 He2].
  fold g1 in He1, Hp1.
  split.
  - intros s t Hst. destruct (He2 s t Hst) as [H|(Hs & Ht & He)].
    + rewrite He1 in H. by inversion H.
    + split_and!; [| |done].
      * exact (visible_id_has_node nodes edges expandedIds s Hs).
      * exact (visible_id_has_node nodes edges expandedIds t Ht).
  - intros c p Hcp. rewrite Hp2 in Hcp.
    destruct (Hp1 c p Hcp) as [H|[Hc Hp]]; [by inversion H|].
    split.
    + exact (visible_id_has_node nodes edges expandedIds c Hc).
    + exact (visible_id_has_node nodes edges expandedIds p Hp).
Qed.

Lemma visible_iff_parent_rule nodes E n :
  NoDup (map n_id nodes) ->
  n ∈ nodes ->
  n_id n ∈ visibleNodes nodes E <-> parent_rule E n = true.
Proof.
  intros Hnd Hn. rewrite elem_of_visibleNodes. split.
  - intros (m & Hm & Hid & Hr).
    assert (m = n) as <-; [|done].
    apply list_elem_of_lookup in Hm as (i & Hi), Hn as (j & Hj).
    assert (i = j) as ->.
    { eapply NoDup_lookup; [exact Hnd| |].
      - rewrite list_lookup_fmap, Hi. done.
      - rewrite list_lookup_fmap, Hj. simpl. by rewrite Hid. }
    congruence.
  - intros Hr. by exists n.
Qed.

Lemma layout_ids nodes edges E :
  map (fun ln => n_id (ln_node ln))
    (fst (getLayoutedElements Box dagre_layout locale_le nodes edges E))
  = map n_id nodes.
Proof.
  unfold getLayoutedElements. simpl. rewrite map_map.
  apply map_ext_in. intros n Hn. apply list_elem_of_In in Hn.
  by destruct (place_node_hidden Box dagre_layout locale_le nodes edges E n Hn)
    as (_ & H & _).
Qed.

Lemma layout_of_roots nodes edges E :
  Forall (fun n => n_parentNode n = None) nodes ->
  map ln_hidden
    (fst (getLayoutedElements Box dagre_layout locale_le nodes edges E))
  = map (fun _ => false) nodes.
Proof.
  intros Hroots. rewrite layout_hidden_flags.
  apply map_ext_in. intros n Hn. apply list_elem_of_In in Hn.
  rewrite bool_decide_eq_true_2; [done|].
  apply elem_of_visibleNodes. exists n. split_and!; [done|done|].
  rewrite Forall_forall in Hroots. unfold parent_rule.
  by rewrite (Hroots n Hn).
Qed.

(** In a node list without parents every node is shown, and written. *)
Lemma written_nodes_of_roots nodes edges E :
  Forall (fun n => n_parentNode n = None) nodes ->
  written_nodes Box
    (getLayoutedElements Box dagre_layout locale_le nodes edges E)
  = map (fun n => with_isExpanded (bool_decide (n_id n ∈ E)) n) nodes.
Proof.
  intros Hroots. unfold written_nodes, getLayoutedElements. cbn [fst].
  rewrite map_map. apply map_ext_in. intros n Hn. apply list_elem_of_In in Hn.
  destruct (place_node_hidden Box dagre_layout locale_le nodes edges E n Hn)
    as (Hh & _).
  cbv zeta in Hh.
  destruct (place_node_cases Box dagre_layout E (visibleNodes nodes E)
              (build_dagre locale_le nodes edges E) n) as [[Hy _]|[_ ->]];
    [|done].
  rewrite Hh in Hy. apply negb_true_iff, bool_decide_eq_false in Hy.
  destruct Hy. apply elem_of_visibleNodes. exists n.
  split_and!; [done|done|]. rewrite Forall_forall in Hroots.
  unfold parent_rule. by rewrite (Hroots n Hn).
Qed.

(** X15: "back" shows the roots of the restored view and nothing else:
    when the ids of the saved view are pairwise distinct, a node of the
    graph on display after "back" is hidden exactly when it has a parent,
    whatever the expansion set of the controller holds. *)
Theorem back_shows_the_roots_only (st : State Box) (stack : list ViewFrame)
    (prev : ViewFrame) :
  s_viewStack st = stack ++ [prev] ->
  NoDup (map n_id (vf_nodes st prev)) ->
  let st' := goBack Box dagre_layout locale_le st in
  map ln_hidden (s_nodes st')
  = map (fun n => JS.truthy (n_parentNode n)) (vf_nodes st prev)
  /\ map (fun ln => n_id (ln_node ln)) (s_nodes st')
     = map n_id (vf_nodes st prev).
Proof.
  intros Hstack Hnd st'.
  destruct (goBack_fields Box dagre_layout locale_le st stack prev Hstack)
    as (_ & _ & _ & _ & _ & _ & Hl & _).
  fold st' in Hl. apply (f_equal fst) in Hl. cbn [fst] in Hl. rewrite Hl.
  split.
  - rewrite layout_hidden_flags. apply map_ext_in. intros n Hn.
    apply list_elem_of_In in Hn.
    destruct (JS.truthy (n_parentNode n)) eqn:Et.
    + rewrite bool_decide_eq_false_2; [done|].
      rewrite (visible_iff_parent_rule _ _ _ Hnd Hn).
      unfold parent_rule. rewrite Et. simpl.
      rewrite bool_decide_eq_false_2; [done|]. apply not_elem_of_empty.
    + rewrite bool_decide_eq_true_2; [done|].
      apply (visible_iff_parent_rule _ _ _ Hnd Hn).
      unfold parent_rule. by rewrite Et.
  - apply layout_ids.
Qed.

(** X16: a process graph converted for the webview is flat, so an update
    that carries one shows all of it: every node is displayed, in the
    order of the process graph, and the expansion set is left as it was,
    but for the single node of a one-node graph, which is expanded when
    nothing else is. *)
Theorem converted_flow_is_shown_whole (processData : ProcessGraphData)
    (st : State Box) :
  let st' := applyUpdate Box dagre_layout locale_le
               (GraphService.convertProcessToReactFlow processData) st in
  map ln_hidden (s_nodes st') = map (fun _ => false) (pg_nodes processData)
  /\ map (fun ln => n_id (ln_node ln)) (s_nodes st')
     = map pn_id (pg_nodes processData)
  /\ s_expandedIdsRef st'
     = match pg_nodes processData with
       | [n] => if (size (s_expandedIdsRef st) =? 0)%nat
                then {[pn_id n]} ∪ s_expandedIdsRef st
                else s_expandedIdsRef st
       | _ => s_expandedIdsRef st
       end.
Proof.
  intros st'.
  destruct (applyUpdate_fields Box dagre_layout locale_le
              (GraphService.convertProcessToReactFlow processData) st)
    as (_ & _ & _ & Hl & Href & _).
  fold st' in Hl, Href. cbv zeta in Hl, Href.
  change (g_nodes (GraphService.convertProcessToReactFlow processData))
    with (map GraphService.convert_node (pg_nodes processData)) in Hl, Href.
  apply (f_equal fst) in Hl. cbn [fst] in Hl. rewrite Hl.
  set (safeNodes := map safeNode
                      (map GraphService.convert_node (pg_nodes processData)))
    in *.
  assert (Hroots : Forall (fun n => n_parentNode n = None) safeNodes).
  { unfold safeNodes. rewrite map_map. apply Forall_forall. intros n Hn.
    apply (list_elem_of_fmap_1 _) in Hn as (m & -> & _). done. }
  split_and!.
  - rewrite (layout_of_roots _ _ _ Hroots). unfold safeNodes.
    by rewrite !map_map.
  - rewrite layout_ids. unfold safeNodes. rewrite !map_map.
    by apply map_ext.
  - rewrite Href. unfold nextExpanded.
    rewrite (filter_keeps_all _ safeNodes).
    + unfold safeNodes. by destruct (pg_nodes processData) as [|n [|n' r]].
    + eapply Forall_impl; [exact Hroots|]. intros n ->. done.
Qed.

End LayoutProperties.

(** X10, witness: a graph of two roots, the chain and a lone system, so
    that nothing is expanded on arrival and the group of the chain is
    hidden, never written by a layout.  Two double clicks on the root of
    the chain bring back the expansion set and the drawing; the first has
    shown the group, whose [data.isExpanded] stays written. *)
Lemma group_double_click_twice_restores_witness :
  let st := Session.run0
              [Webview.Receive (Webview.UpdateGraph Session.two_roots None)] in
  let r1 := Webview.onNodeDoubleClick unit (fun _ _ => tt) String.leb
              Webview.chain_root 1000 st in
  let r2 := Webview.onNodeDoubleClick unit (fun _ _ => tt) String.leb
              Webview.chain_root 2000 (fst r1) in
  n_type Webview.chain_root = Some "group"
  /\ Webview.s_expandedIdsRef (fst r1)
     = Webview.toggle "root" (Webview.s_expandedIdsRef st)
  /\ Webview.s_expandedIdsRef (fst r2) = Webview.s_expandedIdsRef st
  /\ map (Webview.rendered unit) (Webview.s_nodes (fst r2))
     = map (Webview.rendered unit) (Webview.s_nodes st)
  /\ map Webview.without_isExpanded (Webview.s_rawNodes (fst r2))
     = map Webview.without_isExpanded (Webview.s_rawNodes st)
  /\ map (fun n => d_isExpanded (n_data n)) (Webview.s_rawNodes st)
     = [Some false; None; None; Some false]
  /\ map (fun n => d_isExpanded (n_data n)) (Webview.s_rawNodes (fst r2))
     = [Some false; Some false; None; Some false].
Proof.
  intros st r1 r2.
  assert (H : n_type Webview.chain_root = Some "group") by reflexivity.
  split; [exact H|].
  destruct (group_double_click_twice_restores unit (fun _ _ => tt) String.leb
              Webview.chain_root 1000 2000 st H)
    as (H1 & _ & _ & H4 & _ & _ & H7 & _ & _ & _ & H11 & _).
  split_and!; [exact H1|exact H4| |exact H11| |].
  - etransitivity; [exact H7|]. vm_compute. reflexivity.
  - vm_compute. reflexivity.
  - vm_compute. reflexivity.
Defined.

(** X11, witness: from the overview, a drill-down into the system node
    and "back".  The node comes back collapsed: the first layout had
    written [data.isExpanded = true] in it. *)
Lemma drill_then_back_restores_the_view_witness :
  let st := Session.run0 [Webview.Receive
                            (Webview.UpdateGraph Session.overview None)] in
  let st' := Webview.goBack unit (fun _ _ => tt) String.leb
               (fst (Webview.onNodeDoubleClick unit (fun _ _ => tt)
                       String.leb Session.system_node 1000 st)) in
  Webview.is_drillable_type Session.system_node = true
  /\ Webview.has_files Session.system_node = true
  /\ Webview.s_rawArray st' = Webview.s_rawArray st
  /\ map Webview.without_isExpanded (Webview.s_rawNodes st')
     = map Webview.without_isExpanded (Webview.s_rawNodes st)
  /\ Webview.s_viewStack st' = Webview.s_viewStack st
  /\ Webview.s_isLoading st' = true
  /\ map (fun n => d_isExpanded (n_data n)) (Webview.s_rawNodes st)
     = [Some true]
  /\ map (fun n => d_isExpanded (n_data n)) (Webview.s_rawNodes st')
     = [Some false].
Proof.
  intros st st'.
  assert (H1 : Webview.is_drillable_type Session.system_node = true)
    by reflexivity.
  assert (H2 : Webview.has_files Session.system_node = true) by reflexivity.
  destruct (drill_then_back_restores_the_view unit (fun _ _ => tt)
              String.leb Session.system_node 1000 st H1 H2)
    as (Ha & _ & Hn & _ & _ & _ & Hs & _ & _ & _ & _ & _ & Hl).
  split_and!; [exact H1|exact H2|exact Ha|exact Hn|exact Hs|exact Hl| |].
  - vm_compute. reflexivity.
  - vm_compute. reflexivity.
Defined.

(** X15, witness: "back" to the three-level chain with every group
    expanded; the root is shown, the group and the leaf are hidden. *)
Lemma back_shows_the_roots_only_witness :
  let prev := Webview.mkFrame 1 [] (Some "System Overview") in
  let st := Webview.mkState unit [] [] {["root"; "group"]} {["root"; "group"]}
              0 [] None [prev] (Some "Backend") false [[]; Webview.chain] in
  Webview.s_viewStack st = [] ++ [prev]
  /\ NoDup (map n_id (Webview.vf_nodes st prev))
  /\ map Webview.ln_hidden
       (Webview.s_nodes (Webview.goBack unit (fun _ _ => tt) String.leb st))
     = [false; true; true].
Proof.
  intros prev st.
  assert (H1 : Webview.s_viewStack st = [] ++ [prev]) by reflexivity.
  assert (H2 : NoDup (map n_id (Webview.vf_nodes st prev))).
  { apply (bool_decide_unpack _). vm_compute. exact I. }
  split_and!; [exact H1|exact H2|].
  destruct (back_shows_the_roots_only unit (fun _ _ => tt) String.leb st []
              prev H1 H2) as [Hh _].
  exact Hh.
Defined.

(* ===================================================================== *)
(** * A drill-down from the double click to the reply *)
(* ===================================================================== *)

Section RoundTripProperties.

Import Webview BlockManager Protocol.

Variable Box : Type.
Variable dagre_layout : DagreGraph -> string -> Box.
Variable locale_le : string -> string -> bool.
Variable basename : string -> string.
Variable asRelativePath : string -> string.
Variable generateSubsystemFlow :
  list string -> option ProcessGraphData * list string.
Variable loadSymbolsForFiles : list string -> list GraphService.FileEntry.
Variable oracle : GraphService.CallOracle.
Variable schedule : list GraphService.Probe -> list GraphService.Probe.

#[local] Abbreviation drill_round' :=
  (drill_round Box dagre_layout locale_le basename asRelativePath
     generateSubsystemFlow loadSymbolsForFiles oracle schedule).
#[local] Abbreviation onDrillDown' :=
  (onDrillDown basename asRelativePath generateSubsystemFlow
     loadSymbolsForFiles oracle schedule).

(** The reply to the request of a drill-down is applied. *)
Lemma own_reply_is_applied node now st data :
  is_drillable_type node = true ->
  has_files node = true ->
  handleMessage Box dagre_layout locale_le
    (updateGraph data (Some (pretty now)))
    (fst (onNodeDoubleClick Box dagre_layout locale_le node now st))
  = applyUpdate Box dagre_layout locale_le data
      (fst (onNodeDoubleClick Box dagre_layout locale_le node now st)).
Proof.
  intros Hd Hf.
  destruct (drill_request Box dagre_layout locale_le node now st Hd Hf)
    as (Ha & _).
  apply update_applied; [exact Ha|]. apply pretty_N_nonempty.
Qed.

(** X17: a double click on a system node that carries files is always
    answered: whatever the process-flow collaborator does, the handler of
    the extension sends one update with the request id of the double
    click, the webview applies it (the raw graph is the normalised payload,
    in a new array, as the layout has written it), and the loading flag is
    down; the view that was on display is the top of the navigation
    stack. *)
Theorem system_drill_down_is_always_answered (node : RFNode) (now : N)
    (st : State Box) :
  n_type node = Some "system" ->
  has_files node = true ->
  let st1 := fst (onNodeDoubleClick Box dagre_layout locale_le node now st) in
  let st2 := drill_round' node now st in
  exists data,
    answer basename asRelativePath generateSubsystemFlow loadSymbolsForFiles
      oracle schedule
      (snd (onNodeDoubleClick Box dagre_layout locale_le node now st))
    = [UpdateGraph data (Some (pretty now))]
    /\ st2 = applyUpdate Box dagre_layout locale_le data st1
    /\ s_rawArray st2 = length (s_arrays st)
    /\ s_rawNodes st2
       = written_nodes Box
           (getLayoutedElements Box dagre_layout locale_le
              (map safeNode (g_nodes data)) (g_edges data)
              (nextExpanded (map safeNode (g_nodes data))
                 (s_expandedIdsRef st)))
    /\ map without_isExpanded (s_rawNodes st2)
       = map without_isExpanded (map safeNode (g_nodes data))
    /\ s_isLoading st2 = false
    /\ s_activeRequestId st2 = Some (pretty now)
    /\ s_viewStack st2
       = s_viewStack st
         ++ [mkFrame (s_rawArray st) (s_rawEdges st) (s_currentLabel st)].
Proof.
  intros Ht Hf st1 st2.
  assert (Hd : is_drillable_type node = true).
  { unfold is_drillable_type. by rewrite Ht. }
  destruct (drill_request Box dagre_layout locale_le node now st Hd Hf)
    as (Ha & Hs & _ & Hstore & _ & _ & _ & Href & _).
  fold st1 in Ha, Hs, Hstore, Href.
  assert (Hans : exists data,
            answer basename asRelativePath generateSubsystemFlow
              loadSymbolsForFiles oracle schedule
              (snd (onNodeDoubleClick Box dagre_layout locale_le node now st))
            = [UpdateGraph data (Some (pretty now))]).
  { unfold onNodeDoubleClick. rewrite Hd, Hf. simpl.
    unfold has_files in Hf.
    destruct (d_files (n_data node)) as [[|f files]|]; try done. simpl.
    rewrite Ht, app_nil_r. unfold onDrillDown.
    cbn [dm_filePaths dm_nodeType dm_requestId dm_label].
    assert (Hlen : (0 <? length (f :: files))%nat = true) by done.
    rewrite Hlen. cbn [negb].
    rewrite bool_decide_eq_false_2 by done.
    destruct (generateSubsystemFlow (f :: files)) as [subsystemData files'].
    destruct (nontrivial_flow _) as [sd|].
    - by eexists.
    - cbv zeta. rewrite generateHeuristicFlow_length.
      assert (Hpos : (0 <? Nat.min 5 (length files') + 2)%nat = true).
      { apply Nat.ltb_lt. lia. }
      rewrite Hpos. by eexists. }
  destruct Hans as (data & Hans). exists data.
  assert (H2 : st2 = applyUpdate Box dagre_layout locale_le data st1).
  { pose proof (own_reply_is_applied node now st data Hd Hf) as H.
    unfold st2, st1, drill_round. revert Hans H.
    destruct (onNodeDoubleClick Box dagre_layout locale_le node now st)
      as [st1' posted].
    simpl. intros Hans H. rewrite Hans. simpl. exact H. }
  pose proof (applyUpdate_fields Box dagre_layout locale_le data st1) as Hfields.
  cbv zeta in Hfields. rewrite Hstore, Href in Hfields.
  destruct Hfields as (H0 & H3 & _ & _ & _ & _ & H4 & H5 & _ & H6 & _).
  split_and!; [exact Hans|exact H2|..]; rewrite H2.
  - exact H0.
  - exact H3.
  - rewrite H3. apply written_nodes_payload.
  - exact H6.
  - rewrite H4. exact Ha.
  - rewrite H5. exact Hs.
Qed.

(** X18: a double click on a process node that carries files is answered
    with the flattened component graph of those files, under a virtual
    root that bears the label of the node, when at least one of the files
    can be loaded.  When none can, the handler sends nothing: the webview
    stays as the double click left it, loading, with the request id
    active, and discards every update that does not carry this id. *)
Theorem process_drill_down_needs_a_loadable_file (node : RFNode) (now : N)
    (st : State Box) :
  n_type node = Some "process" ->
  has_files node = true ->
  let st1 := fst (onNodeDoubleClick Box dagre_layout locale_le node now st) in
  let st2 := drill_round' node now st in
  let files := default [] (d_files (n_data node)) in
  st2 = (if (0 <? length (loadSymbolsForFiles files))%nat
         then applyUpdate Box dagre_layout locale_le
                (componentGraph basename loadSymbolsForFiles oracle schedule
                   files (d_label (n_data node))) st1
         else st1)
  /\ s_isLoading st1 = true
  /\ s_activeRequestId st1 = Some (pretty now)
  /\ forall data requestId,
       requestId <> Some (pretty now) ->
       handleMessage Box dagre_layout locale_le (UpdateGraph data requestId)
         st1 = st1.
Proof.
  intros Ht Hf st1 st2 files.
  assert (Hd : is_drillable_type node = true).
  { unfold is_drillable_type. rewrite Ht. by rewrite orb_true_r. }
  destruct (drill_request Box dagre_layout locale_le node now st Hd Hf)
    as (Ha & _).
  fold st1 in Ha.
  split_and!; [| |exact Ha|].
  - assert (Hans :
      answer basename asRelativePath generateSubsystemFlow loadSymbolsForFiles
        oracle schedule
        (snd (onNodeDoubleClick Box dagre_layout locale_le node now st))
      = if (0 <? length (loadSymbolsForFiles files))%nat
        then [UpdateGraph
                (componentGraph basename loadSymbolsForFiles oracle schedule
                   files (d_label (n_data node)))
                (Some (pretty now))]
        else []).
    { unfold files, onNodeDoubleClick. rewrite Hd, Hf. simpl.
      unfold has_files in Hf.
      destruct (d_files (n_data node)) as [[|f fs]|]; try done. simpl.
      rewrite Ht, app_nil_r. unfold onDrillDown.
      cbn [dm_filePaths dm_nodeType dm_requestId dm_label].
      assert (Hlen : (0 <? length (f :: fs))%nat = true) by done.
      rewrite Hlen. cbn [negb].
      rewrite bool_decide_eq_true_2 by done.
      by destruct (0 <? length (loadSymbolsForFiles (f :: fs)))%nat. }
    pose proof (own_reply_is_applied node now st
                  (componentGraph basename loadSymbolsForFiles oracle schedule
                     files (d_label (n_data node))) Hd Hf) as Hown.
    unfold st2, st1, drill_round. revert Hans Hown.
    destruct (onNodeDoubleClick Box dagre_layout locale_le node now st)
      as [st1' posted].
    cbn [fst snd]. intros Hans Hown. rewrite Hans.
    destruct (0 <? length (loadSymbolsForFiles files))%nat; [|done].
    exact Hown.
  - unfold st1, onNodeDoubleClick. by rewrite Hd, Hf.
  - intros data requestId Hne.
    apply (update_discarded Box dagre_layout locale_le data requestId
             (pretty now) st1 Ha); [|done].
    apply pretty_N_nonempty.
Qed.

End RoundTripProperties.

(** X17, witness: the system node of the overview, with a process-flow
    collaborator that fails. *)
Lemma system_drill_down_is_always_answered_witness :
  let st := Session.run0 [Webview.Receive
                            (Webview.UpdateGraph Session.overview None)] in
  n_type Session.system_node = Some "system"
  /\ Webview.has_files Session.system_node = true
  /\ exists data,
       map Webview.without_isExpanded
         (Webview.s_rawNodes
            (Protocol.drill_round unit (fun _ _ => tt) String.leb (fun p => p)
               (fun p => p) (fun paths => (None, paths)) (fun _ => [])
               (fun _ _ _ => None) (fun l => l) Session.system_node 1000 st))
       = map Webview.without_isExpanded
           (map Webview.safeNode (g_nodes data)).
Proof.
  intros st.
  assert (H1 : n_type Session.system_node = Some "system") by reflexivity.
  assert (H2 : Webview.has_files Session.system_node = true) by reflexivity.
  split_and!; [exact H1|exact H2|].
  destruct (system_drill_down_is_always_answered unit (fun _ _ => tt)
              String.leb (fun p => p) (fun p => p) (fun paths => (None, paths))
              (fun _ => []) (fun _ _ _ => None) (fun l => l)
              Session.system_node 1000 st H1 H2)
    as (data & _ & _ & _ & _ & H & _).
  by exists data.
Defined.

(** X18, witness: the first step of the heuristic flow, when its file
    cannot be loaded. *)
Lemma process_drill_down_needs_a_loadable_file_witness :
  let st := Session.run0 [Webview.Receive
                            (Webview.UpdateGraph Session.flow_reply None)] in
  n_type Session.step_node = Some "process"
  /\ Webview.has_files Session.step_node = true
  /\ Protocol.drill_round unit (fun _ _ => tt) String.leb (fun p => p)
       (fun p => p) (fun paths => (None, paths)) (fun _ => [])
       (fun _ _ _ => None) (fun l => l) Session.step_node 1000 st
     = fst (Webview.onNodeDoubleClick unit (fun _ _ => tt) String.leb
              Session.step_node 1000 st).
Proof.
  intros st.
  assert (H1 : n_type Session.step_node = Some "process") by reflexivity.
  assert (H2 : Webview.has_files Session.step_node = true) by reflexivity.
  split_and!; [exact H1|exact H2|].
  destruct (process_drill_down_needs_a_loadable_file unit (fun _ _ => tt)
              String.leb (fun p => p) (fun p => p) (fun paths => (None, paths))
              (fun _ => []) (fun _ _ _ => None) (fun l => l)
              Session.step_node 1000 st H1 H2) as (H & _).
  exact H.
Defined.

(* ===================================================================== *)
(** * Properties of the symbol filter *)
(* ===================================================================== *)

Section SymbolFilterProperties.

Import GraphService SymbolParser.

Lemma kept_eq symbol :
  kept symbol
  = allowed (sym_kind symbol) && negb (is_import_name (sym_name symbol))
    && forallb kept (sym_children symbol).
Proof. by destruct symbol. Qed.

Lemma filterSymbol_eq symbol :
  filterSymbol symbol
  = if allowed (sym_kind symbol) then
      if is_import_name (sym_name symbol) then None
      else Some (mkSymbol (sym_name symbol) (sym_detail symbol)
                   (sym_kind symbol) (sym_line symbol) (sym_selLine symbol)
                   (sym_selChar symbol)
                   (filterSymbols (sym_children symbol)))
    else None.
Proof. by destruct symbol. Qed.

Lemma filterSymbols_cons symbol symbols :
  filterSymbols (symbol :: symbols)
  = match filterSymbol symbol with
    | Some s => s :: filterSymbols symbols
    | None => filterSymbols symbols
    end.
Proof. done. Qed.

(** What the filter returns holds kept symbols only, at every depth. *)
Lemma filterSymbol_kept symbol :
  forall symbol', filterSymbol symbol = Some symbol' -> kept symbol' = true.
Proof.
  induction symbol as [name detail kind line selLine selChar children IH]
    using symbol_ind.
  intros symbol'. rewrite filterSymbol_eq. simpl.
  destruct (allowed kind) eqn:Ea; [|done].
  destruct (is_import_name name) eqn:Ei; [done|].
  intros [= <-]. rewrite kept_eq. simpl. rewrite Ea, Ei. simpl.
  clear Ea Ei. induction IH as [|c cs Hc _ IHcs]; [done|].
  rewrite filterSymbols_cons. destruct (filterSymbol c) as [c'|] eqn:Ec.
  - simpl. rewrite (Hc c' eq_refl). exact IHcs.
  - exact IHcs.
Qed.

Lemma filterSymbols_kept symbols :
  forallb kept (filterSymbols symbols) = true.
Proof.
  induction symbols as [|s symbols IH]; [done|].
  rewrite filterSymbols_cons. destruct (filterSymbol s) as [s'|] eqn:E.
  - simpl. by rewrite (filterSymbol_kept s s' E).
  - exact IH.
Qed.

(** A kept symbol goes through the filter unchanged. *)
Lemma filterSymbol_of_kept symbol :
  kept symbol = true -> filterSymbol symbol = Some symbol.
Proof.
  induction symbol as [name detail kind line selLine selChar children IH]
    using symbol_ind.
  rewrite kept_eq, filterSymbol_eq. simpl.
  rewrite !andb_true_iff, negb_true_iff. intros [[-> ->] Hc].
  do 2 f_equal.
  induction IH as [|c cs Hc1 _ IHcs]; [done|].
  simpl in Hc. apply andb_true_iff in Hc as [Hk Hr].
  rewrite filterSymbols_cons, (Hc1 Hk). f_equal. by apply IHcs.
Qed.

Lemma filterSymbols_of_kept symbols :
  forallb kept symbols = true -> filterSymbols symbols = symbols.
Proof.
  induction symbols as [|s symbols IH]; [done|].
  intros H. simpl in H. apply andb_true_iff in H as [Hs Hr].
  rewrite filterSymbols_cons, (filterSymbol_of_kept s Hs). f_equal.
  by apply IH.
Qed.

(** X19: the symbol filter keeps a symbol only if its kind is allowed and
    its name is none of [import], [export], [require], [module.exports]
    (in any case), and this at every depth of what it returns; it returns
    a list unchanged exactly when all its symbols are of that sort; and
    filtering twice is filtering once.  What [getFileSymbols] returns is
    always filtered in this way, from whichever source the symbols come. *)
Theorem symbol_filter_is_a_deep_projection (symbols regex : list DocumentSymbol)
    (reply : ProviderReply) :
  forallb kept (filterSymbols symbols) = true
  /\ (filterSymbols symbols = symbols <-> forallb kept symbols = true)
  /\ filterSymbols (filterSymbols symbols) = filterSymbols symbols
  /\ forallb kept (getFileSymbols reply regex) = true
  /\ filterSymbols (getFileSymbols reply regex) = getFileSymbols reply regex.
Proof.
  assert (Hget : forallb kept (getFileSymbols reply regex) = true).
  { unfold getFileSymbols. destruct reply as [| |l]; [done| |].
    - apply filterSymbols_kept.
    - destruct (length l =? 0)%nat; apply filterSymbols_kept. }
  split_and!.
  - apply filterSymbols_kept.
  - split.
    + intros <-. apply filterSymbols_kept.
    + apply filterSymbols_of_kept.
  - apply filterSymbols_of_kept, filterSymbols_kept.
  - exact Hget.
  - by apply filterSymbols_of_kept.
Qed.

End SymbolFilterProperties.

(* ===================================================================== *)
(** * Properties of the grouping of files into modules *)
(* ===================================================================== *)

Section GroupingProperties.

Import ArchitectureInferenceService.

Variable asRelativePath : string -> string.

Lemma layer_of_layers filePath : layer_of filePath ∈ layers.
Proof.
  unfold layer_of, layers.
  repeat match goal with
         | |- context [if ?c then _ else _] => destruct c
         end; set_solver.
Qed.

(** A map filled by a loop over [paths] that sets [value p] at [p] when
    there is one. *)
Lemma lookup_foldl_insert (value : string -> option string)
    (paths : list string) :
  forall (m : gmap string string) p,
    foldl (fun map path =>
             match value path with
             | Some v => <[path := v]> map
             | None => map
             end) m paths !! p
    = if bool_decide (p ∈ paths)
      then match value p with
           | Some v => Some v
           | None => m !! p
           end
      else m !! p.
Proof.
  induction paths as [|q paths IH]; intros m p; simpl; [done|].
  rewrite IH. destruct (decide (p = q)) as [->|Hne].
  - rewrite (bool_decide_eq_true_2 (q ∈ q :: paths)) by left.
    destruct (value q) as [v|] eqn:Ev.
    + rewrite lookup_insert_eq. by case_bool_decide.
    + by case_bool_decide.
  - assert (Hm : (match value q with
                  | Some v => <[q := v]> m
                  | None => m
                  end) !! p = m !! p).
    { destruct (value q); [by rewrite lookup_insert_ne|done]. }
    rewrite Hm.
    destruct (decide (p ∈ paths)) as [Hin|Hout].
    + rewrite !bool_decide_eq_true_2; [done|by right|done].
    + rewrite !bool_decide_eq_false_2; [done| |done].
      intros H. apply elem_of_cons in H as [H|H]; done.
Qed.

Lemma lookup_fallbackHeuristic filePaths p :
  _fallbackHeuristic filePaths !! p
  = if bool_decide (p ∈ filePaths) then Some (layer_of p) else None.
Proof.
  unfold _fallbackHeuristic.
  rewrite (lookup_foldl_insert (fun path => Some (layer_of path))).
  by rewrite lookup_empty.
Qed.

Lemma lookup_getMapForFiles cache files p :
  _getMapForFiles cache files !! p
  = if bool_decide (p ∈ files) then cache !! p else None.
Proof.
  unfold _getMapForFiles.
  rewrite (lookup_foldl_insert (fun f => cache !! f)).
  rewrite lookup_empty. by destruct (cache !! p).
Qed.

Lemma lookup_parseJsonMap relMap originalPaths p :
  _parseJsonMap asRelativePath (Some relMap) originalPaths !! p
  = if bool_decide (p ∈ originalPaths) then relMap !! asRelativePath p
    else None.
Proof.
  unfold _parseJsonMap.
  rewrite (lookup_foldl_insert (fun f => relMap !! asRelativePath f)).
  rewrite lookup_empty. by destruct (relMap !! asRelativePath p).
Qed.

Lemma parseJsonMap_keys parsed originalPaths p :
  is_Some (_parseJsonMap asRelativePath parsed originalPaths !! p) ->
  p ∈ originalPaths.
Proof.
  destruct parsed as [relMap|].
  - rewrite lookup_parseJsonMap. case_bool_decide; [done|].
    intros [x Hx]. done.
  - simpl. rewrite lookup_empty. intros [x Hx]. done.
Qed.

(** X20: the heuristic classifier gives every path of its input one of
    its six layer names, the one of [layer_of], and gives nothing to any
    other path; so its result does not depend on the order of the paths,
    nor on how often a path occurs. *)
Theorem fallback_heuristic_is_total (filePaths : list string) :
  (forall p,
     _fallbackHeuristic filePaths !! p
     = if bool_decide (p ∈ filePaths) then Some (layer_of p) else None)
  /\ (forall p moduleName,
        _fallbackHeuristic filePaths !! p = Some moduleName ->
        moduleName ∈ layers)
  /\ (forall filePaths',
        (forall p, p ∈ filePaths <-> p ∈ filePaths') ->
        _fallbackHeuristic filePaths' = _fallbackHeuristic filePaths).
Proof.
  split_and!.
  - apply lookup_fallbackHeuristic.
  - intros p moduleName. rewrite lookup_fallbackHeuristic.
    case_bool_decide; [|done]. intros [= <-]. apply layer_of_layers.
  - intros filePaths' Hsame. apply map_eq. intros p.
    rewrite !lookup_fallbackHeuristic.
    destruct (decide (p ∈ filePaths)) as [Hin|Hout].
    + rewrite !bool_decide_eq_true_2; [done|done|by apply Hsame].
    + rewrite !bool_decide_eq_false_2; [done|done|].
      intros H. by apply Hsame in H.
Qed.

(** X21: unless the collaborator answers, [inferModules] gives a module
    to every requested file and to no other path, and leaves its cache as
    it is: this holds when no key is configured, when every requested file
    is in the cache, and when the request to the collaborator throws. *)
Theorem inferModules_is_total_without_an_answer (apiKey : option string)
    (cache : gmap string string) (callLLM : list string -> LLMReply)
    (filePaths : list string) :
  (JS.truthy apiKey = false
   \/ Forall (fun f => is_Some (cache !! f)) filePaths
   \/ callLLM filePaths = LLMThrows) ->
  let r := inferModules asRelativePath apiKey cache callLLM filePaths in
  (forall p, is_Some (fst r !! p) <-> p ∈ filePaths)
  /\ snd r = cache.
Proof.
  intros Hcase r.
  assert (Hfb : forall p, is_Some (_fallbackHeuristic filePaths !! p)
                          <-> p ∈ filePaths).
  { intros p. rewrite lookup_fallbackHeuristic.
    case_bool_decide; [by split|]. split; [|done]. intros [x Hx]. done. }
  assert (Hcached : Forall (fun f => is_Some (cache !! f)) filePaths ->
            forall p, is_Some (_getMapForFiles cache filePaths !! p)
                      <-> p ∈ filePaths).
  { intros Hall p. rewrite lookup_getMapForFiles.
    case_bool_decide as Hin.
    - split; [done|]. intros _. rewrite Forall_forall in Hall. by apply Hall.
    - split; [|done]. intros [x Hx]. done. }
  unfold r, inferModules.
  destruct (negb (JS.truthy apiKey) || (length filePaths =? 0)%nat) eqn:E1;
    [by split|].
  destruct (length (filter (fun f => cache !! f = None) filePaths) =? 0)%nat
    eqn:E2.
  - split; [|done]. simpl. apply Hcached.
    apply Nat.eqb_eq, length_zero_iff_nil in E2.
    apply Forall_forall. intros f Hf.
    destruct (cache !! f) as [x|] eqn:Ef; [done|].
    assert (Hin : f ∈ filter (fun f => cache !! f = None) filePaths).
    { by apply list_elem_of_filter. }
    rewrite E2 in Hin. by inversion Hin.
  - apply orb_false_iff in E1 as [E1 _]. apply negb_false_iff in E1.
    destruct Hcase as [Hk|[Hall|Hthrow]].
    + congruence.
    + exfalso. apply Nat.eqb_neq in E2. apply E2.
      apply length_zero_iff_nil, filter_drops_all.
      eapply Forall_impl; [exact Hall|]. intros f [x Hx] Hn. congruence.
    + rewrite Hthrow. by split.
Qed.

(** X22: once the collaborator has answered with a module for every
    requested file, asking again for the same files returns the same map
    from the cache, whatever the collaborator would answer this time, and
    leaves the cache as it is. *)
Theorem inferModules_answers_again_from_the_cache (apiKey : option string)
    (cache : gmap string string) (callLLM callLLM' : list string -> LLMReply)
    (filePaths : list string) :
  callLLM filePaths <> LLMThrows ->
  let r := inferModules asRelativePath apiKey cache callLLM filePaths in
  (forall p, p ∈ filePaths -> is_Some (fst r !! p)) ->
  inferModules asRelativePath apiKey (snd r) callLLM' filePaths = r.
Proof.
  intros Hanswer r Hall. unfold r in *. unfold inferModules in *.
  destruct (negb (JS.truthy apiKey) || (length filePaths =? 0)%nat) eqn:E1.
  { done. }
  destruct (length (filter (fun f => cache !! f = None) filePaths) =? 0)%nat
    eqn:E2.
  { cbn [fst snd]. by rewrite E2. }
  destruct (callLLM filePaths) as [|parsed] eqn:Ec; [done|].
  cbn [fst snd] in *.
  set (mapping := _parseJsonMap asRelativePath parsed filePaths) in *.
  assert (Hnone : filter (fun f => (mapping ∪ cache) !! f = None) filePaths
                  = []).
  { apply filter_drops_all, Forall_forall. intros f Hf Hn.
    destruct (Hall f Hf) as [x Hx].
    apply lookup_union_None in Hn as [Hn _]. congruence. }
  rewrite Hnone. simpl. f_equal.
  apply map_eq. intros p. rewrite lookup_getMapForFiles.
  case_bool_decide as Hin.
  - destruct (Hall p Hin) as [x Hx]. rewrite Hx.
    by apply lookup_union_Some_l.
  - destruct (mapping !! p) as [x|] eqn:Ex; [|done].
    exfalso. apply Hin. apply (parseJsonMap_keys parsed filePaths).
    fold mapping. by rewrite Ex.
Qed.

End GroupingProperties.

(** X21, witness: two files, no key. *)
Lemma inferModules_is_total_without_an_answer_witness :
  let cases :=
    JS.truthy None = false
    \/ Forall (fun f => is_Some ((∅ : gmap string string) !! f))
         ["/w/src/ui/App.tsx"; "/w/src/db/store.ts"]
    \/ (fun _ : list string => ArchitectureInferenceService.LLMThrows)
         ["/w/src/ui/App.tsx"; "/w/src/db/store.ts"]
       = ArchitectureInferenceService.LLMThrows in
  cases
  /\ snd (ArchitectureInferenceService.inferModules (fun p => p) None ∅
            (fun _ => ArchitectureInferenceService.LLMThrows)
            ["/w/src/ui/App.tsx"; "/w/src/db/store.ts"]) = ∅.
Proof.
  intros cases.
  assert (H : cases) by (left; reflexivity).
  split; [exact H|].
  destruct (inferModules_is_total_without_an_answer (fun p => p) None ∅
              (fun _ => ArchitectureInferenceService.LLMThrows)
              ["/w/src/ui/App.tsx"; "/w/src/db/store.ts"] H) as [_ Hc].
  exact Hc.
Defined.

(** X22, witness: the collaborator names a module for the one file asked
    for; the second request is made to a collaborator that throws. *)
Lemma inferModules_answers_again_from_the_cache_witness :
  let callLLM : list string -> ArchitectureInferenceService.LLMReply :=
    fun _ => ArchitectureInferenceService.LLMText
               (Some {["src/a.ts" := "Core"]}) in
  let r := ArchitectureInferenceService.inferModules (fun p => "src/a.ts")
             (Some "key") ∅ callLLM ["/w/src/a.ts"] in
  callLLM ["/w/src/a.ts"] <> ArchitectureInferenceService.LLMThrows
  /\ (forall p, p ∈ ["/w/src/a.ts"] -> is_Some (fst r !! p))
  /\ ArchitectureInferenceService.inferModules (fun p => "src/a.ts")
       (Some "key") (snd r)
       (fun _ => ArchitectureInferenceService.LLMThrows) ["/w/src/a.ts"]
     = r.
Proof.
  intros callLLM r.
  assert (H1 : callLLM ["/w/src/a.ts"]
               <> ArchitectureInferenceService.LLMThrows) by done.
  assert (H2 : forall p, p ∈ ["/w/src/a.ts"] -> is_Some (fst r !! p)).
  { intros p Hp. apply list_elem_of_singleton in Hp as ->.
    exists "Core". vm_compute. reflexivity. }
  split_and!; [exact H1|exact H2|].
  exact (inferModules_answers_again_from_the_cache (fun p => "src/a.ts")
           (Some "key") ∅ callLLM
           (fun _ => ArchitectureInferenceService.LLMThrows) ["/w/src/a.ts"]
           H1 H2).
Defined.

(* ===================================================================== *)
(** * Properties of the file filter, of the file cache and of the refresh *)
(* ===================================================================== *)

Section FileFilterProperties.

Import GraphFilterService.

Lemma chunks_from_spec {A} (filePaths : list A) :
  forall fuel i,
    length filePaths <= i + fuel ->
    concat (chunks_from fuel i filePaths) = drop i filePaths
    /\ Forall (fun chunk => 0 < length chunk <= chunkSize)
         (chunks_from fuel i filePaths).
Proof.
  induction fuel as [|fuel IH]; intros i Hlen; simpl.
  - split; [|done]. rewrite drop_ge; [done|lia].
  - destruct (i <? length filePaths)%nat eqn:E.
    + apply Nat.ltb_lt in E.
      destruct (IH (i + chunkSize)) as [Hc Hf]; [unfold chunkSize; lia|].
      split.
      * simpl. rewrite Hc, <- drop_drop. apply take_drop.
      * constructor; [|done].
        rewrite length_take, length_drop. unfold chunkSize. lia.
    + apply Nat.ltb_ge in E. split; [|done]. rewrite drop_ge; [done|lia].
Qed.

Lemma concat_chunks {A} (filePaths : list A) :
  concat (chunks filePaths) = filePaths.
Proof.
  unfold chunks.
  by destruct (chunks_from_spec filePaths (length filePaths) 0) as [Hc _];
    [lia|].
Qed.

(** X23: the chunks of the file filter cut the path list without loss:
    put end to end they are the list, in order, and each holds at least
    one path and at most a hundred. *)
Theorem chunks_cut_the_list_without_loss {A} (filePaths : list A) :
  concat (chunks filePaths) = filePaths
  /\ Forall (fun chunk => 0 < length chunk <= 100) (chunks filePaths).
Proof.
  unfold chunks.
  destruct (chunks_from_spec filePaths (length filePaths) 0) as [Hc Hf];
    [lia|].
  split; [exact Hc|exact Hf].
Qed.

Lemma foldl_append_chunks (answer : list string -> list string)
    (chunkList : list (list string)) :
  forall acc,
    foldl (fun allowedPaths chunk => allowedPaths ++ answer chunk) acc
      chunkList
    = acc ++ concat (map answer chunkList).
Proof.
  induction chunkList as [|c cs IH]; intros acc; simpl.
  - by rewrite app_nil_r.
  - by rewrite IH, app_assoc.
Qed.

Lemma filterFiles_spec apiKey callLLM filePaths :
  filterFiles apiKey callLLM filePaths
  = if negb (JS.truthy apiKey) || (length filePaths =? 0)%nat then filePaths
    else concat (map (fun chunk =>
                        match callLLM chunk with
                        | Some filtered => filtered
                        | None => chunk
                        end) (chunks filePaths)).
Proof.
  unfold filterFiles. destruct (_ || _); [done|].
  by rewrite (foldl_append_chunks
                (fun chunk => match callLLM chunk with
                              | Some filtered => filtered
                              | None => chunk
                              end)).
Qed.

End FileFilterProperties.

Section ScanProperties.

Import GraphFilterService Workspace.

Variable Uri : Type.
Variable fsPath : Uri -> string.

(** X24: the workspace scan parses a sublist of the files it has found,
    whatever the filter collaborator returns: a path that the
    collaborator makes up is not scanned.  When no key is configured, or
    when every request to the collaborator throws, the filter returns the
    paths as they are and every file is scanned. *)
Theorem scan_keeps_found_files_only (apiKey : option string)
    (callLLM : list string -> option (list string)) (allFiles : list Uri) :
  sublist (scan_files Uri fsPath apiKey callLLM allFiles) allFiles
  /\ (JS.truthy apiKey = false \/ (forall chunk, callLLM chunk = None) ->
      filterFiles apiKey callLLM (map fsPath allFiles) = map fsPath allFiles
      /\ scan_files Uri fsPath apiKey callLLM allFiles = allFiles).
Proof.
  split.
  - unfold scan_files. apply sublist_filter.
  - intros Hcase.
    assert (Hf : filterFiles apiKey callLLM (map fsPath allFiles)
                 = map fsPath allFiles).
    { rewrite filterFiles_spec.
      destruct (negb (JS.truthy apiKey)
                || (length (map fsPath allFiles) =? 0)%nat) eqn:E; [done|].
      apply orb_false_iff in E as [E _]. apply negb_false_iff in E.
      destruct Hcase as [Hk|Hthrow]; [congruence|].
      rewrite (map_ext _ (fun chunk => chunk)).
      - rewrite map_id. apply concat_chunks.
      - intros chunk. by rewrite Hthrow. }
    split; [exact Hf|].
    unfold scan_files. rewrite Hf. apply filter_keeps_all.
    apply Forall_forall. intros f Hin.
    by apply (list_elem_of_fmap_2 fsPath).
Qed.

End ScanProperties.

Section CacheProperties.

Import GraphService SymbolParser Workspace.

Lemma cache_set_keys key value cache :
  map fst (cache_set key value cache)
  = map fst cache ++ (if bool_decide (key ∈ map fst cache) then [] else [key]).
Proof.
  induction cache as [|[k v] cache IH]; simpl; [done|].
  destruct (String.eqb k key) eqn:E.
  - apply String.eqb_eq in E as ->. simpl.
    rewrite bool_decide_eq_true_2 by left. by rewrite app_nil_r.
  - apply String.eqb_neq in E. simpl. rewrite IH. f_equal.
    destruct (decide (key ∈ map fst cache)) as [Hin|Hout].
    + rewrite !bool_decide_eq_true_2; [done|by right|done].
    + rewrite !bool_decide_eq_false_2; [done| |done].
      intros H. apply elem_of_cons in H as [H|H]; [congruence|done].
Qed.

Lemma cache_set_entries key value cache kv :
  kv ∈ cache_set key value cache -> kv = (key, value) \/ kv ∈ cache.
Proof.
  induction cache as [|[k v] cache IH]; simpl.
  - intros H. apply list_elem_of_singleton in H. by left.
  - destruct (String.eqb k key) eqn:E.
    + apply String.eqb_eq in E as ->. intros H.
      apply elem_of_cons in H as [H|H]; [by left|]. right. by right.
    + intros H. apply elem_of_cons in H as [H|H].
      * right. rewrite H. left.
      * destruct (IH H) as [?|?]; [by left|]. right. by right.
Qed.

Lemma cache_set_ok key document symbols cache :
  symbols <> [] ->
  forallb kept symbols = true ->
  cache_ok cache ->
  cache_ok (cache_set key (mkFile document symbols) cache).
Proof.
  intros Hne Hk [Hnd Hall]. split.
  - rewrite cache_set_keys. case_bool_decide as Hin.
    + by rewrite app_nil_r.
    + apply NoDup_app. split_and!; [done| |apply NoDup_singleton].
      intros x Hx Hx'. apply list_elem_of_singleton in Hx' as ->. done.
  - apply Forall_forall. intros kv Hkv.
    apply cache_set_entries in Hkv as [->|Hkv]; [done|].
    rewrite Forall_forall in Hall. by apply Hall.
Qed.

Lemma cache_delete_ok key cache :
  cache_ok cache -> cache_ok (cache_delete key cache).
Proof.
  intros [Hnd Hall]. unfold cache_delete. split.
  - apply (sublist_NoDup _ (map fst cache)); [exact Hnd|].
    apply (fmap_sublist fst), sublist_filter.
  - apply Forall_forall. intros kv Hkv.
    apply list_elem_of_filter in Hkv as [_ Hkv].
    rewrite Forall_forall in Hall. by apply Hall.
Qed.

Lemma getFileSymbols_kept reply regex :
  forallb kept (getFileSymbols reply regex) = true.
Proof.
  unfold getFileSymbols. destruct reply as [| |l]; [done| |].
  - apply filterSymbols_kept.
  - destruct (length l =? 0)%nat; apply filterSymbols_kept.
Qed.

Lemma cache_step_ok cache ev : cache_ok cache -> cache_ok (cache_step cache ev).
Proof.
  intros Hok.
  destruct ev as [document fileScheme reply regex|document reply regex
                  |file opened reply regex]; simpl.
  - destruct fileScheme; simpl; [|done].
    destruct (length (getFileSymbols reply regex) =? 0)%nat eqn:E.
    + by apply cache_delete_ok.
    + apply cache_set_ok; [|apply getFileSymbols_kept|done].
      intros H. rewrite H in E. done.
  - destruct (length (getFileSymbols reply regex) =? 0)%nat eqn:E; [done|].
    apply cache_set_ok; [|apply getFileSymbols_kept|done].
    intros H. rewrite H in E. done.
  - destruct opened as [document|]; [|done].
    destruct (0 <? length (getFileSymbols reply regex))%nat eqn:E; [|done].
    apply cache_set_ok; [|apply getFileSymbols_kept|done].
    intros H. rewrite H in E. done.
Qed.

(** X25: whatever the editor events, the graph updates and the workspace
    scan put into the file cache, no key of the cache has two entries, and
    every entry holds at least one symbol and only symbols that the symbol
    filter keeps: a refresh never hands the assembler a file without
    symbols, nor a variable, a constant or an import. *)
Theorem file_cache_holds_filtered_symbols (events : list CacheEvent) :
  let cache := cache_run events in
  NoDup (map fst cache)
  /\ Forall (fun kv =>
               f_symbols (snd kv) <> []
               /\ forallb kept (f_symbols (snd kv)) = true)
       cache.
Proof.
  intros cache. change (cache_ok cache). unfold cache, cache_run.
  apply foldl_invariant.
  - apply Forall_forall. intros ev _ a Ha. by apply cache_step_ok.
  - split; [apply NoDup_nil_2|done].
Qed.

End CacheProperties.

Section RefreshProperties.

Import GraphService GraphShape Workspace.

Variable basename : string -> string.

Lemma in_a_module_weaken nodes nodes' n :
  (forall x, x ∈ nodes -> x ∈ nodes') ->
  in_a_module nodes n -> in_a_module nodes' n.
Proof.
  unfold in_a_module. intros Hsub. destruct (n_parentNode n); [|done].
  intros (m & Hp & Hm). exists m. split; [done|]. by apply Hsub.
Qed.

Lemma grouped_blocks semanticMap files :
  forall seen pre,
    (forall moduleName, moduleName ∈ seen -> module_node moduleName ∈ pre) ->
    Forall (fun file =>
              is_Some (module_of semanticMap (doc_fsPath (f_document file))))
      files ->
    Forall (in_a_module
              (pre ++ file_blocks basename semanticMap None false seen files))
      (file_blocks basename semanticMap None false seen files).
Proof.
  induction files as [|file files IH]; intros seen pre Hseen Hall; [done|].
  apply Forall_cons in Hall as [[m Hm] Hall].
  cbn [file_blocks].
  set (block := file_block basename semanticMap None false seen file).
  set (rest := file_blocks basename semanticMap None false
                 (seen_after semanticMap seen file) files).
  assert (Hmod : module_node m ∈ pre ++ block).
  { unfold block, file_block. rewrite Hm. case_bool_decide as Hin.
    - apply elem_of_app. left. by apply Hseen.
    - apply elem_of_app. right. apply elem_of_app. left.
      by apply list_elem_of_singleton. }
  apply Forall_app. split.
  - apply Forall_forall. intros n Hn.
    apply (in_a_module_weaken (pre ++ block)).
    { intros x Hx. rewrite app_assoc. apply elem_of_app. by left. }
    unfold block, file_block in Hn. rewrite Hm in Hn. simpl in Hn.
    apply elem_of_app in Hn as [Hn|Hn].
    + destruct (bool_decide (m ∈ seen)); [by inversion Hn|].
      apply list_elem_of_singleton in Hn as ->. unfold in_a_module. simpl.
      by exists m.
    + apply list_elem_of_omap in Hn as (item & _ & Hn).
      apply component_of_type in Hn as [_ Hp].
      unfold in_a_module. rewrite Hp. exists m. split; [|done].
      unfold parent_of. by rewrite Hm.
  - rewrite app_assoc. apply IH; [|done].
    intros moduleName. unfold seen_after. rewrite Hm. intros Hin.
    apply elem_of_union in Hin as [Hin|Hin].
    + apply elem_of_singleton in Hin as ->. done.
    + apply elem_of_app. left. by apply Hseen.
Qed.

Variable generateSystemFlow :
  list string -> option ProcessGraphData * list string.
Variable inferModules : list string -> gmap string string.
Variable oracle : CallOracle.
Variable schedule : list Probe -> list Probe.

(** X26: a refresh for which no system flow is at hand (the service
    returns none, or one without nodes) posts, without a request id, the
    flattened graph of the cached files under the grouping of
    [inferModules].  When that grouping has a module for every cached
    file, which is the case unless the collaborator answered, every node
    of the posted graph is either a module container, without parent, or
    a node whose parent is the container of a module that is in the
    graph: the fallback root is not referred to. *)
Theorem refresh_without_system_flow_is_grouped (fileCache : FileCache) :
  let allFiles := map snd fileCache in
  let paths := map (fun f => doc_fsPath (f_document f)) allFiles in
  let archMap := inferModules (snd (generateSystemFlow paths)) in
  match fst (generateSystemFlow paths) with
  | Some pd => length (pg_nodes pd) = 0
  | None => True
  end ->
  (forall p, p ∈ paths -> is_Some (archMap !! p)) ->
  let g := generateGraph basename allFiles (Some archMap) None false oracle
             schedule in
  _refreshGraph basename generateSystemFlow inferModules oracle schedule true
    fileCache = Some (g, None)
  /\ Forall (in_a_module (g_nodes g)) (g_nodes g).
Proof.
  intros allFiles paths archMap Hflow Htotal g. split.
  - unfold _refreshGraph. cbn [negb]. fold allFiles. fold paths.
    unfold g, archMap.
    destruct (generateSystemFlow paths) as [processData paths'].
    cbn [fst snd] in *.
    destruct processData as [pd|]; [|done]. by rewrite Hflow.
  - unfold g. rewrite generateGraph_shape. cbn [JS.truthy app].
    apply (grouped_blocks (Some archMap) allFiles ∅ []).
    + intros m Hm. by apply not_elem_of_empty in Hm.
    + apply Forall_forall. intros file Hfile. simpl. apply Htotal.
      unfold paths.
      by apply (list_elem_of_fmap_2 (fun f => doc_fsPath (f_document f))).
Qed.

End RefreshProperties.

(** X26, witness: one cached file, no key: the system flow is [null] and
    the grouping is the one of the heuristic classifier. *)
Lemma refresh_without_system_flow_is_grouped_witness :
  let fileCache : Workspace.FileCache := [("file:///w/a.ts", Session.a_ts)] in
  let generateSystemFlow :=
    fun paths : list string => (@None ProcessGraphData, paths) in
  let paths := ["/w/a.ts"] in
  let archMap :=
    ArchitectureInferenceService._fallbackHeuristic
      (snd (generateSystemFlow paths)) in
  match fst (generateSystemFlow paths) with
  | Some pd => length (pg_nodes pd) = 0
  | None => True
  end
  /\ (forall p, p ∈ paths -> is_Some (archMap !! p))
  /\ Forall (GraphShape.in_a_module
               (g_nodes (GraphService.generateGraph (fun p => p)
                           [Session.a_ts] (Some archMap) None false
                           (fun _ _ _ => None) (fun l => l))))
       (g_nodes (GraphService.generateGraph (fun p => p) [Session.a_ts]
                   (Some archMap) None false (fun _ _ _ => None)
                   (fun l => l))).
Proof.
  intros fileCache generateSystemFlow paths archMap.
  assert (H1 : match fst (generateSystemFlow paths) with
               | Some pd => length (pg_nodes pd) = 0
               | None => True
               end) by exact I.
  assert (H2 : forall p, p ∈ paths -> is_Some (archMap !! p)).
  { intros p Hp. apply list_elem_of_singleton in Hp as ->.
    exists "Core / Utilities". vm_compute. reflexivity. }
  split_and!; [exact H1|exact H2|].
  destruct (refresh_without_system_flow_is_grouped (fun p => p)
              generateSystemFlow
              ArchitectureInferenceService._fallbackHeuristic
              (fun _ _ _ => None) (fun l => l) fileCache H1 H2) as [_ H].
  exact H.
Defined.

(* ===================================================================== *)
(** * Further properties of the process flows *)
(* ===================================================================== *)

Section FlowLabelProperties.

Import ProcessInferenceService.

Variable asRelativePath : string -> string.

Lemma split_nonempty sep s : JS.split sep s <> [].
Proof.
  destruct s as [|c r]; simpl; [done|].
  destruct (Ascii.eqb c sep); [done|]. by destruct (JS.split sep r).
Qed.

Lemma concat_cons_cons sep x y ys :
  String.concat sep (x :: y :: ys)
  = x +:+ sep +:+ String.concat sep (y :: ys).
Proof. done. Qed.

(** Joining the pieces of a split with the separator gives the string
    back, and no piece holds the separator. *)
Lemma split_pieces sep s :
  String.concat (String sep "") (JS.split sep s) = s
  /\ Forall (fun piece => JSString.has_char sep piece = false)
       (JS.split sep s).
Proof.
  induction s as [|c r [IHj IHp]]; [by split; [|constructor]|].
  pose proof (split_nonempty sep r) as Hne.
  cbn [JS.split]. destruct (JS.split sep r) as [|p ps]; [done|].
  destruct (Ascii.eqb c sep) eqn:E.
  - apply Ascii.eqb_eq in E as ->. split; [|by constructor].
    by rewrite concat_cons_cons, IHj.
  - apply Forall_cons in IHp as [Hp Hps]. split.
    + destruct ps as [|q qs].
      * simpl in *. by rewrite IHj.
      * rewrite concat_cons_cons in *. by rewrite <- IHj.
    + constructor; [|done]. simpl. by rewrite E.
Qed.

(** X27: the name in the label of a step of the heuristic flow is the
    last segment of the relative path of its file: the path is its
    segments joined by slashes, no segment holds a slash, and the name is
    the last of them, or ['File'] when the last segment is empty (the path
    is empty or ends with a slash).  So the name is never empty and holds
    no slash. *)
Theorem step_label_names_the_last_segment (fp : string) :
  exists dirs segment,
    JS.split "/" (asRelativePath fp) = dirs ++ [segment]
    /\ asRelativePath fp = String.concat "/" (dirs ++ [segment])
    /\ Forall (fun piece => JSString.has_char "/" piece = false)
         (dirs ++ [segment])
    /\ file_name asRelativePath fp
       = (if String.eqb segment "" then "File" else segment)
    /\ file_name asRelativePath fp <> ""
    /\ JSString.has_char "/" (file_name asRelativePath fp) = false.
Proof.
  destruct (split_pieces "/" (asRelativePath fp)) as [Hj Hp].
  pose proof (split_nonempty "/" (asRelativePath fp)) as Hne.
  destruct (exists_last Hne) as (dirs & segment & Hs).
  change (dirs ++ [segment])%list with (dirs ++ [segment]) in Hs.
  exists dirs, segment. rewrite Hs in Hj, Hp.
  assert (Hname : file_name asRelativePath fp
                  = (if String.eqb segment "" then "File" else segment)).
  { unfold file_name, JS.pop. by rewrite Hs, last_snoc. }
  split_and!; [done|done|done|done| |].
  - rewrite Hname. destruct (String.eqb segment "") eqn:E; [done|].
    by apply String.eqb_neq in E.
  - rewrite Hname. destruct (String.eqb segment ""); [done|].
    apply Forall_app in Hp as [_ Hp].
    rewrite Forall_singleton in Hp. exact Hp.
Qed.

End FlowLabelProperties.

Section FlowDrillProperties.

Import Webview ProcessInferenceService.

Variable Box : Type.
Variable dagre_layout : DagreGraph -> string -> Box.
Variable locale_le : string -> string -> bool.
Variable asRelativePath : string -> string.

(** X28: once the heuristic flow of a file list is on display, each of
    its steps is a process node that carries exactly its own file: the
    step [i] is the node of index [i + 1] of the raw graph and of the graph
    on display, where it is shown, with the [data.isExpanded] that the
    layout has written; a double click on it asks for a drill-down into
    that one file, under the label of the step.  The start node carries no
    file and no location: a double click on it posts nothing. *)
Theorem flow_steps_drill_into_their_file (filePaths : list string)
    (label : string) (st : State Box) (i : nat) (fp : string) (now : N) :
  take 5 filePaths !! i = Some fp ->
  let data := GraphService.convertProcessToReactFlow
                (generateHeuristicFlow asRelativePath filePaths label) in
  let st' := applyUpdate Box dagre_layout locale_le data st in
  let written n :=
    with_isExpanded (bool_decide (n_id n ∈ s_expandedIdsRef st)) n in
  let node := written (safeNode (GraphService.convert_node
                                   (step_node asRelativePath i fp))) in
  let start := written (safeNode (GraphService.convert_node
                                    (start_node label))) in
  s_rawNodes st' !! S i = Some node
  /\ ln_node <$> s_nodes st' !! S i = Some node
  /\ ln_hidden <$> s_nodes st' !! S i = Some false
  /\ snd (onNodeDoubleClick Box dagre_layout locale_le node now st')
     = [DrillDown [fp] (Some ("Execute " +:+ file_name asRelativePath fp))
          (Some "process") (pretty now)]
  /\ s_rawNodes st' !! 0 = Some start
  /\ snd (onNodeDoubleClick Box dagre_layout locale_le start now st') = [].
Proof.
  intros Hi data st' written node start.
  set (flow := start_node label
               :: imap (step_node asRelativePath) (take 5 filePaths)
               ++ [end_node]).
  set (safeNodes := map safeNode (map GraphService.convert_node flow)).
  assert (Hdata : map safeNode (g_nodes data) = safeNodes).
  { unfold data, GraphService.convertProcessToReactFlow. cbn [g_nodes].
    by rewrite generateHeuristicFlow_nodes. }
  assert (Hroots : Forall (fun n => n_parentNode n = None) safeNodes).
  { unfold safeNodes. rewrite map_map. apply Forall_forall. intros n Hn.
    apply (list_elem_of_fmap_1 _) in Hn as (m & -> & _). done. }
  assert (Hnext : nextExpanded safeNodes (s_expandedIdsRef st)
                  = s_expandedIdsRef st).
  { unfold nextExpanded. rewrite (filter_keeps_all _ safeNodes).
    - unfold safeNodes, flow. simpl.
      by destruct (imap (step_node asRelativePath) (take 5 filePaths)).
    - eapply Forall_impl; [exact Hroots|]. intros n ->. done. }
  destruct (applyUpdate_fields Box dagre_layout locale_le data st)
    as (_ & Hraw & _ & Hl & _).
  fold st' in Hraw, Hl. cbv zeta in Hraw, Hl.
  rewrite Hdata, Hnext in Hraw, Hl.
  rewrite (written_nodes_of_roots Box dagre_layout locale_le _ _ _ Hroots)
    in Hraw.
  apply (f_equal fst) in Hl. cbn [fst] in Hl.
  assert (Hstep : safeNodes !! S i
                  = Some (safeNode (GraphService.convert_node
                                      (step_node asRelativePath i fp)))).
  { unfold safeNodes, flow. simpl. rewrite !list_lookup_fmap.
    rewrite lookup_app_l.
    - by rewrite list_lookup_imap, Hi.
    - rewrite length_imap. by apply lookup_lt_Some in Hi. }
  assert (Hnodes : ln_node <$> s_nodes st' = s_rawNodes st').
  { rewrite Hl, Hraw.
    by rewrite <- (written_nodes_of_roots Box dagre_layout locale_le _
                     (g_edges data) _ Hroots). }
  split_and!.
  - rewrite Hraw. change (map ?f ?l) with (f <$> l).
    by rewrite list_lookup_fmap, Hstep.
  - rewrite <- list_lookup_fmap, Hnodes, Hraw.
    change (map ?f ?l) with (f <$> l).
    by rewrite list_lookup_fmap, Hstep.
  - rewrite <- list_lookup_fmap, Hl.
    change (ln_hidden <$> ?l) with (map ln_hidden l).
    rewrite (layout_of_roots Box dagre_layout locale_le _ _ _ Hroots).
    change (map ?f ?l) with (f <$> l).
    by rewrite list_lookup_fmap, Hstep.
  - done.
  - by rewrite Hraw.
  - done.
Qed.

End FlowDrillProperties.

(** X28, witness: the heuristic flow of one file. *)
Lemma flow_steps_drill_into_their_file_witness :
  let st := Webview.initial_state unit in
  let st' := Webview.applyUpdate unit (fun _ _ => tt) String.leb
               Session.flow_reply st in
  take 5 ["/w/a.ts"] !! 0 = Some "/w/a.ts"
  /\ snd (Webview.onNodeDoubleClick unit (fun _ _ => tt) String.leb
            (Webview.with_isExpanded false
               (Webview.safeNode
                  (GraphService.convert_node
                     (ProcessInferenceService.step_node (fun p => p) 0
                        "/w/a.ts"))))
            1000 st')
     = [Webview.DrillDown ["/w/a.ts"] (Some "Execute a.ts") (Some "process")
          "1000"].
Proof.
  intros st st'.
  assert (H : take 5 ["/w/a.ts"] !! 0 = Some "/w/a.ts") by reflexivity.
  split; [exact H|].
  destruct (flow_steps_drill_into_their_file unit (fun _ _ => tt) String.leb
              (fun p => p) ["/w/a.ts"] "Backend" st 0 "/w/a.ts" 1000 H)
    as (_ & _ & _ & Hd & _).
  exact Hd.
Defined.

Section ReadFilesProperties.

Import ProcessContext.

Variable asRelativePath : string -> string.
Variable readFile : string -> option string.

Lemma strlen_append (s t : string) :
  strlen (s +:+ t) = (strlen s + strlen t)%N.
Proof.
  unfold strlen. rewrite <- Nat2N.inj_add. f_equal.
  induction s as [|c s IH]; simpl; [done|]. by rewrite IH.
Qed.

Lemma length_substring_0 n (s : string) :
  String.length (String.substring 0 n s) <= n.
Proof.
  revert s. induction n as [|n IH]; intros s.
  - by destruct s.
  - destruct s as [|c s]; simpl; [lia|]. specialize (IH s). lia.
Qed.

Lemma strlen_substring0 n (s : string) : (strlen (substring0 n s) <= n)%N.
Proof.
  unfold strlen, substring0.
  pose proof (length_substring_0 (N.to_nat n) s). lia.
Qed.

Lemma strlen_header p :
  strlen (header asRelativePath p) = (16 + strlen (asRelativePath p))%N.
Proof.
  unfold header, newline. rewrite !strlen_append. unfold strlen. simpl. lia.
Qed.

Lemma strlen_truncate content : (strlen (truncate content) <= 8014)%N.
Proof.
  unfold truncate. destruct (8000 <? strlen content)%N eqn:E.
  - rewrite strlen_append. pose proof (strlen_substring0 8000 content).
    unfold strlen at 2. simpl. lia.
  - apply N.ltb_ge in E. lia.
Qed.

Lemma read_step_inv framed acc p :
  read_inv framed acc ->
  read_inv (framed + overhead asRelativePath p)
    (read_step asRelativePath readFile acc p).
Proof.
  intros [Hc Ho]. unfold read_step, read_inv, overhead in *.
  destruct (r_broken acc) eqn:Eb.
  { rewrite Eb. split; [done|lia]. }
  destruct (MAX_CHARS <=? r_currentChars acc)%N eqn:Em.
  { simpl. split; [done|lia]. }
  destruct (readFile p) as [content|].
  2:{ rewrite Eb. split; [done|lia]. }
  cbv zeta.
  destruct (MAX_CHARS <? r_currentChars acc + strlen (truncate content))%N
    eqn:Et.
  - cbn [r_currentChars r_output r_broken]. split; [done|].
    rewrite !strlen_append, strlen_header.
    pose proof (strlen_substring0 (MAX_CHARS - r_currentChars acc)
                  (truncate content)).
    unfold newline. unfold strlen at 4 5. simpl. lia.
  - apply N.ltb_ge in Et. cbn [r_currentChars r_output r_broken].
    split; [done|].
    rewrite !strlen_append, strlen_header.
    unfold newline. unfold strlen at 4. simpl. lia.
Qed.

Lemma read_loop_inv paths :
  forall framed acc,
    read_inv framed acc ->
    read_inv (framed + framing asRelativePath paths)
      (foldl (read_step asRelativePath readFile) acc paths).
Proof.
  induction paths as [|p paths IH]; intros framed acc Hinv; simpl.
  - by rewrite N.add_0_r.
  - rewrite N.add_assoc. apply IH. by apply read_step_inv.
Qed.

(** X29: the code context that [_readFiles] builds for a request is
    bounded: it is made from the first fifty paths only, the content of a
    file enters it cut to 8,014 characters at most, the content counted
    against the budget never exceeds 100,000 characters, and the whole
    text is at most 100,024 characters longer than the framing of those
    paths (17 characters and the relative path for each); a file that
    cannot be read adds nothing. *)
Theorem code_context_is_bounded (paths : list string) :
  _readFiles asRelativePath readFile paths
  = _readFiles asRelativePath readFile (take 50 paths)
  /\ (forall content, (strlen (truncate content) <= 8014)%N)
  /\ (r_currentChars (read_loop asRelativePath readFile paths) <= 100000)%N
  /\ (strlen (_readFiles asRelativePath readFile paths)
      <= 100024 + framing asRelativePath (take 50 paths))%N
  /\ (forall acc p, readFile p = None ->
        read_step asRelativePath readFile acc p
        = if negb (r_broken acc) && (MAX_CHARS <=? r_currentChars acc)%N
          then mkRead (r_output acc) (r_currentChars acc) true
          else acc).
Proof.
  pose proof (read_loop_inv (take 50 paths) 0 (mkRead "" 0 false)) as H.
  destruct H as [Hc Ho].
  { unfold read_inv, strlen, MAX_CHARS. cbn [r_currentChars r_output r_broken
                                            String.length].
    lia. }
  split_and!.
  - unfold _readFiles, read_loop, JS.slice0. by rewrite take_take.
  - apply strlen_truncate.
  - exact Hc.
  - unfold _readFiles, read_loop, JS.slice0.
    unfold MAX_CHARS in *.
    destruct (r_broken _); lia.
  - intros acc p Hp. unfold read_step. rewrite Hp.
    destruct (r_broken acc); [done|]. simpl.
    by destruct (MAX_CHARS <=? r_currentChars acc)%N.
Qed.

End ReadFilesProperties.
